(** * The ClusterQueue of the quota cache (pkg/cache/clusterqueue.go)

    A shallow embedding of [clusterQueue], its local queues and the
    operations that keep usage, status and the allocatable-resource
    generation, followed by the properties of the cache that concern them.

    Go maps are finite maps ([gmap]); a read of an absent key gives the zero
    value, as in Go.  [int64] and [int] (64 bits) are integers of [Z] with the
    wrap-around of Go's arithmetic written out ([wrap64]). *)

From Stdlib Require Import ZArith Lia String Ascii List.
From stdpp Require Import base option list sorting gmap strings fin_maps fin_sets.

Open Scope string_scope.
Open Scope list_scope.
Open Scope Z_scope.

(** ** 64-bit integers *)

Definition min_int64 : Z := - 2 ^ 63.
Definition max_int64 : Z := 2 ^ 63 - 1.

(** Result of an [int64] operation whose mathematical result is [z]. *)
Definition wrap64 (z : Z) : Z := (z + 2 ^ 63) `mod` 2 ^ 64 - 2 ^ 63.

Definition is_int64 (z : Z) : Prop := min_int64 ≤ z ≤ max_int64.

(** ** Flavor/resource quantities (resources.FlavorResourceQuantities) *)

(** resources.FlavorResource: a (flavor, resource) pair. *)
Definition FlavorResource : Type := string * string.

Abbreviation FlavorResourceQuantities := (gmap FlavorResource Z).

(** Go's [m[fr]]: the stored quantity, zero for an absent key. *)
Definition quantity (m : FlavorResourceQuantities) (fr : FlavorResource) : Z :=
  default 0 (m !! fr).

(** [m[fr] += v] on an int64-valued map. *)
Definition addTo (fr : FlavorResource) (v : Z) (m : FlavorResourceQuantities)
  : FlavorResourceQuantities :=
  <[fr := wrap64 (quantity m fr + v)]> m.

(** [updateFlavorUsage]: for each [fr, q] of [newUsage],
    [oldUsage[fr] += q * m]. *)
Definition updateFlavorUsage (newUsage oldUsage : FlavorResourceQuantities) (m : Z)
  : FlavorResourceQuantities :=
  map_fold (fun fr q acc => addTo fr (wrap64 (q * m)) acc) oldUsage newUsage.

(** [resetUsage]: the keys of [cqUsage], each with the quantity of [lqUsage]. *)
Definition resetUsage (lqUsage cqUsage : FlavorResourceQuantities)
  : FlavorResourceQuantities :=
  map_fold (fun fr _ acc => <[fr := quantity lqUsage fr]> acc) ∅ cqUsage.

(** All stored quantities are values of type int64. *)
Definition int64_map (m : FlavorResourceQuantities) : Prop :=
  ∀ fr q, m !! fr = Some q → is_int64 q.


(** ** Workloads, local queues, flavors and admission checks *)

(** The parts of a kueue.Workload that the queue reads.  [wlFlavorResourceUsage]
    is the total demand per (flavor, resource) that workload.NewInfo derives
    from the pod sets and the admission of the object. *)
Record Workload : Type := {
  wlNamespace : string;
  wlName : string;
  wlQueueName : string;
  wlAdmitted : bool;
  wlPodsReady : bool;
  wlUsingTAS : bool;
  wlFlavorResourceUsage : FlavorResourceQuantities
}.

(** workload.Info: the cached view of a workload; [Obj] is the object it was
    built from. *)
Record Info : Type := { Obj : Workload }.

(** Modelled from the spec: workload.NewInfo, workload.IsAdmitted,
    Info.FlavorResourceUsage, Info.IsUsingTAS and the workload keys of package
    workload, whose sources are not at hand.  The specification gives a
    workload the unique key namespace/name and the computed field
    FlavorResourceUsage (total demand per flavor/resource pair). *)
Definition NewInfo (w : Workload) : Info := {| Obj := w |}.
Definition IsAdmitted (w : Workload) : bool := wlAdmitted w.
Definition FlavorResourceUsage (wi : Info) : FlavorResourceQuantities :=
  wlFlavorResourceUsage (Obj wi).
Definition IsUsingTAS (wi : Info) : bool := wlUsingTAS (Obj wi).
Definition Key (w : Workload) : string := wlNamespace w +:+ "/" +:+ wlName w.
Definition QueueKey (w : Workload) : string := wlNamespace w +:+ "/" +:+ wlQueueName w.

(** kueue.LocalQueue, and its key in [localQueues] (namespace/name). *)
Record LocalQueue : Type := { lqNamespace : string; lqName : string }.
Definition queueKey (q : LocalQueue) : string := lqNamespace q +:+ "/" +:+ lqName q.

(** [queue]: the counters kept for a local queue. *)
Record queue : Type := {
  key : string;
  reservingWorkloads : Z;
  admittedWorkloads : Z;
  totalReserved : FlavorResourceQuantities;
  admittedUsage : FlavorResourceQuantities
}.

(** metrics.ClusterQueueStatus is a string type: besides the three statuses
    that the package assigns, a queue has the zero value of the type, the
    empty string, until [updateQueueStatus] first gives it a status. *)
Inductive ClusterQueueStatus : Type := pending | active | terminating | noStatus.

#[global] Instance ClusterQueueStatus_eq_dec : EqDecision ClusterQueueStatus.
Proof. solve_decision. Defined.

Record ResourceGroup : Type := {
  CoveredResources : gset string;
  Flavors : list string;
  LabelKeys : gset string
}.

#[global] Instance ResourceGroup_eq_dec : EqDecision ResourceGroup.
Proof. solve_decision. Defined.

Record ResourceQuota : Type := {
  Nominal : Z;
  BorrowingLimit : option Z;
  LendingLimit : option Z
}.

#[global] Instance ResourceQuota_eq_dec : EqDecision ResourceQuota.
Proof. solve_decision. Defined.

(** The part of ResourceNode that the queue's own operations touch. *)
Record ResourceNode : Type := {
  Quotas : gmap FlavorResource ResourceQuota;
  Usage : FlavorResourceQuantities
}.

(** kueue.ResourceFlavor: node labels and the optional topology. *)
Record ResourceFlavor : Type := {
  NodeLabels : gmap string string;
  TopologyName : option string
}.

(** AdmissionCheck as the cache holds it. *)
Record AdmissionCheck : Type := {
  acActive : bool;
  acController : string;
  acSingleInstanceInClusterQueue : bool;
  acFlavorIndependent : bool
}.

Inductive error : Type :=
  | errQueueAlreadyExists
  | errorsNew (msg : string)
  | errExternal (msg : string).

(** The spec of a kueue.ClusterQueue, as [updateClusterQueue] reads it. *)
Record KResourceQuota : Type := {
  rqName : string;
  rqNominalQuota : Z;
  rqBorrowingLimit : option Z;
  rqLendingLimit : option Z
}.
Record KFlavorQuotas : Type := { fqName : string; fqResources : list KResourceQuota }.
Record KResourceGroup : Type := {
  rgCoveredResources : list string;
  rgFlavors : list KFlavorQuotas
}.
Inductive StopPolicy : Type := StopPolicyNone | Hold | HoldAndDrain.

#[global] Instance StopPolicy_eq_dec : EqDecision StopPolicy.
Proof. solve_decision. Defined.

(** [specNamespaceSelector] is the outcome of metav1.LabelSelectorAsSelector on
    the namespace selector; [specAdmissionChecks] is utilac.NewAdmissionChecks
    of the object: the flavors each referenced admission check applies to,
    empty for all of them. *)
Record ClusterQueueSpec : Type := {
  specResourceGroups : list KResourceGroup;
  specNamespaceSelector : option error;
  specStopPolicy : option StopPolicy;
  specAdmissionChecks : gmap string (gset string)
}.

(** Where the queue stands in the cohort forest when it is updated:
    [c.HasParent()], [oldParent != c.Parent()], what
    updateCohortTreeResources(c.Parent()) returns, [oldParent != nil], and
    whether updateCohortTreeResources(oldParent) reaches the queue.  Modelled
    from the spec: updateCohortTreeResources of resource_node.go, not among
    the sources at hand, recomputes the queues of the tree of the cohort
    bottom-up, so the update of the tree of the old parent reaches the queue
    when its new parent is in that tree; it fails, and changes nothing, on a
    tree with a cycle. *)
Record CohortEdge : Type := {
  hasParent : bool;
  parentChanged : bool;
  treeUpdateError : option error;
  hasOldParent : bool;
  oldParentTreeHoldsQueue : bool
}.

(** ** The cluster queue *)

(** [tasCache] stands for the shared TAS cache the queue points to: the flavors
    for which [c.tasCache.Get] is not nil.  The usage kept inside that cache
    is outside the queue. *)
Record clusterQueue : Type := {
  ResourceGroups : list ResourceGroup;
  Workloads : gmap string Info;
  WorkloadsNotReady : gset string;
  AdmissionChecks : gmap string (gset string);
  Status : ClusterQueueStatus;
  AllocatableResourceGeneration : Z;
  AdmittedUsage : FlavorResourceQuantities;
  localQueues : gmap string queue;
  podsReadyTracking : bool;
  missingFlavors : list string;
  missingAdmissionChecks : list string;
  inactiveAdmissionChecks : list string;
  multipleSingleInstanceControllersChecks : gmap string (list string);
  flavorIndependentAdmissionCheckAppliedPerFlavor : list string;
  multiKueueAdmissionChecks : list string;
  provisioningAdmissionChecks : list string;
  perFlavorMultiKueueAdmissionChecks : list string;
  tasFlavors : gmap string string;
  admittedWorkloadsCount : Z;
  isStopped : bool;
  resourceNode : ResourceNode;
  tasCache : gset string;
  workloadsNotAccountedForTAS : gset string
}.

(** Assignments to single fields ([c.f = v]). *)
Definition set_ResourceGroups (v : list ResourceGroup) (c : clusterQueue) : clusterQueue :=
  {| ResourceGroups := v; Workloads := Workloads c; WorkloadsNotReady :=
     WorkloadsNotReady c; AdmissionChecks := AdmissionChecks c; Status :=
     Status c; AllocatableResourceGeneration :=
     AllocatableResourceGeneration c; AdmittedUsage := AdmittedUsage c;
     localQueues := localQueues c; podsReadyTracking := podsReadyTracking c;
     missingFlavors := missingFlavors c; missingAdmissionChecks :=
     missingAdmissionChecks c; inactiveAdmissionChecks :=
     inactiveAdmissionChecks c; multipleSingleInstanceControllersChecks :=
     multipleSingleInstanceControllersChecks c;
     flavorIndependentAdmissionCheckAppliedPerFlavor :=
     flavorIndependentAdmissionCheckAppliedPerFlavor c;
     multiKueueAdmissionChecks := multiKueueAdmissionChecks c;
     provisioningAdmissionChecks := provisioningAdmissionChecks c;
     perFlavorMultiKueueAdmissionChecks :=
     perFlavorMultiKueueAdmissionChecks c; tasFlavors := tasFlavors c;
     admittedWorkloadsCount := admittedWorkloadsCount c; isStopped :=
     isStopped c; resourceNode := resourceNode c; tasCache := tasCache c;
     workloadsNotAccountedForTAS := workloadsNotAccountedForTAS c |}.
Definition set_Workloads (v : gmap string Info) (c : clusterQueue) : clusterQueue :=
  {| ResourceGroups := ResourceGroups c; Workloads := v; WorkloadsNotReady
     := WorkloadsNotReady c; AdmissionChecks := AdmissionChecks c; Status :=
     Status c; AllocatableResourceGeneration :=
     AllocatableResourceGeneration c; AdmittedUsage := AdmittedUsage c;
     localQueues := localQueues c; podsReadyTracking := podsReadyTracking c;
     missingFlavors := missingFlavors c; missingAdmissionChecks :=
     missingAdmissionChecks c; inactiveAdmissionChecks :=
     inactiveAdmissionChecks c; multipleSingleInstanceControllersChecks :=
     multipleSingleInstanceControllersChecks c;
     flavorIndependentAdmissionCheckAppliedPerFlavor :=
     flavorIndependentAdmissionCheckAppliedPerFlavor c;
     multiKueueAdmissionChecks := multiKueueAdmissionChecks c;
     provisioningAdmissionChecks := provisioningAdmissionChecks c;
     perFlavorMultiKueueAdmissionChecks :=
     perFlavorMultiKueueAdmissionChecks c; tasFlavors := tasFlavors c;
     admittedWorkloadsCount := admittedWorkloadsCount c; isStopped :=
     isStopped c; resourceNode := resourceNode c; tasCache := tasCache c;
     workloadsNotAccountedForTAS := workloadsNotAccountedForTAS c |}.
Definition set_WorkloadsNotReady (v : gset string) (c : clusterQueue) : clusterQueue :=
  {| ResourceGroups := ResourceGroups c; Workloads := Workloads c;
     WorkloadsNotReady := v; AdmissionChecks := AdmissionChecks c; Status :=
     Status c; AllocatableResourceGeneration :=
     AllocatableResourceGeneration c; AdmittedUsage := AdmittedUsage c;
     localQueues := localQueues c; podsReadyTracking := podsReadyTracking c;
     missingFlavors := missingFlavors c; missingAdmissionChecks :=
     missingAdmissionChecks c; inactiveAdmissionChecks :=
     inactiveAdmissionChecks c; multipleSingleInstanceControllersChecks :=
     multipleSingleInstanceControllersChecks c;
     flavorIndependentAdmissionCheckAppliedPerFlavor :=
     flavorIndependentAdmissionCheckAppliedPerFlavor c;
     multiKueueAdmissionChecks := multiKueueAdmissionChecks c;
     provisioningAdmissionChecks := provisioningAdmissionChecks c;
     perFlavorMultiKueueAdmissionChecks :=
     perFlavorMultiKueueAdmissionChecks c; tasFlavors := tasFlavors c;
     admittedWorkloadsCount := admittedWorkloadsCount c; isStopped :=
     isStopped c; resourceNode := resourceNode c; tasCache := tasCache c;
     workloadsNotAccountedForTAS := workloadsNotAccountedForTAS c |}.
Definition set_AdmissionChecks (v : gmap string (gset string)) (c : clusterQueue) : clusterQueue :=
  {| ResourceGroups := ResourceGroups c; Workloads := Workloads c;
     WorkloadsNotReady := WorkloadsNotReady c; AdmissionChecks := v; Status
     := Status c; AllocatableResourceGeneration :=
     AllocatableResourceGeneration c; AdmittedUsage := AdmittedUsage c;
     localQueues := localQueues c; podsReadyTracking := podsReadyTracking c;
     missingFlavors := missingFlavors c; missingAdmissionChecks :=
     missingAdmissionChecks c; inactiveAdmissionChecks :=
     inactiveAdmissionChecks c; multipleSingleInstanceControllersChecks :=
     multipleSingleInstanceControllersChecks c;
     flavorIndependentAdmissionCheckAppliedPerFlavor :=
     flavorIndependentAdmissionCheckAppliedPerFlavor c;
     multiKueueAdmissionChecks := multiKueueAdmissionChecks c;
     provisioningAdmissionChecks := provisioningAdmissionChecks c;
     perFlavorMultiKueueAdmissionChecks :=
     perFlavorMultiKueueAdmissionChecks c; tasFlavors := tasFlavors c;
     admittedWorkloadsCount := admittedWorkloadsCount c; isStopped :=
     isStopped c; resourceNode := resourceNode c; tasCache := tasCache c;
     workloadsNotAccountedForTAS := workloadsNotAccountedForTAS c |}.
Definition set_Status (v : ClusterQueueStatus) (c : clusterQueue) : clusterQueue :=
  {| ResourceGroups := ResourceGroups c; Workloads := Workloads c;
     WorkloadsNotReady := WorkloadsNotReady c; AdmissionChecks :=
     AdmissionChecks c; Status := v; AllocatableResourceGeneration :=
     AllocatableResourceGeneration c; AdmittedUsage := AdmittedUsage c;
     localQueues := localQueues c; podsReadyTracking := podsReadyTracking c;
     missingFlavors := missingFlavors c; missingAdmissionChecks :=
     missingAdmissionChecks c; inactiveAdmissionChecks :=
     inactiveAdmissionChecks c; multipleSingleInstanceControllersChecks :=
     multipleSingleInstanceControllersChecks c;
     flavorIndependentAdmissionCheckAppliedPerFlavor :=
     flavorIndependentAdmissionCheckAppliedPerFlavor c;
     multiKueueAdmissionChecks := multiKueueAdmissionChecks c;
     provisioningAdmissionChecks := provisioningAdmissionChecks c;
     perFlavorMultiKueueAdmissionChecks :=
     perFlavorMultiKueueAdmissionChecks c; tasFlavors := tasFlavors c;
     admittedWorkloadsCount := admittedWorkloadsCount c; isStopped :=
     isStopped c; resourceNode := resourceNode c; tasCache := tasCache c;
     workloadsNotAccountedForTAS := workloadsNotAccountedForTAS c |}.
Definition set_AllocatableResourceGeneration (v : Z) (c : clusterQueue) : clusterQueue :=
  {| ResourceGroups := ResourceGroups c; Workloads := Workloads c;
     WorkloadsNotReady := WorkloadsNotReady c; AdmissionChecks :=
     AdmissionChecks c; Status := Status c; AllocatableResourceGeneration :=
     v; AdmittedUsage := AdmittedUsage c; localQueues := localQueues c;
     podsReadyTracking := podsReadyTracking c; missingFlavors :=
     missingFlavors c; missingAdmissionChecks := missingAdmissionChecks c;
     inactiveAdmissionChecks := inactiveAdmissionChecks c;
     multipleSingleInstanceControllersChecks :=
     multipleSingleInstanceControllersChecks c;
     flavorIndependentAdmissionCheckAppliedPerFlavor :=
     flavorIndependentAdmissionCheckAppliedPerFlavor c;
     multiKueueAdmissionChecks := multiKueueAdmissionChecks c;
     provisioningAdmissionChecks := provisioningAdmissionChecks c;
     perFlavorMultiKueueAdmissionChecks :=
     perFlavorMultiKueueAdmissionChecks c; tasFlavors := tasFlavors c;
     admittedWorkloadsCount := admittedWorkloadsCount c; isStopped :=
     isStopped c; resourceNode := resourceNode c; tasCache := tasCache c;
     workloadsNotAccountedForTAS := workloadsNotAccountedForTAS c |}.
Definition set_AdmittedUsage (v : FlavorResourceQuantities) (c : clusterQueue) : clusterQueue :=
  {| ResourceGroups := ResourceGroups c; Workloads := Workloads c;
     WorkloadsNotReady := WorkloadsNotReady c; AdmissionChecks :=
     AdmissionChecks c; Status := Status c; AllocatableResourceGeneration :=
     AllocatableResourceGeneration c; AdmittedUsage := v; localQueues :=
     localQueues c; podsReadyTracking := podsReadyTracking c; missingFlavors
     := missingFlavors c; missingAdmissionChecks := missingAdmissionChecks
     c; inactiveAdmissionChecks := inactiveAdmissionChecks c;
     multipleSingleInstanceControllersChecks :=
     multipleSingleInstanceControllersChecks c;
     flavorIndependentAdmissionCheckAppliedPerFlavor :=
     flavorIndependentAdmissionCheckAppliedPerFlavor c;
     multiKueueAdmissionChecks := multiKueueAdmissionChecks c;
     provisioningAdmissionChecks := provisioningAdmissionChecks c;
     perFlavorMultiKueueAdmissionChecks :=
     perFlavorMultiKueueAdmissionChecks c; tasFlavors := tasFlavors c;
     admittedWorkloadsCount := admittedWorkloadsCount c; isStopped :=
     isStopped c; resourceNode := resourceNode c; tasCache := tasCache c;
     workloadsNotAccountedForTAS := workloadsNotAccountedForTAS c |}.
Definition set_localQueues (v : gmap string queue) (c : clusterQueue) : clusterQueue :=
  {| ResourceGroups := ResourceGroups c; Workloads := Workloads c;
     WorkloadsNotReady := WorkloadsNotReady c; AdmissionChecks :=
     AdmissionChecks c; Status := Status c; AllocatableResourceGeneration :=
     AllocatableResourceGeneration c; AdmittedUsage := AdmittedUsage c;
     localQueues := v; podsReadyTracking := podsReadyTracking c;
     missingFlavors := missingFlavors c; missingAdmissionChecks :=
     missingAdmissionChecks c; inactiveAdmissionChecks :=
     inactiveAdmissionChecks c; multipleSingleInstanceControllersChecks :=
     multipleSingleInstanceControllersChecks c;
     flavorIndependentAdmissionCheckAppliedPerFlavor :=
     flavorIndependentAdmissionCheckAppliedPerFlavor c;
     multiKueueAdmissionChecks := multiKueueAdmissionChecks c;
     provisioningAdmissionChecks := provisioningAdmissionChecks c;
     perFlavorMultiKueueAdmissionChecks :=
     perFlavorMultiKueueAdmissionChecks c; tasFlavors := tasFlavors c;
     admittedWorkloadsCount := admittedWorkloadsCount c; isStopped :=
     isStopped c; resourceNode := resourceNode c; tasCache := tasCache c;
     workloadsNotAccountedForTAS := workloadsNotAccountedForTAS c |}.
Definition set_missingFlavors (v : list string) (c : clusterQueue) : clusterQueue :=
  {| ResourceGroups := ResourceGroups c; Workloads := Workloads c;
     WorkloadsNotReady := WorkloadsNotReady c; AdmissionChecks :=
     AdmissionChecks c; Status := Status c; AllocatableResourceGeneration :=
     AllocatableResourceGeneration c; AdmittedUsage := AdmittedUsage c;
     localQueues := localQueues c; podsReadyTracking := podsReadyTracking c;
     missingFlavors := v; missingAdmissionChecks := missingAdmissionChecks
     c; inactiveAdmissionChecks := inactiveAdmissionChecks c;
     multipleSingleInstanceControllersChecks :=
     multipleSingleInstanceControllersChecks c;
     flavorIndependentAdmissionCheckAppliedPerFlavor :=
     flavorIndependentAdmissionCheckAppliedPerFlavor c;
     multiKueueAdmissionChecks := multiKueueAdmissionChecks c;
     provisioningAdmissionChecks := provisioningAdmissionChecks c;
     perFlavorMultiKueueAdmissionChecks :=
     perFlavorMultiKueueAdmissionChecks c; tasFlavors := tasFlavors c;
     admittedWorkloadsCount := admittedWorkloadsCount c; isStopped :=
     isStopped c; resourceNode := resourceNode c; tasCache := tasCache c;
     workloadsNotAccountedForTAS := workloadsNotAccountedForTAS c |}.
Definition set_missingAdmissionChecks (v : list string) (c : clusterQueue) : clusterQueue :=
  {| ResourceGroups := ResourceGroups c; Workloads := Workloads c;
     WorkloadsNotReady := WorkloadsNotReady c; AdmissionChecks :=
     AdmissionChecks c; Status := Status c; AllocatableResourceGeneration :=
     AllocatableResourceGeneration c; AdmittedUsage := AdmittedUsage c;
     localQueues := localQueues c; podsReadyTracking := podsReadyTracking c;
     missingFlavors := missingFlavors c; missingAdmissionChecks := v;
     inactiveAdmissionChecks := inactiveAdmissionChecks c;
     multipleSingleInstanceControllersChecks :=
     multipleSingleInstanceControllersChecks c;
     flavorIndependentAdmissionCheckAppliedPerFlavor :=
     flavorIndependentAdmissionCheckAppliedPerFlavor c;
     multiKueueAdmissionChecks := multiKueueAdmissionChecks c;
     provisioningAdmissionChecks := provisioningAdmissionChecks c;
     perFlavorMultiKueueAdmissionChecks :=
     perFlavorMultiKueueAdmissionChecks c; tasFlavors := tasFlavors c;
     admittedWorkloadsCount := admittedWorkloadsCount c; isStopped :=
     isStopped c; resourceNode := resourceNode c; tasCache := tasCache c;
     workloadsNotAccountedForTAS := workloadsNotAccountedForTAS c |}.
Definition set_inactiveAdmissionChecks (v : list string) (c : clusterQueue) : clusterQueue :=
  {| ResourceGroups := ResourceGroups c; Workloads := Workloads c;
     WorkloadsNotReady := WorkloadsNotReady c; AdmissionChecks :=
     AdmissionChecks c; Status := Status c; AllocatableResourceGeneration :=
     AllocatableResourceGeneration c; AdmittedUsage := AdmittedUsage c;
     localQueues := localQueues c; podsReadyTracking := podsReadyTracking c;
     missingFlavors := missingFlavors c; missingAdmissionChecks :=
     missingAdmissionChecks c; inactiveAdmissionChecks := v;
     multipleSingleInstanceControllersChecks :=
     multipleSingleInstanceControllersChecks c;
     flavorIndependentAdmissionCheckAppliedPerFlavor :=
     flavorIndependentAdmissionCheckAppliedPerFlavor c;
     multiKueueAdmissionChecks := multiKueueAdmissionChecks c;
     provisioningAdmissionChecks := provisioningAdmissionChecks c;
     perFlavorMultiKueueAdmissionChecks :=
     perFlavorMultiKueueAdmissionChecks c; tasFlavors := tasFlavors c;
     admittedWorkloadsCount := admittedWorkloadsCount c; isStopped :=
     isStopped c; resourceNode := resourceNode c; tasCache := tasCache c;
     workloadsNotAccountedForTAS := workloadsNotAccountedForTAS c |}.
Definition set_multipleSingleInstanceControllersChecks (v : gmap string (list string)) (c : clusterQueue) : clusterQueue :=
  {| ResourceGroups := ResourceGroups c; Workloads := Workloads c;
     WorkloadsNotReady := WorkloadsNotReady c; AdmissionChecks :=
     AdmissionChecks c; Status := Status c; AllocatableResourceGeneration :=
     AllocatableResourceGeneration c; AdmittedUsage := AdmittedUsage c;
     localQueues := localQueues c; podsReadyTracking := podsReadyTracking c;
     missingFlavors := missingFlavors c; missingAdmissionChecks :=
     missingAdmissionChecks c; inactiveAdmissionChecks :=
     inactiveAdmissionChecks c; multipleSingleInstanceControllersChecks :=
     v; flavorIndependentAdmissionCheckAppliedPerFlavor :=
     flavorIndependentAdmissionCheckAppliedPerFlavor c;
     multiKueueAdmissionChecks := multiKueueAdmissionChecks c;
     provisioningAdmissionChecks := provisioningAdmissionChecks c;
     perFlavorMultiKueueAdmissionChecks :=
     perFlavorMultiKueueAdmissionChecks c; tasFlavors := tasFlavors c;
     admittedWorkloadsCount := admittedWorkloadsCount c; isStopped :=
     isStopped c; resourceNode := resourceNode c; tasCache := tasCache c;
     workloadsNotAccountedForTAS := workloadsNotAccountedForTAS c |}.
Definition set_flavorIndependentAdmissionCheckAppliedPerFlavor (v : list string) (c : clusterQueue) : clusterQueue :=
  {| ResourceGroups := ResourceGroups c; Workloads := Workloads c;
     WorkloadsNotReady := WorkloadsNotReady c; AdmissionChecks :=
     AdmissionChecks c; Status := Status c; AllocatableResourceGeneration :=
     AllocatableResourceGeneration c; AdmittedUsage := AdmittedUsage c;
     localQueues := localQueues c; podsReadyTracking := podsReadyTracking c;
     missingFlavors := missingFlavors c; missingAdmissionChecks :=
     missingAdmissionChecks c; inactiveAdmissionChecks :=
     inactiveAdmissionChecks c; multipleSingleInstanceControllersChecks :=
     multipleSingleInstanceControllersChecks c;
     flavorIndependentAdmissionCheckAppliedPerFlavor := v;
     multiKueueAdmissionChecks := multiKueueAdmissionChecks c;
     provisioningAdmissionChecks := provisioningAdmissionChecks c;
     perFlavorMultiKueueAdmissionChecks :=
     perFlavorMultiKueueAdmissionChecks c; tasFlavors := tasFlavors c;
     admittedWorkloadsCount := admittedWorkloadsCount c; isStopped :=
     isStopped c; resourceNode := resourceNode c; tasCache := tasCache c;
     workloadsNotAccountedForTAS := workloadsNotAccountedForTAS c |}.
Definition set_multiKueueAdmissionChecks (v : list string) (c : clusterQueue) : clusterQueue :=
  {| ResourceGroups := ResourceGroups c; Workloads := Workloads c;
     WorkloadsNotReady := WorkloadsNotReady c; AdmissionChecks :=
     AdmissionChecks c; Status := Status c; AllocatableResourceGeneration :=
     AllocatableResourceGeneration c; AdmittedUsage := AdmittedUsage c;
     localQueues := localQueues c; podsReadyTracking := podsReadyTracking c;
     missingFlavors := missingFlavors c; missingAdmissionChecks :=
     missingAdmissionChecks c; inactiveAdmissionChecks :=
     inactiveAdmissionChecks c; multipleSingleInstanceControllersChecks :=
     multipleSingleInstanceControllersChecks c;
     flavorIndependentAdmissionCheckAppliedPerFlavor :=
     flavorIndependentAdmissionCheckAppliedPerFlavor c;
     multiKueueAdmissionChecks := v; provisioningAdmissionChecks :=
     provisioningAdmissionChecks c; perFlavorMultiKueueAdmissionChecks :=
     perFlavorMultiKueueAdmissionChecks c; tasFlavors := tasFlavors c;
     admittedWorkloadsCount := admittedWorkloadsCount c; isStopped :=
     isStopped c; resourceNode := resourceNode c; tasCache := tasCache c;
     workloadsNotAccountedForTAS := workloadsNotAccountedForTAS c |}.
Definition set_provisioningAdmissionChecks (v : list string) (c : clusterQueue) : clusterQueue :=
  {| ResourceGroups := ResourceGroups c; Workloads := Workloads c;
     WorkloadsNotReady := WorkloadsNotReady c; AdmissionChecks :=
     AdmissionChecks c; Status := Status c; AllocatableResourceGeneration :=
     AllocatableResourceGeneration c; AdmittedUsage := AdmittedUsage c;
     localQueues := localQueues c; podsReadyTracking := podsReadyTracking c;
     missingFlavors := missingFlavors c; missingAdmissionChecks :=
     missingAdmissionChecks c; inactiveAdmissionChecks :=
     inactiveAdmissionChecks c; multipleSingleInstanceControllersChecks :=
     multipleSingleInstanceControllersChecks c;
     flavorIndependentAdmissionCheckAppliedPerFlavor :=
     flavorIndependentAdmissionCheckAppliedPerFlavor c;
     multiKueueAdmissionChecks := multiKueueAdmissionChecks c;
     provisioningAdmissionChecks := v; perFlavorMultiKueueAdmissionChecks :=
     perFlavorMultiKueueAdmissionChecks c; tasFlavors := tasFlavors c;
     admittedWorkloadsCount := admittedWorkloadsCount c; isStopped :=
     isStopped c; resourceNode := resourceNode c; tasCache := tasCache c;
     workloadsNotAccountedForTAS := workloadsNotAccountedForTAS c |}.
Definition set_perFlavorMultiKueueAdmissionChecks (v : list string) (c : clusterQueue) : clusterQueue :=
  {| ResourceGroups := ResourceGroups c; Workloads := Workloads c;
     WorkloadsNotReady := WorkloadsNotReady c; AdmissionChecks :=
     AdmissionChecks c; Status := Status c; AllocatableResourceGeneration :=
     AllocatableResourceGeneration c; AdmittedUsage := AdmittedUsage c;
     localQueues := localQueues c; podsReadyTracking := podsReadyTracking c;
     missingFlavors := missingFlavors c; missingAdmissionChecks :=
     missingAdmissionChecks c; inactiveAdmissionChecks :=
     inactiveAdmissionChecks c; multipleSingleInstanceControllersChecks :=
     multipleSingleInstanceControllersChecks c;
     flavorIndependentAdmissionCheckAppliedPerFlavor :=
     flavorIndependentAdmissionCheckAppliedPerFlavor c;
     multiKueueAdmissionChecks := multiKueueAdmissionChecks c;
     provisioningAdmissionChecks := provisioningAdmissionChecks c;
     perFlavorMultiKueueAdmissionChecks := v; tasFlavors := tasFlavors c;
     admittedWorkloadsCount := admittedWorkloadsCount c; isStopped :=
     isStopped c; resourceNode := resourceNode c; tasCache := tasCache c;
     workloadsNotAccountedForTAS := workloadsNotAccountedForTAS c |}.
Definition set_tasFlavors (v : gmap string string) (c : clusterQueue) : clusterQueue :=
  {| ResourceGroups := ResourceGroups c; Workloads := Workloads c;
     WorkloadsNotReady := WorkloadsNotReady c; AdmissionChecks :=
     AdmissionChecks c; Status := Status c; AllocatableResourceGeneration :=
     AllocatableResourceGeneration c; AdmittedUsage := AdmittedUsage c;
     localQueues := localQueues c; podsReadyTracking := podsReadyTracking c;
     missingFlavors := missingFlavors c; missingAdmissionChecks :=
     missingAdmissionChecks c; inactiveAdmissionChecks :=
     inactiveAdmissionChecks c; multipleSingleInstanceControllersChecks :=
     multipleSingleInstanceControllersChecks c;
     flavorIndependentAdmissionCheckAppliedPerFlavor :=
     flavorIndependentAdmissionCheckAppliedPerFlavor c;
     multiKueueAdmissionChecks := multiKueueAdmissionChecks c;
     provisioningAdmissionChecks := provisioningAdmissionChecks c;
     perFlavorMultiKueueAdmissionChecks :=
     perFlavorMultiKueueAdmissionChecks c; tasFlavors := v;
     admittedWorkloadsCount := admittedWorkloadsCount c; isStopped :=
     isStopped c; resourceNode := resourceNode c; tasCache := tasCache c;
     workloadsNotAccountedForTAS := workloadsNotAccountedForTAS c |}.
Definition set_admittedWorkloadsCount (v : Z) (c : clusterQueue) : clusterQueue :=
  {| ResourceGroups := ResourceGroups c; Workloads := Workloads c;
     WorkloadsNotReady := WorkloadsNotReady c; AdmissionChecks :=
     AdmissionChecks c; Status := Status c; AllocatableResourceGeneration :=
     AllocatableResourceGeneration c; AdmittedUsage := AdmittedUsage c;
     localQueues := localQueues c; podsReadyTracking := podsReadyTracking c;
     missingFlavors := missingFlavors c; missingAdmissionChecks :=
     missingAdmissionChecks c; inactiveAdmissionChecks :=
     inactiveAdmissionChecks c; multipleSingleInstanceControllersChecks :=
     multipleSingleInstanceControllersChecks c;
     flavorIndependentAdmissionCheckAppliedPerFlavor :=
     flavorIndependentAdmissionCheckAppliedPerFlavor c;
     multiKueueAdmissionChecks := multiKueueAdmissionChecks c;
     provisioningAdmissionChecks := provisioningAdmissionChecks c;
     perFlavorMultiKueueAdmissionChecks :=
     perFlavorMultiKueueAdmissionChecks c; tasFlavors := tasFlavors c;
     admittedWorkloadsCount := v; isStopped := isStopped c; resourceNode :=
     resourceNode c; tasCache := tasCache c; workloadsNotAccountedForTAS :=
     workloadsNotAccountedForTAS c |}.
Definition set_isStopped (v : bool) (c : clusterQueue) : clusterQueue :=
  {| ResourceGroups := ResourceGroups c; Workloads := Workloads c;
     WorkloadsNotReady := WorkloadsNotReady c; AdmissionChecks :=
     AdmissionChecks c; Status := Status c; AllocatableResourceGeneration :=
     AllocatableResourceGeneration c; AdmittedUsage := AdmittedUsage c;
     localQueues := localQueues c; podsReadyTracking := podsReadyTracking c;
     missingFlavors := missingFlavors c; missingAdmissionChecks :=
     missingAdmissionChecks c; inactiveAdmissionChecks :=
     inactiveAdmissionChecks c; multipleSingleInstanceControllersChecks :=
     multipleSingleInstanceControllersChecks c;
     flavorIndependentAdmissionCheckAppliedPerFlavor :=
     flavorIndependentAdmissionCheckAppliedPerFlavor c;
     multiKueueAdmissionChecks := multiKueueAdmissionChecks c;
     provisioningAdmissionChecks := provisioningAdmissionChecks c;
     perFlavorMultiKueueAdmissionChecks :=
     perFlavorMultiKueueAdmissionChecks c; tasFlavors := tasFlavors c;
     admittedWorkloadsCount := admittedWorkloadsCount c; isStopped := v;
     resourceNode := resourceNode c; tasCache := tasCache c;
     workloadsNotAccountedForTAS := workloadsNotAccountedForTAS c |}.
Definition set_resourceNode (v : ResourceNode) (c : clusterQueue) : clusterQueue :=
  {| ResourceGroups := ResourceGroups c; Workloads := Workloads c;
     WorkloadsNotReady := WorkloadsNotReady c; AdmissionChecks :=
     AdmissionChecks c; Status := Status c; AllocatableResourceGeneration :=
     AllocatableResourceGeneration c; AdmittedUsage := AdmittedUsage c;
     localQueues := localQueues c; podsReadyTracking := podsReadyTracking c;
     missingFlavors := missingFlavors c; missingAdmissionChecks :=
     missingAdmissionChecks c; inactiveAdmissionChecks :=
     inactiveAdmissionChecks c; multipleSingleInstanceControllersChecks :=
     multipleSingleInstanceControllersChecks c;
     flavorIndependentAdmissionCheckAppliedPerFlavor :=
     flavorIndependentAdmissionCheckAppliedPerFlavor c;
     multiKueueAdmissionChecks := multiKueueAdmissionChecks c;
     provisioningAdmissionChecks := provisioningAdmissionChecks c;
     perFlavorMultiKueueAdmissionChecks :=
     perFlavorMultiKueueAdmissionChecks c; tasFlavors := tasFlavors c;
     admittedWorkloadsCount := admittedWorkloadsCount c; isStopped :=
     isStopped c; resourceNode := v; tasCache := tasCache c;
     workloadsNotAccountedForTAS := workloadsNotAccountedForTAS c |}.
Definition set_workloadsNotAccountedForTAS (v : gset string) (c : clusterQueue) : clusterQueue :=
  {| ResourceGroups := ResourceGroups c; Workloads := Workloads c;
     WorkloadsNotReady := WorkloadsNotReady c; AdmissionChecks :=
     AdmissionChecks c; Status := Status c; AllocatableResourceGeneration :=
     AllocatableResourceGeneration c; AdmittedUsage := AdmittedUsage c;
     localQueues := localQueues c; podsReadyTracking := podsReadyTracking c;
     missingFlavors := missingFlavors c; missingAdmissionChecks :=
     missingAdmissionChecks c; inactiveAdmissionChecks :=
     inactiveAdmissionChecks c; multipleSingleInstanceControllersChecks :=
     multipleSingleInstanceControllersChecks c;
     flavorIndependentAdmissionCheckAppliedPerFlavor :=
     flavorIndependentAdmissionCheckAppliedPerFlavor c;
     multiKueueAdmissionChecks := multiKueueAdmissionChecks c;
     provisioningAdmissionChecks := provisioningAdmissionChecks c;
     perFlavorMultiKueueAdmissionChecks :=
     perFlavorMultiKueueAdmissionChecks c; tasFlavors := tasFlavors c;
     admittedWorkloadsCount := admittedWorkloadsCount c; isStopped :=
     isStopped c; resourceNode := resourceNode c; tasCache := tasCache c;
     workloadsNotAccountedForTAS := v |}.

(** [c.Active()]. *)
Definition Active (c : clusterQueue) : bool := bool_decide (Status c = active).

(** Assignments to the fields of [c.resourceNode]. *)
Definition set_Usage (u : FlavorResourceQuantities) (c : clusterQueue) : clusterQueue :=
  set_resourceNode {| Quotas := Quotas (resourceNode c); Usage := u |} c.
Definition set_Quotas (q : gmap FlavorResource ResourceQuota) (c : clusterQueue)
  : clusterQueue :=
  set_resourceNode {| Quotas := q; Usage := Usage (resourceNode c) |} c.

(** Modelled from the spec: [addUsage] and [removeUsage] of resource_node.go,
    which is not among the sources at hand.  The specification has a workload
    increment the usage of its queue by its FlavorResourceUsage (times +1) and
    decrement it (times -1) when it leaves; what these functions pass on to
    the parent cohort is outside the queue. *)
Definition addUsage (c : clusterQueue) (fr : FlavorResource) (val : Z) : clusterQueue :=
  set_Usage (addTo fr val (Usage (resourceNode c))) c.
Definition removeUsage (c : clusterQueue) (fr : FlavorResource) (val : Z) : clusterQueue :=
  set_Usage (addTo fr (- val) (Usage (resourceNode c))) c.

(** Modelled from the spec: [updateClusterQueueResourceNode] of
    resource_node.go, not among the sources at hand.  The specification has an
    update that changes the resource shape bump AllocatableResourceGeneration
    (and recompute subtree totals, which are not part of this model). *)
Definition updateClusterQueueResourceNode (c : clusterQueue) : clusterQueue :=
  set_AllocatableResourceGeneration (wrap64 (AllocatableResourceGeneration c + 1)) c.

(** Modelled from the spec: [createResourceQuotas] of resource_node.go, not
    among the sources at hand: per (flavor, resource) the nominal quota and the
    optional borrowing and lending limits. *)
Definition createResourceQuotas (kueueRgs : list KResourceGroup)
  : gmap FlavorResource ResourceQuota :=
  foldl (fun quotas kueueRg =>
    foldl (fun quotas kueueFlavor =>
      foldl (fun quotas kueueQuota =>
        <[(fqName kueueFlavor, rqName kueueQuota) :=
            {| Nominal := rqNominalQuota kueueQuota;
               BorrowingLimit := rqBorrowingLimit kueueQuota;
               LendingLimit := rqLendingLimit kueueQuota |}]> quotas)
        quotas (fqResources kueueFlavor))
      quotas (rgFlavors kueueRg))
    ∅ kueueRgs.

Definition createdResourceGroups (kueueRgs : list KResourceGroup) : list ResourceGroup :=
  map (fun kueueRg =>
         {| CoveredResources := list_to_set (rgCoveredResources kueueRg);
            Flavors := map fqName (rgFlavors kueueRg);
            LabelKeys := ∅ |}) kueueRgs.

(** [updateQuotasAndResourceGroups]: the updated queue and whether anything
    changed. *)
Definition updateQuotasAndResourceGroups (c : clusterQueue) (kueueRgs : list KResourceGroup)
  : clusterQueue * bool :=
  let oldRG := ResourceGroups c in
  let oldQuotas := Quotas (resourceNode c) in
  let c := set_ResourceGroups (createdResourceGroups kueueRgs) c in
  let c := set_Quotas (createResourceQuotas kueueRgs) c in
  (c, (AllocatableResourceGeneration c =? 0)
      || negb (bool_decide (oldRG = ResourceGroups c))
      || negb (bool_decide (oldQuotas = Quotas (resourceNode c)))).

Section Cache.

(** Feature gates. *)
Variable TopologyAwareScheduling : bool.
Variable AdmissionCheckValidationRules : bool.

(** Constants of the API package. *)
Variable MultiKueueControllerName : string.
Variable ProvisioningRequestControllerName : string.

(** api.TruncateConditionMessage and the verb %q of package fmt. *)
Variable TruncateConditionMessage : string → string.
Variable fmtQ : string → string.

(** The order in which a range over the TAS flavors of a queue visits them:
    Go leaves it open, every entry is visited once. *)
Variable rangeTASFlavors : gmap string string → list (string * string).
Hypothesis rangeTASFlavors_perm : ∀ m, rangeTASFlavors m ≡ₚ map_to_list m.

Set Default Proof Using "Type".

(** Keeps the parameters of the section that the statement at hand mentions
    and drops the others, so that no proof search picks one up. *)
Ltac drop_unused_variables :=
  try clear rangeTASFlavors;
  try clear fmtQ; try clear TruncateConditionMessage;
  try clear ProvisioningRequestControllerName; try clear MultiKueueControllerName;
  try clear AdmissionCheckValidationRules; try clear TopologyAwareScheduling.

Ltac drop_unused := try clear rangeTASFlavors_perm; drop_unused_variables.

(** [isTASSynced]: every TAS flavor of the queue has its cache. *)
Definition isTASSynced (c : clusterQueue) : bool :=
  bool_decide (map_Forall (fun tasFlavor _ => tasFlavor ∈ tasCache c) (tasFlavors c)).

Definition isTASViolated (c : clusterQueue) : bool :=
  if negb TopologyAwareScheduling || (size (tasFlavors c) =? 0)%nat then false
  else if negb (isTASSynced c) then true
  else (0 <? length (multiKueueAdmissionChecks c))%nat
       || (0 <? length (provisioningAdmissionChecks c))%nat.

(** *** Workload accounting *)

(** [updateWorkloadTASUsage].  The usage added to or removed from the TAS
    flavor caches lives outside the queue; the queue keeps which workloads
    are still to be accounted. *)
Definition updateWorkloadTASUsage (c : clusterQueue) (wi : Info) (m : Z) : clusterQueue :=
  if negb TopologyAwareScheduling || negb (IsUsingTAS wi) then c
  else
    let key := Key (Obj wi) in
    if negb (isTASSynced c) then
      set_workloadsNotAccountedForTAS ({[key]} ∪ workloadsNotAccountedForTAS c) c
    else
      set_workloadsNotAccountedForTAS (workloadsNotAccountedForTAS c ∖ {[key]}) c.

(** The counters of a local queue after a workload joins or leaves. *)
Definition updateQueueUsage (lq : queue) (frUsage : FlavorResourceQuantities)
    (admitted : bool) (m : Z) : queue :=
  {| key := key lq;
     reservingWorkloads := wrap64 (reservingWorkloads lq + m);
     admittedWorkloads :=
       if admitted then wrap64 (admittedWorkloads lq + m) else admittedWorkloads lq;
     totalReserved := updateFlavorUsage frUsage (totalReserved lq) m;
     admittedUsage :=
       if admitted then updateFlavorUsage frUsage (admittedUsage lq) m
       else admittedUsage lq |}.

(** [updateWorkloadUsage]: [m] is 1 for a workload that joins and -1 for one
    that leaves. *)
Definition updateWorkloadUsage (c : clusterQueue) (wi : Info) (m : Z) : clusterQueue :=
  let admitted := IsAdmitted (Obj wi) in
  let frUsage := FlavorResourceUsage wi in
  let c := map_fold (fun fr q c =>
              let c := if m =? 1 then addUsage c fr q else c in
              if m =? -1 then removeUsage c fr q else c) c frUsage in
  let c := updateWorkloadTASUsage c wi m in
  let c := if admitted then
             set_admittedWorkloadsCount (wrap64 (admittedWorkloadsCount c + m))
               (set_AdmittedUsage (updateFlavorUsage frUsage (AdmittedUsage c) m) c)
           else c in
  let qKey := QueueKey (Obj wi) in
  match localQueues c !! qKey with
  | Some lq =>
      set_localQueues (<[qKey := updateQueueUsage lq frUsage admitted m]> (localQueues c)) c
  | None => c
  end.

Definition deleteWorkload (c : clusterQueue) (w : Workload) : clusterQueue :=
  let k := Key w in
  match Workloads c !! k with
  | None => c
  | Some wi =>
      let c := updateWorkloadUsage c wi (-1) in
      let c := if podsReadyTracking c && negb (wlPodsReady w)
               then set_WorkloadsNotReady (WorkloadsNotReady c ∖ {[k]}) c else c in
      let c := set_AllocatableResourceGeneration
                 (wrap64 (AllocatableResourceGeneration c + 1)) c in
      set_Workloads (delete k (Workloads c)) c
  end.

Definition addOrUpdateWorkload (c : clusterQueue) (w : Workload) : clusterQueue :=
  let k := Key w in
  let c := match Workloads c !! k with
           | Some _ => deleteWorkload c w
           | None => c
           end in
  let wi := NewInfo w in
  let c := set_Workloads (<[k := wi]> (Workloads c)) c in
  let c := updateWorkloadUsage c wi 1 in
  if podsReadyTracking c && negb (wlPodsReady w)
  then set_WorkloadsNotReady ({[k]} ∪ WorkloadsNotReady c) c else c.

Definition addWorkload (c : clusterQueue) (w : Workload) : clusterQueue * option error :=
  let k := Key w in
  match Workloads c !! k with
  | Some _ => (c, Some (errorsNew "workload already exists in ClusterQueue"))
  | None => (addOrUpdateWorkload c w, None)
  end.

Definition forgetWorkload (c : clusterQueue) (w : Workload) : clusterQueue :=
  let c := deleteWorkload c w in
  set_workloadsNotAccountedForTAS (workloadsNotAccountedForTAS c ∖ {[Key w]}) c.

(** *** Local queues *)

Definition workloadBelongsToLocalQueue (wl : Workload) (q : LocalQueue) : bool :=
  bool_decide (wlNamespace wl = lqNamespace q)
  && bool_decide (wlQueueName wl = lqName q).

Definition resetFlavorsAndResources (q : queue)
    (cqUsage cqAdmittedUsage : FlavorResourceQuantities) : queue :=
  {| key := key q;
     reservingWorkloads := reservingWorkloads q;
     admittedWorkloads := admittedWorkloads q;
     totalReserved := resetUsage (totalReserved q) cqUsage;
     admittedUsage := resetUsage (admittedUsage q) cqAdmittedUsage |}.

(** One round of the loop of [addLocalQueue] over the workloads. *)
Definition countWorkload (q : LocalQueue) (wl : Info) (qImpl : queue) : queue :=
  if workloadBelongsToLocalQueue (Obj wl) q then
    let frq := FlavorResourceUsage wl in
    let admitted := IsAdmitted (Obj wl) in
    {| key := key qImpl;
       reservingWorkloads := wrap64 (reservingWorkloads qImpl + 1);
       admittedWorkloads :=
         if admitted then wrap64 (admittedWorkloads qImpl + 1)
         else admittedWorkloads qImpl;
       totalReserved := updateFlavorUsage frq (totalReserved qImpl) 1;
       admittedUsage :=
         if admitted then updateFlavorUsage frq (admittedUsage qImpl) 1
         else admittedUsage qImpl |}
  else qImpl.

Definition addLocalQueue (c : clusterQueue) (q : LocalQueue) : clusterQueue * option error :=
  let qKey := queueKey q in
  match localQueues c !! qKey with
  | Some _ => (c, Some errQueueAlreadyExists)
  | None =>
      let qImpl := {| key := qKey; reservingWorkloads := 0; admittedWorkloads := 0;
                      totalReserved := ∅; admittedUsage := ∅ |} in
      let qImpl := resetFlavorsAndResources qImpl (Usage (resourceNode c)) (AdmittedUsage c) in
      let qImpl := map_fold (fun _ wl qImpl => countWorkload q wl qImpl) qImpl (Workloads c) in
      (set_localQueues (<[qKey := qImpl]> (localQueues c)) c, None)
  end.

Definition deleteLocalQueue (c : clusterQueue) (q : LocalQueue) : clusterQueue :=
  set_localQueues (delete (queueKey q) (localQueues c)) c.

(** *** Status *)

(** One round of the loop of [updateQueueStatus] over the workloads: a
    workload whose TAS usage was deferred is added again. *)
Definition reAddDeferred (k : string) (w : Info) (c : clusterQueue) : clusterQueue :=
  if bool_decide (k ∈ workloadsNotAccountedForTAS c) then
    let c := addOrUpdateWorkload c (Obj w) in
    set_workloadsNotAccountedForTAS (workloadsNotAccountedForTAS c ∖ {[k]}) c
  else c.

(** [updateQueueStatus].  The loop ranges over the workloads present when it
    starts (an entry it re-creates has left the set of deferred workloads by
    the time the range could reach it again). *)
Definition updateQueueStatus (c : clusterQueue) : clusterQueue :=
  let c :=
    if TopologyAwareScheduling
       && (0 <? size (tasFlavors c))%nat
       && (0 <? size (workloadsNotAccountedForTAS c))%nat
       && isTASSynced c
    then map_fold reAddDeferred c (Workloads c)
    else c in
  let status := active in
  let status :=
    if isStopped c
       || (0 <? length (missingFlavors c))%nat
       || (0 <? length (missingAdmissionChecks c))%nat
       || (0 <? length (inactiveAdmissionChecks c))%nat
       || (0 <? size (multipleSingleInstanceControllersChecks c))%nat
       || (0 <? length (flavorIndependentAdmissionCheckAppliedPerFlavor c))%nat
       || isTASViolated c
       || (1 <? length (multiKueueAdmissionChecks c))%nat
       || (0 <? length (perFlavorMultiKueueAdmissionChecks c))%nat
    then pending else status in
  let status := if bool_decide (Status c = terminating) then terminating else status in
  if bool_decide (status ≠ Status c) then set_Status status c else c.

(** One flavor of a resource group in [updateLabelKeys]: the label keys, the
    TAS flavors and the missing flavors gathered so far. *)
Definition visitFlavor (flavors : gmap string ResourceFlavor)
    (acc : gset string * gmap string string * list string) (fName : string)
  : gset string * gmap string string * list string :=
  let '(keys, tas, missing) := acc in
  match flavors !! fName with
  | Some flv =>
      (keys ∪ dom (NodeLabels flv),
       match TopologyName flv with
       | Some topology => <[fName := topology]> tas
       | None => tas
       end,
       missing)
  | None => (keys, tas, missing ++ [fName])
  end.

Definition visitResourceGroup (flavors : gmap string ResourceFlavor)
    (acc : list ResourceGroup * gmap string string * list string) (rg : ResourceGroup)
  : list ResourceGroup * gmap string string * list string :=
  let '(rgs, tas, missing) := acc in
  if (length (Flavors rg) =? 0)%nat then
    (rgs ++ [ {| CoveredResources := CoveredResources rg; Flavors := Flavors rg;
                 LabelKeys := ∅ |} ], tas, missing)
  else
    let '(keys, tas, missing) := foldl (visitFlavor flavors) (∅, tas, missing) (Flavors rg) in
    (rgs ++ [ if (0 <? size keys)%nat
              then {| CoveredResources := CoveredResources rg; Flavors := Flavors rg;
                      LabelKeys := keys |}
              else rg ], tas, missing).

Definition updateLabelKeys (c : clusterQueue) (flavors : gmap string ResourceFlavor)
  : clusterQueue :=
  let '(rgs, tas, missing) :=
    foldl (visitResourceGroup flavors) ([], ∅, []) (ResourceGroups c) in
  set_ResourceGroups rgs (set_tasFlavors tas (set_missingFlavors missing c)).

Definition UpdateWithFlavors (c : clusterQueue) (flavors : gmap string ResourceFlavor)
  : clusterQueue :=
  updateQueueStatus (updateLabelKeys c flavors).


(** *** Admission checks *)

(** What the loop of [updateWithAdmissionChecks] gathers. *)
Record acScan : Type := {
  checksPerController : gmap string (list string);
  singleInstanceControllers : gset string;
  multiKueueSet : gset string;
  provisioningSet : gset string;
  missing : list string;
  inactive : list string;
  flavorIndependentCheckOnFlavors : list string;
  perFlavorMultiKueueChecks : list string
}.

Definition emptyScan : acScan :=
  {| checksPerController := ∅; singleInstanceControllers := ∅;
     multiKueueSet := ∅; provisioningSet := ∅; missing := []; inactive := [];
     flavorIndependentCheckOnFlavors := []; perFlavorMultiKueueChecks := [] |}.

(** One round of the loop, for the check [acName] applied to [flavors]. *)
Definition visitAdmissionCheck (checks : gmap string AdmissionCheck)
    (acName : string) (flavors : gset string) (s : acScan) : acScan :=
  match checks !! acName with
  | None =>
      {| checksPerController := checksPerController s;
         singleInstanceControllers := singleInstanceControllers s;
         multiKueueSet := multiKueueSet s;
         provisioningSet := provisioningSet s;
         missing := missing s ++ [acName];
         inactive := inactive s;
         flavorIndependentCheckOnFlavors := flavorIndependentCheckOnFlavors s;
         perFlavorMultiKueueChecks := perFlavorMultiKueueChecks s |}
  | Some ac =>
      let isMultiKueue := bool_decide (acController ac = MultiKueueControllerName) in
      {| checksPerController :=
           <[acController ac :=
               default [] (checksPerController s !! acController ac) ++ [acName]]>
             (checksPerController s);
         singleInstanceControllers :=
           if acSingleInstanceInClusterQueue ac
           then {[acController ac]} ∪ singleInstanceControllers s
           else singleInstanceControllers s;
         multiKueueSet :=
           if isMultiKueue then {[acName]} ∪ multiKueueSet s else multiKueueSet s;
         provisioningSet :=
           if bool_decide (acController ac = ProvisioningRequestControllerName)
           then {[acName]} ∪ provisioningSet s else provisioningSet s;
         missing := missing s;
         inactive := if negb (acActive ac) then inactive s ++ [acName] else inactive s;
         flavorIndependentCheckOnFlavors :=
           if acFlavorIndependent ac && negb (size flavors =? 0)%nat
           then flavorIndependentCheckOnFlavors s ++ [acName]
           else flavorIndependentCheckOnFlavors s;
         perFlavorMultiKueueChecks :=
           if isMultiKueue && negb (size flavors =? 0)%nat
           then perFlavorMultiKueueChecks s ++ [acName]
           else perFlavorMultiKueueChecks s |}
  end.

Definition scanAdmissionChecks (c : clusterQueue) (checks : gmap string AdmissionCheck)
  : acScan :=
  map_fold (visitAdmissionCheck checks) emptyScan (AdmissionChecks c).

(** slices.Sort on strings, and sets.List. *)
Definition sortStrings (l : list string) : list string := merge_sort String.le l.
Definition setsList (s : gset string) : list string := sortStrings (elements s).

(** The controllers left by maps.DeleteFunc, their checks sorted. *)
Definition duplicateSingleInstance (s : acScan) : gmap string (list string) :=
  sortStrings <$>
    filter (fun '(controller, acs) =>
              ¬ ((length acs < 2)%nat ∨ controller ∉ singleInstanceControllers s))
           (checksPerController s).

Definition updateWithAdmissionChecks (c : clusterQueue)
    (checks : gmap string AdmissionCheck) : clusterQueue :=
  let s := scanAdmissionChecks c checks in
  let missing := sortStrings (missing s) in
  let inactive := sortStrings (inactive s) in
  let flavorIndependentCheckOnFlavors := sortStrings (flavorIndependentCheckOnFlavors s) in
  let perFlavorMultiKueueChecks := sortStrings (perFlavorMultiKueueChecks s) in
  let multiKueueChecks := setsList (multiKueueSet s) in
  let provisioningChecks := setsList (provisioningSet s) in
  let update := false in
  let '(c, update) :=
    if negb (bool_decide (missingAdmissionChecks c = missing))
    then (set_missingAdmissionChecks missing c, true) else (c, update) in
  let '(c, update) :=
    if negb (bool_decide (inactiveAdmissionChecks c = inactive))
    then (set_inactiveAdmissionChecks inactive c, true) else (c, update) in
  let checksPerController := duplicateSingleInstance s in
  let '(c, update) :=
    if AdmissionCheckValidationRules then
      let '(c, update) :=
        if negb (bool_decide
                   (checksPerController = multipleSingleInstanceControllersChecks c))
        then (set_multipleSingleInstanceControllersChecks checksPerController c, true)
        else (c, update) in
      if negb (bool_decide (flavorIndependentAdmissionCheckAppliedPerFlavor c
                            = flavorIndependentCheckOnFlavors))
      then (set_flavorIndependentAdmissionCheckAppliedPerFlavor
              flavorIndependentCheckOnFlavors c, true)
      else (c, update)
    else (c, update) in
  let '(c, update) :=
    if negb (bool_decide (multiKueueAdmissionChecks c = multiKueueChecks))
    then (set_multiKueueAdmissionChecks multiKueueChecks c, true) else (c, update) in
  let '(c, update) :=
    if negb (bool_decide (provisioningAdmissionChecks c = provisioningChecks))
    then (set_provisioningAdmissionChecks provisioningChecks c, true) else (c, update) in
  let '(c, update) :=
    if negb (bool_decide (perFlavorMultiKueueAdmissionChecks c = perFlavorMultiKueueChecks))
    then (set_perFlavorMultiKueueAdmissionChecks perFlavorMultiKueueChecks c, true)
    else (c, update) in
  if update then updateQueueStatus c else c.

(** *** Updates of the queue *)

Definition updateClusterQueue (c : clusterQueue) (spec : ClusterQueueSpec)
    (resourceFlavors : gmap string ResourceFlavor)
    (admissionChecks : gmap string AdmissionCheck) (edge : CohortEdge)
  : clusterQueue * option error :=
  let '(c, changed) := updateQuotasAndResourceGroups c (specResourceGroups spec) in
  let '(c, err) :=
    if changed || parentChanged edge then
      let c :=
        if hasOldParent edge && parentChanged edge then
          (* the error of the update of the tree of the old parent is ignored *)
          if oldParentTreeHoldsQueue edge then updateClusterQueueResourceNode c else c
        else c in
      if hasParent edge then
        (* the queue is updated as part of the update of the tree *)
        match treeUpdateError edge with
        | Some err => (c, Some err)
        | None => (updateClusterQueueResourceNode c, None)
        end
      else (updateClusterQueueResourceNode c, None)
    else (c, None) in
  match err with
  | Some err => (c, Some err)
  | None =>
      match specNamespaceSelector spec with
      | Some err => (c, Some err)
      | None =>
          let c := set_isStopped
                     (negb (bool_decide
                              (default StopPolicyNone (specStopPolicy spec) = StopPolicyNone)))
                     c in
          let c := set_AdmissionChecks (specAdmissionChecks spec) c in
          let c := UpdateWithFlavors c resourceFlavors in
          let c := updateWithAdmissionChecks c admissionChecks in
          (c, None)
      end
  end.

(** *** Readiness *)

(** Modelled from the spec: the reason codes of the Active condition, which
    the API package declares and the specification lists as emitted
    verbatim. *)
Definition ClusterQueueActiveReasonReady := "Ready".
Definition ClusterQueueActiveReasonTerminating := "Terminating".
Definition ClusterQueueActiveReasonStopped := "Stopped".
Definition ClusterQueueActiveReasonFlavorNotFound := "FlavorNotFound".
Definition ClusterQueueActiveReasonAdmissionCheckNotFound := "AdmissionCheckNotFound".
Definition ClusterQueueActiveReasonAdmissionCheckInactive := "AdmissionCheckInactive".
Definition ClusterQueueActiveReasonMultipleMultiKueueAdmissionChecks :=
  "MultipleMultiKueueAdmissionChecks".
Definition ClusterQueueActiveReasonMultiKueueAdmissionCheckAppliedPerFlavor :=
  "MultiKueueAdmissionCheckAppliedPerFlavor".
Definition ClusterQueueActiveReasonMultipleSingleInstanceControllerAdmissionChecks :=
  "MultipleSingleInstanceControllerAdmissionChecks".
Definition ClusterQueueActiveReasonFlavorIndependentAdmissionCheckAppliedPerFlavor :=
  "FlavorIndependentAdmissionCheckAppliedPerFlavor".
Definition ClusterQueueActiveReasonNotSupportedWithTopologyAwareScheduling :=
  "NotSupportedWithTopologyAwareScheduling".
Definition ClusterQueueActiveReasonTopologyNotFound := "TopologyNotFound".
Definition ClusterQueueActiveReasonUnknown := "Unknown".

(** The verb %v of package fmt on a slice of strings, and strings.Join. *)
Definition stringsJoin (l : list string) (sep : string) : string := String.concat sep l.
Definition fmtV (l : list string) : string := "[" +:+ stringsJoin l " " +:+ "]".

(** The reasons and messages the TAS part of [inactiveReason] appends. *)
Definition tasReasons (c : clusterQueue) : list (string * string) :=
  if TopologyAwareScheduling && (0 <? size (tasFlavors c))%nat then
    (if (0 <? length (multiKueueAdmissionChecks c))%nat
     then [(ClusterQueueActiveReasonNotSupportedWithTopologyAwareScheduling,
            "TAS is not supported with MultiKueue admission check")]
     else [])
    ++ (if (0 <? length (provisioningAdmissionChecks c))%nat
        then [(ClusterQueueActiveReasonNotSupportedWithTopologyAwareScheduling,
               "TAS is not supported with ProvisioningRequest admission check")]
        else [])
    ++ omap (fun '(tasFlavor, topology) =>
               if bool_decide (tasFlavor ∈ tasCache c) then None
               else Some (ClusterQueueActiveReasonTopologyNotFound,
                          "there is no Topology " +:+ fmtQ topology
                          +:+ " for TAS flavor " +:+ fmtQ tasFlavor))
            (rangeTASFlavors (tasFlavors c))
  else [].

Definition inactiveReason (c : clusterQueue) : string * string :=
  match Status c with
  | terminating =>
      (ClusterQueueActiveReasonTerminating,
       "Can't admit new workloads; clusterQueue is terminating")
  | pending =>
      let reasons : list string := [] in
      let messages : list string := [] in
      let '(reasons, messages) :=
        if isStopped c
        then (reasons ++ [ClusterQueueActiveReasonStopped], messages ++ ["is stopped"])
        else (reasons, messages) in
      let '(reasons, messages) :=
        if (0 <? length (missingFlavors c))%nat
        then (reasons ++ [ClusterQueueActiveReasonFlavorNotFound],
              messages ++ ["references missing ResourceFlavor(s): "
                           +:+ fmtV (missingFlavors c)])
        else (reasons, messages) in
      let '(reasons, messages) :=
        if (0 <? length (missingAdmissionChecks c))%nat
        then (reasons ++ [ClusterQueueActiveReasonAdmissionCheckNotFound],
              messages ++ ["references missing AdmissionCheck(s): "
                           +:+ fmtV (missingAdmissionChecks c)])
        else (reasons, messages) in
      let '(reasons, messages) :=
        if (0 <? length (inactiveAdmissionChecks c))%nat
        then (reasons ++ [ClusterQueueActiveReasonAdmissionCheckInactive],
              messages ++ ["references inactive AdmissionCheck(s): "
                           +:+ fmtV (inactiveAdmissionChecks c)])
        else (reasons, messages) in
      let '(reasons, messages) :=
        if (1 <? length (multiKueueAdmissionChecks c))%nat
        then (reasons ++ [ClusterQueueActiveReasonMultipleMultiKueueAdmissionChecks],
              messages ++ ["Cannot use multiple MultiKueue AdmissionChecks on the same ClusterQueue, found: "
                           +:+ stringsJoin (multiKueueAdmissionChecks c) ","])
        else (reasons, messages) in
      let '(reasons, messages) :=
        if (0 <? length (perFlavorMultiKueueAdmissionChecks c))%nat
        then (reasons ++ [ClusterQueueActiveReasonMultiKueueAdmissionCheckAppliedPerFlavor],
              messages ++ ["Cannot specify MultiKueue AdmissionCheck per flavor, found: "
                           +:+ stringsJoin (perFlavorMultiKueueAdmissionChecks c) ","])
        else (reasons, messages) in
      let '(reasons, messages) :=
        if (0 <? size (multipleSingleInstanceControllersChecks c))%nat
        then (reasons ++ [ClusterQueueActiveReasonMultipleSingleInstanceControllerAdmissionChecks],
              messages ++
                map (fun controller =>
                       "only one AdmissionCheck of "
                       +:+ fmtV (default []
                                   (multipleSingleInstanceControllersChecks c !! controller))
                       +:+ " can be referenced for controller " +:+ fmtQ controller)
                    (sortStrings (map fst (map_to_list
                                             (multipleSingleInstanceControllersChecks c)))))
        else (reasons, messages) in
      let '(reasons, messages) :=
        if (0 <? length (flavorIndependentAdmissionCheckAppliedPerFlavor c))%nat
        then (reasons ++ [ClusterQueueActiveReasonFlavorIndependentAdmissionCheckAppliedPerFlavor],
              messages ++ ["AdmissionCheck(s): "
                           +:+ fmtV (flavorIndependentAdmissionCheckAppliedPerFlavor c)
                           +:+ " cannot be set at flavor level"])
        else (reasons, messages) in
      let '(reasons, messages) :=
        (reasons ++ map fst (tasReasons c), messages ++ map snd (tasReasons c)) in
      match reasons with
      | [] => (ClusterQueueActiveReasonUnknown, "Can't admit new workloads.")
      | reason :: _ =>
          (reason,
           TruncateConditionMessage
             (stringsJoin ["Can't admit new workloads: "; stringsJoin messages ", "; "."] ""))
      end
  | _ => (ClusterQueueActiveReasonReady, "Can admit new workloads")
  end.


(** ** Notions used to state the properties *)

(** The sum, over the workloads of [ws] that satisfy [P], of the quantity
    each uses of [fr]. *)
Definition usageSum (P : Info → bool) (ws : gmap string Info) (fr : FlavorResource) : Z :=
  map_fold (fun _ wi acc =>
              if P wi then quantity (FlavorResourceUsage wi) fr + acc else acc) 0 ws.

(** The number of workloads of [ws] that satisfy [P]. *)
Definition workloadCount (P : Info → bool) (ws : gmap string Info) : nat :=
  size (filter (fun kv => P kv.2 = true) ws).

Definition anyWorkload (wi : Info) : bool := true.
Definition admittedWorkload (wi : Info) : bool := IsAdmitted (Obj wi).
Definition inLocalQueue (q : LocalQueue) (wi : Info) : bool :=
  workloadBelongsToLocalQueue (Obj wi) q.
Definition admittedInLocalQueue (q : LocalQueue) (wi : Info) : bool :=
  inLocalQueue q wi && admittedWorkload wi.

(** Usage and admitted usage agree with the workloads held. *)
Definition usageMatchesWorkloads (c : clusterQueue) : Prop :=
  ∀ fr,
    quantity (Usage (resourceNode c)) fr
      = wrap64 (usageSum anyWorkload (Workloads c) fr)
    ∧ quantity (AdmittedUsage c) fr
      = wrap64 (usageSum admittedWorkload (Workloads c) fr).

(** The operations on the workloads of a queue. *)
Inductive WorkloadOp : Type :=
  | OpAddWorkload (w : Workload)
  | OpAddOrUpdateWorkload (w : Workload)
  | OpDeleteWorkload (w : Workload).

Definition applyWorkloadOp (c : clusterQueue) (op : WorkloadOp) : clusterQueue :=
  match op with
  | OpAddWorkload w => fst (addWorkload c w)
  | OpAddOrUpdateWorkload w => addOrUpdateWorkload c w
  | OpDeleteWorkload w => deleteWorkload c w
  end.

(** The usage maps of a queue hold values of type int64. *)
Definition int64_queue (lq : queue) : Prop :=
  int64_map (totalReserved lq) ∧ int64_map (admittedUsage lq).

Definition int64_usage (c : clusterQueue) : Prop :=
  int64_map (Usage (resourceNode c))
  ∧ int64_map (AdmittedUsage c)
  ∧ ∀ k lq, localQueues c !! k = Some lq → int64_queue lq.

(** Two usage maps hold the same quantity for every flavor and resource. *)
Definition sameQuantities (m1 m2 : FlavorResourceQuantities) : Prop :=
  ∀ fr, quantity m1 fr = quantity m2 fr.

(** The same local queues, each with the same reserved and admitted
    quantities. *)
Definition sameLocalQueueUsage (qs1 qs2 : gmap string queue) : Prop :=
  ∀ k,
    match qs1 !! k, qs2 !! k with
    | Some lq1, Some lq2 =>
        sameQuantities (totalReserved lq1) (totalReserved lq2)
        ∧ sameQuantities (admittedUsage lq1) (admittedUsage lq2)
    | None, None => True
    | _, _ => False
    end.

(** The usage that the workload stored under [k], if any, contributes. *)
Definition storedQuantity (P : Info → bool) (ws : gmap string Info) (k : string)
    (fr : FlavorResource) : Z :=
  match ws !! k with
  | Some wi => if P wi then quantity (FlavorResourceUsage wi) fr else 0
  | None => 0
  end.

(** The workload is held by the queue under a key that is not its own. *)
Definition presentUnderDifferentKey (c : clusterQueue) (w : Workload) : Prop :=
  ∃ k, k ≠ Key w ∧ Workloads c !! k = Some (NewInfo w).

(** The reading of the behaviour of [addWorkload] that has it fail for a
    workload held under a different key and store the workload otherwise. *)
Definition addWorkload_fails_on_different_key (c : clusterQueue) (w : Workload) : Prop :=
  (presentUnderDifferentKey c w → ∃ err, snd (addWorkload c w) = Some err)
  ∧ (¬ presentUnderDifferentKey c w →
     snd (addWorkload c w) = None
     ∧ Workloads (fst (addWorkload c w)) !! Key w = Some (NewInfo w)).

(** The reading of [deleteWorkload] that has it act on every workload,
    whether the queue holds it or not. *)
Definition deleteWorkload_acts_on_every_workload (c : clusterQueue) (w : Workload) : Prop :=
  let c' := deleteWorkload c w in
  (∀ fr, quantity (Usage (resourceNode c')) fr
         = wrap64 (quantity (Usage (resourceNode c)) fr
                   - quantity (wlFlavorResourceUsage w) fr))
  ∧ AllocatableResourceGeneration c' = wrap64 (AllocatableResourceGeneration c + 1)
  ∧ Workloads c' !! Key w = None.

(** What the status of a queue is computed from, and that with the status. *)
Definition causeView (c : clusterQueue) :=
  (isStopped c, missingFlavors c, missingAdmissionChecks c,
   inactiveAdmissionChecks c, multipleSingleInstanceControllersChecks c,
   flavorIndependentAdmissionCheckAppliedPerFlavor c, multiKueueAdmissionChecks c,
   provisioningAdmissionChecks c, perFlavorMultiKueueAdmissionChecks c,
   tasFlavors c, tasCache c, AdmissionChecks c, ResourceGroups c).

Definition statusView (c : clusterQueue) := (Status c, causeView c).

(** The causes of inactivity that a queue has on record. *)
Definition stopped (c : clusterQueue) : Prop := isStopped c = true.
Definition recordsMissingFlavor (c : clusterQueue) : Prop := missingFlavors c ≠ [].
Definition recordsMissingCheck (c : clusterQueue) : Prop :=
  missingAdmissionChecks c ≠ [].
Definition recordsInactiveCheck (c : clusterQueue) : Prop :=
  inactiveAdmissionChecks c ≠ [].
Definition recordsSeveralMultiKueue (c : clusterQueue) : Prop :=
  (1 < length (multiKueueAdmissionChecks c))%nat.
Definition recordsMultiKueuePerFlavor (c : clusterQueue) : Prop :=
  perFlavorMultiKueueAdmissionChecks c ≠ [].
Definition recordsSeveralOfSingleInstance (c : clusterQueue) : Prop :=
  multipleSingleInstanceControllersChecks c ≠ ∅.
Definition recordsFlavorIndependentPerFlavor (c : clusterQueue) : Prop :=
  flavorIndependentAdmissionCheckAppliedPerFlavor c ≠ [].
Definition tasUnsupportedCheck (c : clusterQueue) : Prop :=
  TopologyAwareScheduling = true ∧ tasFlavors c ≠ ∅
  ∧ (multiKueueAdmissionChecks c ≠ [] ∨ provisioningAdmissionChecks c ≠ []).
Definition tasUnsyncedTopology (c : clusterQueue) : Prop :=
  TopologyAwareScheduling = true
  ∧ ∃ tasFlavor topology,
      tasFlavors c !! tasFlavor = Some topology ∧ tasFlavor ∉ tasCache c.

Definition recordedCause (c : clusterQueue) : Prop :=
  stopped c ∨ recordsMissingFlavor c ∨ recordsMissingCheck c ∨ recordsInactiveCheck c
  ∨ recordsSeveralMultiKueue c ∨ recordsMultiKueuePerFlavor c
  ∨ recordsSeveralOfSingleInstance c ∨ recordsFlavorIndependentPerFlavor c
  ∨ tasUnsupportedCheck c ∨ tasUnsyncedTopology c.

(** The status of [c] is active exactly when it has no cause on record and
    the queue [c0] it comes from was not terminating. *)
Definition statusAgrees (c0 c : clusterQueue) : Prop :=
  Status c = active ↔ ¬ (recordedCause c ∨ Status c0 = terminating).

(** [statusAgrees], with the fact that a queue is terminating exactly when
    the queue it comes from was. *)
Definition statusInvariant (c0 c : clusterQueue) : Prop :=
  statusAgrees c0 c ∧ (Status c = terminating ↔ Status c0 = terminating).

(** The operations that recompute the status. *)
Inductive StatusOp : Type :=
  | CallUpdateClusterQueue (spec : ClusterQueueSpec)
      (resourceFlavors : gmap string ResourceFlavor)
      (admissionChecks : gmap string AdmissionCheck) (edge : CohortEdge)
  | CallUpdateWithFlavors (flavors : gmap string ResourceFlavor)
  | CallUpdateWithAdmissionChecks (checks : gmap string AdmissionCheck).

Definition applyStatusOp (c : clusterQueue) (op : StatusOp) : clusterQueue :=
  match op with
  | CallUpdateClusterQueue spec resourceFlavors admissionChecks edge =>
      fst (updateClusterQueue c spec resourceFlavors admissionChecks edge)
  | CallUpdateWithFlavors flavors => UpdateWithFlavors c flavors
  | CallUpdateWithAdmissionChecks checks => updateWithAdmissionChecks c checks
  end.

(** The queue references the admission check [acName], which is [ac]. *)
Definition referencesCheck (c : clusterQueue) (checks : gmap string AdmissionCheck)
    (acName : string) (ac : AdmissionCheck) : Prop :=
  is_Some (AdmissionChecks c !! acName) ∧ checks !! acName = Some ac.






(** What a scan of the admission checks [acs] of a queue has gathered. *)
Definition scanRecords (checks : gmap string AdmissionCheck)
    (acs : gmap string (gset string)) (s : acScan) : Prop :=
  (∀ acName, acName ∈ missing s ↔ is_Some (acs !! acName) ∧ checks !! acName = None)
  ∧ (∀ acName, acName ∈ inactive s ↔
       ∃ ac, is_Some (acs !! acName) ∧ checks !! acName = Some ac ∧ acActive ac = false)
  ∧ (∀ acName, acName ∈ multiKueueSet s ↔
       ∃ ac, is_Some (acs !! acName) ∧ checks !! acName = Some ac
             ∧ acController ac = MultiKueueControllerName)
  ∧ (∀ acName, acName ∈ provisioningSet s ↔
       ∃ ac, is_Some (acs !! acName) ∧ checks !! acName = Some ac
             ∧ acController ac = ProvisioningRequestControllerName)
  ∧ (∀ acName, acName ∈ perFlavorMultiKueueChecks s ↔
       ∃ flavors ac, acs !! acName = Some flavors ∧ flavors ≠ ∅
                     ∧ checks !! acName = Some ac
                     ∧ acController ac = MultiKueueControllerName)
  ∧ (∀ acName, acName ∈ flavorIndependentCheckOnFlavors s ↔
       ∃ flavors ac, acs !! acName = Some flavors ∧ flavors ≠ ∅
                     ∧ checks !! acName = Some ac ∧ acFlavorIndependent ac = true)
  ∧ (∀ controller acName,
       acName ∈ default [] (checksPerController s !! controller) ↔
       ∃ ac, is_Some (acs !! acName) ∧ checks !! acName = Some ac
             ∧ acController ac = controller)
  ∧ (∀ controller, NoDup (default [] (checksPerController s !! controller)))
  ∧ (∀ controller, controller ∈ singleInstanceControllers s ↔
       ∃ acName ac, is_Some (acs !! acName) ∧ checks !! acName = Some ac
                    ∧ acController ac = controller
                    ∧ acSingleInstanceInClusterQueue ac = true).




(** The causes of inactivity, in the order in which the readiness message
    lists them. *)
Inductive Cause : Type :=
  | CauseStopped
  | CauseMissingFlavors
  | CauseMissingAdmissionChecks
  | CauseInactiveAdmissionChecks
  | CauseMultipleMultiKueue
  | CausePerFlavorMultiKueue
  | CauseMultipleSingleInstance
  | CauseFlavorIndependentPerFlavor
  | CauseTAS.

Definition causeOrder : list Cause :=
  [CauseStopped; CauseMissingFlavors; CauseMissingAdmissionChecks;
   CauseInactiveAdmissionChecks; CauseMultipleMultiKueue; CausePerFlavorMultiKueue;
   CauseMultipleSingleInstance; CauseFlavorIndependentPerFlavor; CauseTAS].

(** The cause is on record in the queue. *)
Definition applicable (c : clusterQueue) (cause : Cause) : bool :=
  match cause with
  | CauseStopped => isStopped c
  | CauseMissingFlavors => (0 <? length (missingFlavors c))%nat
  | CauseMissingAdmissionChecks => (0 <? length (missingAdmissionChecks c))%nat
  | CauseInactiveAdmissionChecks => (0 <? length (inactiveAdmissionChecks c))%nat
  | CauseMultipleMultiKueue => (1 <? length (multiKueueAdmissionChecks c))%nat
  | CausePerFlavorMultiKueue => (0 <? length (perFlavorMultiKueueAdmissionChecks c))%nat
  | CauseMultipleSingleInstance =>
      (0 <? size (multipleSingleInstanceControllersChecks c))%nat
  | CauseFlavorIndependentPerFlavor =>
      (0 <? length (flavorIndependentAdmissionCheckAppliedPerFlavor c))%nat
  | CauseTAS =>
      TopologyAwareScheduling && (0 <? size (tasFlavors c))%nat
      && ((0 <? length (multiKueueAdmissionChecks c))%nat
          || (0 <? length (provisioningAdmissionChecks c))%nat
          || negb (isTASSynced c))
  end.

(** The reason code that stands for a cause. *)
Definition causeReason (c : clusterQueue) (cause : Cause) : string :=
  match cause with
  | CauseStopped => ClusterQueueActiveReasonStopped
  | CauseMissingFlavors => ClusterQueueActiveReasonFlavorNotFound
  | CauseMissingAdmissionChecks => ClusterQueueActiveReasonAdmissionCheckNotFound
  | CauseInactiveAdmissionChecks => ClusterQueueActiveReasonAdmissionCheckInactive
  | CauseMultipleMultiKueue => ClusterQueueActiveReasonMultipleMultiKueueAdmissionChecks
  | CausePerFlavorMultiKueue =>
      ClusterQueueActiveReasonMultiKueueAdmissionCheckAppliedPerFlavor
  | CauseMultipleSingleInstance =>
      ClusterQueueActiveReasonMultipleSingleInstanceControllerAdmissionChecks
  | CauseFlavorIndependentPerFlavor =>
      ClusterQueueActiveReasonFlavorIndependentAdmissionCheckAppliedPerFlavor
  | CauseTAS =>
      if (0 <? length (multiKueueAdmissionChecks c))%nat
         || (0 <? length (provisioningAdmissionChecks c))%nat
      then ClusterQueueActiveReasonNotSupportedWithTopologyAwareScheduling
      else ClusterQueueActiveReasonTopologyNotFound
  end.

(** What a cause contributes to the message. *)
Definition causeMessages (c : clusterQueue) (cause : Cause) : list string :=
  match cause with
  | CauseStopped => ["is stopped"]
  | CauseMissingFlavors =>
      ["references missing ResourceFlavor(s): " +:+ fmtV (missingFlavors c)]
  | CauseMissingAdmissionChecks =>
      ["references missing AdmissionCheck(s): " +:+ fmtV (missingAdmissionChecks c)]
  | CauseInactiveAdmissionChecks =>
      ["references inactive AdmissionCheck(s): " +:+ fmtV (inactiveAdmissionChecks c)]
  | CauseMultipleMultiKueue =>
      ["Cannot use multiple MultiKueue AdmissionChecks on the same ClusterQueue, found: "
       +:+ stringsJoin (multiKueueAdmissionChecks c) ","]
  | CausePerFlavorMultiKueue =>
      ["Cannot specify MultiKueue AdmissionCheck per flavor, found: "
       +:+ stringsJoin (perFlavorMultiKueueAdmissionChecks c) ","]
  | CauseMultipleSingleInstance =>
      map (fun controller =>
             "only one AdmissionCheck of "
             +:+ fmtV (default [] (multipleSingleInstanceControllersChecks c !! controller))
             +:+ " can be referenced for controller " +:+ fmtQ controller)
          (sortStrings (map fst (map_to_list (multipleSingleInstanceControllersChecks c))))
  | CauseFlavorIndependentPerFlavor =>
      ["AdmissionCheck(s): "
       +:+ fmtV (flavorIndependentAdmissionCheckAppliedPerFlavor c)
       +:+ " cannot be set at flavor level"]
  | CauseTAS =>
      (if (0 <? length (multiKueueAdmissionChecks c))%nat
       then ["TAS is not supported with MultiKueue admission check"] else [])
      ++ (if (0 <? length (provisioningAdmissionChecks c))%nat
          then ["TAS is not supported with ProvisioningRequest admission check"] else [])
      ++ map (fun '(tasFlavor, topology) =>
                "there is no Topology " +:+ fmtQ topology
                +:+ " for TAS flavor " +:+ fmtQ tasFlavor)
             (List.filter (fun '(tasFlavor, _) => negb (bool_decide (tasFlavor ∈ tasCache c)))
                          (rangeTASFlavors (tasFlavors c)))
  end.

(** The reason and the message expected of a pending queue: the reason of the
    first cause on record and the messages of all of them, in order. *)
Definition pendingReason (c : clusterQueue) : string * string :=
  match List.filter (applicable c) causeOrder with
  | [] => (ClusterQueueActiveReasonUnknown, "Can't admit new workloads.")
  | cause :: causes =>
      (causeReason c cause,
       TruncateConditionMessage
         (stringsJoin
            ["Can't admit new workloads: ";
             stringsJoin (concat (map (causeMessages c) (cause :: causes))) ", ";
             "."] ""))
  end.

(** The reason codes of the Active condition. *)
Definition reasonCodes : list string :=
  [ClusterQueueActiveReasonReady; ClusterQueueActiveReasonTerminating;
   ClusterQueueActiveReasonStopped; ClusterQueueActiveReasonFlavorNotFound;
   ClusterQueueActiveReasonAdmissionCheckNotFound;
   ClusterQueueActiveReasonAdmissionCheckInactive;
   ClusterQueueActiveReasonMultipleMultiKueueAdmissionChecks;
   ClusterQueueActiveReasonMultiKueueAdmissionCheckAppliedPerFlavor;
   ClusterQueueActiveReasonMultipleSingleInstanceControllerAdmissionChecks;
   ClusterQueueActiveReasonFlavorIndependentAdmissionCheckAppliedPerFlavor;
   ClusterQueueActiveReasonNotSupportedWithTopologyAwareScheduling;
   ClusterQueueActiveReasonTopologyNotFound; ClusterQueueActiveReasonUnknown].

(** Every operation on a queue. *)
Inductive QueueOp : Type :=
  | DoUpdateClusterQueue (spec : ClusterQueueSpec)
      (resourceFlavors : gmap string ResourceFlavor)
      (admissionChecks : gmap string AdmissionCheck) (edge : CohortEdge)
  | DoUpdateQuotasAndResourceGroups (kueueRgs : list KResourceGroup)
  | DoUpdateQueueStatus
  | DoUpdateWithFlavors (flavors : gmap string ResourceFlavor)
  | DoUpdateLabelKeys (flavors : gmap string ResourceFlavor)
  | DoUpdateWithAdmissionChecks (checks : gmap string AdmissionCheck)
  | DoAddWorkload (w : Workload)
  | DoAddOrUpdateWorkload (w : Workload)
  | DoForgetWorkload (w : Workload)
  | DoDeleteWorkload (w : Workload)
  | DoAddLocalQueue (q : LocalQueue)
  | DoDeleteLocalQueue (q : LocalQueue).

Definition applyQueueOp (c : clusterQueue) (op : QueueOp) : clusterQueue :=
  match op with
  | DoUpdateClusterQueue spec resourceFlavors admissionChecks edge =>
      fst (updateClusterQueue c spec resourceFlavors admissionChecks edge)
  | DoUpdateQuotasAndResourceGroups kueueRgs =>
      fst (updateQuotasAndResourceGroups c kueueRgs)
  | DoUpdateQueueStatus => updateQueueStatus c
  | DoUpdateWithFlavors flavors => UpdateWithFlavors c flavors
  | DoUpdateLabelKeys flavors => updateLabelKeys c flavors
  | DoUpdateWithAdmissionChecks checks => updateWithAdmissionChecks c checks
  | DoAddWorkload w => fst (addWorkload c w)
  | DoAddOrUpdateWorkload w => addOrUpdateWorkload c w
  | DoForgetWorkload w => forgetWorkload c w
  | DoDeleteWorkload w => deleteWorkload c w
  | DoAddLocalQueue q => fst (addLocalQueue c q)
  | DoDeleteLocalQueue q => deleteLocalQueue c q
  end.

(** From [c] to [c'] the generation advanced by at least [lo] and at most
    [hi], and the number of workloads grew by at most [hi]. *)
Definition advances (lo hi : nat) (c c' : clusterQueue) : Prop :=
  (is_int64 (AllocatableResourceGeneration c) →
   ∃ d, Z.of_nat lo ≤ d ≤ Z.of_nat hi
        ∧ AllocatableResourceGeneration c'
          = wrap64 (AllocatableResourceGeneration c + d))
  ∧ (size (Workloads c') ≤ size (Workloads c) + hi)%nat.

(** The workload is queued at the local queue: its namespace is the namespace
    of the local queue and its queue name is the name of the local queue. *)
Definition namesLocalQueue (q : LocalQueue) (wi : Info) : bool :=
  bool_decide (wlNamespace (Obj wi) = lqNamespace q
               ∧ wlQueueName (Obj wi) = lqName q).

(** The workload is queued at the local queue and admitted. *)
Definition admittedNamingLocalQueue (q : LocalQueue) (wi : Info) : bool :=
  bool_decide (wlNamespace (Obj wi) = lqNamespace q
               ∧ wlQueueName (Obj wi) = lqName q
               ∧ IsAdmitted (Obj wi) = true).

(** The spec brings quotas or resource groups other than those that the
    queue has. *)
Definition quotaChange (c : clusterQueue) (spec : ClusterQueueSpec) : Prop :=
  createResourceQuotas (specResourceGroups spec) ≠ Quotas (resourceNode c)
  ∨ createdResourceGroups (specResourceGroups spec) ≠ ResourceGroups c.

(** The queue has a parent, and the update of the tree of the parent
    fails. *)
Definition treeUpdateFails (edge : CohortEdge) : bool :=
  hasParent edge && bool_decide (is_Some (treeUpdateError edge)).

(** *** Example data *)

Definition exampleQueue : clusterQueue :=
  {| ResourceGroups := []; Workloads := ∅; WorkloadsNotReady := ∅;
     AdmissionChecks := ∅; Status := active; AllocatableResourceGeneration := 1;
     AdmittedUsage := ∅; localQueues := ∅; podsReadyTracking := true;
     missingFlavors := []; missingAdmissionChecks := [];
     inactiveAdmissionChecks := []; multipleSingleInstanceControllersChecks := ∅;
     flavorIndependentAdmissionCheckAppliedPerFlavor := [];
     multiKueueAdmissionChecks := []; provisioningAdmissionChecks := [];
     perFlavorMultiKueueAdmissionChecks := []; tasFlavors := ∅;
     admittedWorkloadsCount := 0; isStopped := false;
     resourceNode := {| Quotas := ∅; Usage := ∅ |};
     tasCache := ∅; workloadsNotAccountedForTAS := ∅ |}.

Definition exampleWorkload (name : string) (admitted : bool) (cpu : Z) : Workload :=
  {| wlNamespace := "ns"; wlName := name; wlQueueName := "lq";
     wlAdmitted := admitted; wlPodsReady := false; wlUsingTAS := false;
     wlFlavorResourceUsage := {[ ("default", "cpu") := cpu ]} |}.

Definition exampleLocalQueue : LocalQueue := {| lqNamespace := "ns"; lqName := "lq" |}.

(** Three admission checks, the last two of one controller that the third
    wants single in a queue, and a queue spec that references the three. *)
Definition exampleChecks : gmap string AdmissionCheck :=
  {[ "check1" := {| acActive := true; acController := "controller1";
                    acSingleInstanceInClusterQueue := true;
                    acFlavorIndependent := false |};
     "check2" := {| acActive := true; acController := "controller2";
                    acSingleInstanceInClusterQueue := false;
                    acFlavorIndependent := false |};
     "check3" := {| acActive := true; acController := "controller2";
                    acSingleInstanceInClusterQueue := true;
                    acFlavorIndependent := false |} ]}.

Definition exampleSpec : ClusterQueueSpec :=
  {| specResourceGroups := []; specNamespaceSelector := None;
     specStopPolicy := None;
     specAdmissionChecks := {[ "check1" := ∅; "check2" := ∅; "check3" := ∅ ]} |}.

Definition exampleEdge : CohortEdge :=
  {| hasParent := false; parentChanged := false; treeUpdateError := None;
     hasOldParent := false; oldParentTreeHoldsQueue := false |}.

(** ** Further functions of the queue *)

(** [flavorInUse]: some resource group of the queue names the flavor. *)
Definition flavorInUse (c : clusterQueue) (flavor : string) : bool :=
  existsb (fun rg => existsb (fun fName => bool_decide (flavor = fName)) (Flavors rg))
          (ResourceGroups c).

(** [isTASOnly]: every flavor named by a resource group is a TAS flavor. *)
Definition isTASOnly (c : clusterQueue) : bool :=
  forallb (fun rg =>
             forallb (fun fName => bool_decide (is_Some (tasFlavors c !! fName)))
                     (Flavors rg))
          (ResourceGroups c).

(** A resource group of the queue names the flavor. *)
Definition referencesFlavor (c : clusterQueue) (fName : string) : Prop :=
  ∃ rg, rg ∈ ResourceGroups c ∧ fName ∈ Flavors rg.

(** The flavor [fName] is held by [flavors] with the topology [topology]. *)
Definition flavorTopology (flavors : gmap string ResourceFlavor)
    (fName topology : string) : Prop :=
  ∃ flv, flavors !! fName = Some flv ∧ TopologyName flv = Some topology.

(** [key] is a node label key of a flavor that [rg] names and [flavors]
    holds. *)
Definition nodeLabelKey (flavors : gmap string ResourceFlavor) (rg : ResourceGroup)
    (key : string) : Prop :=
  ∃ fName flv, fName ∈ Flavors rg ∧ flavors !! fName = Some flv
               ∧ key ∈ dom (NodeLabels flv).

(** What [updateLabelKeys] makes of a resource group. *)
Definition relabelled (flavors : gmap string ResourceFlavor) (rg rg' : ResourceGroup)
  : Prop :=
  CoveredResources rg' = CoveredResources rg
  ∧ Flavors rg' = Flavors rg
  ∧ (Flavors rg = [] → LabelKeys rg' = ∅)
  ∧ (Flavors rg ≠ [] → (∃ key, nodeLabelKey flavors rg key) →
     ∀ key, key ∈ LabelKeys rg' ↔ nodeLabelKey flavors rg key)
  ∧ (Flavors rg ≠ [] → ¬ (∃ key, nodeLabelKey flavors rg key) →
     LabelKeys rg' = LabelKeys rg).

(** ** Further notions used to state the properties *)

(** Every workload that the queue holds is stored under its own key. *)
Definition keyedByOwnKey (c : clusterQueue) : Prop :=
  ∀ k wi, Workloads c !! k = Some wi → Key (Obj wi) = k.

(** The count of admitted workloads agrees with the workloads held. *)
Definition admittedCountMatches (c : clusterQueue) : Prop :=
  admittedWorkloadsCount c
  = wrap64 (Z.of_nat (workloadCount admittedWorkload (Workloads c))).

(** The workload is queued at the local queue of key [k]. *)
Definition queuedAt (k : string) (wi : Info) : bool :=
  bool_decide (QueueKey (Obj wi) = k).
Definition admittedQueuedAt (k : string) (wi : Info) : bool :=
  queuedAt k wi && admittedWorkload wi.

(** The counters of the local queue registered under [k] agree with the
    workloads [ws]. *)
Definition localQueueMatches (ws : gmap string Info) (k : string) (lq : queue) : Prop :=
  reservingWorkloads lq = wrap64 (Z.of_nat (workloadCount (queuedAt k) ws))
  ∧ admittedWorkloads lq = wrap64 (Z.of_nat (workloadCount (admittedQueuedAt k) ws))
  ∧ ∀ fr,
      quantity (totalReserved lq) fr = wrap64 (usageSum (queuedAt k) ws fr)
      ∧ quantity (admittedUsage lq) fr = wrap64 (usageSum (admittedQueuedAt k) ws fr).

Definition localQueuesMatchWorkloads (c : clusterQueue) : Prop :=
  ∀ k lq, localQueues c !! k = Some lq → localQueueMatches (Workloads c) k lq.

(** What [updateWorkloadTASUsage] leaves in the set of workloads whose TAS
    usage is still to be accounted, for the workload of key [k]. *)
Definition deferredAfter (TopologyAwareScheduling : bool) (c : clusterQueue)
    (usingTAS : bool) (k : string) : gset string :=
  if negb TopologyAwareScheduling || negb usingTAS then workloadsNotAccountedForTAS c
  else if bool_decide (map_Forall (fun tasFlavor _ => tasFlavor ∈ tasCache c) (tasFlavors c))
       then workloadsNotAccountedForTAS c ∖ {[k]}
       else {[k]} ∪ workloadsNotAccountedForTAS c.

(** What the accounting of workloads is kept in. *)
Definition accountView (c : clusterQueue) :=
  (Workloads c, admittedWorkloadsCount c, Usage (resourceNode c), AdmittedUsage c,
   localQueues c).

(** The workloads [ws'] are [ws] with the workload [wi] added ([m] = 1) or
    taken out ([m] = -1), as counts and sums of usage see it. *)
Definition workloadsChange (ws ws' : gmap string Info) (wi : Info) (m : Z) : Prop :=
  (∀ P, Z.of_nat (workloadCount P ws')
        = Z.of_nat (workloadCount P ws) + (if P wi then m else 0))
  ∧ (∀ P fr, usageSum P ws' fr
             = usageSum P ws fr
               + (if P wi then quantity (FlavorResourceUsage wi) fr * m else 0)).

(** The string holds no slash (a namespace of Kubernetes never does). *)
Fixpoint noSlash (s : string) : bool :=
  match s with
  | EmptyString => true
  | String a s' => negb (Ascii.eqb a "/"%char) && noSlash s'
  end.

(** The namespaces of the workloads that the queue holds are without
    slash. *)
Definition namespacesWithoutSlash (c : clusterQueue) : Prop :=
  ∀ k wi, Workloads c !! k = Some wi → noSlash (wlNamespace (Obj wi)) = true.

(** The operation brings no namespace with a slash. *)
Definition wellNamedOp (op : QueueOp) : Prop :=
  match op with
  | DoAddWorkload w | DoAddOrUpdateWorkload w => noSlash (wlNamespace w) = true
  | DoAddLocalQueue q => noSlash (lqNamespace q) = true
  | _ => True
  end.

(** The list holds, in order and once each, the strings that satisfy [P]. *)
Definition sortedSetOf (l : list string) (P : string → Prop) : Prop :=
  Sorted String.le l ∧ NoDup l ∧ ∀ x, x ∈ l ↔ P x.

(** A queue with a topology-aware flavor whose cache is there, and one
    admitted workload whose usage was deferred. *)
Definition exampleTASQueue : clusterQueue :=
  {| ResourceGroups := [];
     Workloads := {[ "ns/w1" := NewInfo (exampleWorkload "w1" true 2) ]};
     WorkloadsNotReady := ∅;
     AdmissionChecks := ∅; Status := active; AllocatableResourceGeneration := 1;
     AdmittedUsage := {[ ("default", "cpu") := 2 ]}; localQueues := ∅;
     podsReadyTracking := false;
     missingFlavors := []; missingAdmissionChecks := [];
     inactiveAdmissionChecks := []; multipleSingleInstanceControllersChecks := ∅;
     flavorIndependentAdmissionCheckAppliedPerFlavor := [];
     multiKueueAdmissionChecks := []; provisioningAdmissionChecks := [];
     perFlavorMultiKueueAdmissionChecks := [];
     tasFlavors := {[ "tas-flavor" := "topology" ]};
     admittedWorkloadsCount := 1; isStopped := false;
     resourceNode := {| Quotas := ∅; Usage := {[ ("default", "cpu") := 2 ]} |};
     tasCache := {[ "tas-flavor" ]};
     workloadsNotAccountedForTAS := {[ "ns/w1" ]} |}.
(** ** Facts on 64-bit arithmetic and on quantities *)

Lemma wrap64_range z : is_int64 (wrap64 z).
Proof.
  unfold is_int64, wrap64, min_int64, max_int64.
  pose proof (Z.mod_pos_bound (z + 2 ^ 63) (2 ^ 64)). lia.
Qed.

Lemma wrap64_id z : is_int64 z → wrap64 z = z.
Proof.
  unfold is_int64, wrap64, min_int64, max_int64. intros Hz.
  rewrite Z.mod_small; lia.
Qed.

Lemma wrap64_add_l a b : wrap64 (wrap64 a + b) = wrap64 (a + b).
Proof.
  unfold wrap64. f_equal.
  replace ((a + 2 ^ 63) `mod` 2 ^ 64 - 2 ^ 63 + b + 2 ^ 63)
    with ((a + 2 ^ 63) `mod` 2 ^ 64 + b) by lia.
  rewrite Zplus_mod_idemp_l. f_equal. lia.
Qed.

Lemma wrap64_add_r a b : wrap64 (a + wrap64 b) = wrap64 (a + b).
Proof. rewrite Z.add_comm, wrap64_add_l. f_equal. lia. Qed.

Lemma wrap64_idemp a : wrap64 (wrap64 a) = wrap64 a.
Proof. apply wrap64_id, wrap64_range. Qed.

Lemma wrap64_0 : wrap64 0 = 0.
Proof. reflexivity. Qed.


(** Induction on a finite map in the order in which [map_fold] visits it. *)
Lemma gmap_fold_ind {K} {EqK : EqDecision K} {CntK : Countable K} {A}
  (P : gmap K A → Prop) :
P ∅ →
(∀ i x m,
   m !! i = None →
   (∀ B (f : K → A → B → B) b,
      map_fold f b (<[i:=x]> m) = f i x (map_fold f b m)) →
   P m → P (<[i:=x]> m)) →
∀ m, P m.
Proof.
intros Hemp Hins m. induction m as [|i x m Hi Hfirst IH] using map_first_key_ind.
- exact Hemp.
- apply Hins; [done| |done].
  intros B f b. by apply map_fold_insert_first_key.
Qed.

Implicit Types (m u : FlavorResourceQuantities) (fr : FlavorResource).

Lemma quantity_empty fr : quantity ∅ fr = 0.
Proof. unfold quantity. by rewrite lookup_empty. Qed.

Lemma quantity_addTo fr fr' v m :
  quantity (addTo fr v m) fr' =
  if decide (fr = fr') then wrap64 (quantity m fr + v) else quantity m fr'.
Proof.
  unfold addTo, quantity at 1. rewrite lookup_insert.
  by destruct (decide (fr = fr')).
Qed.

Lemma quantity_int64 m fr : int64_map m → is_int64 (quantity m fr).
Proof.
  intros Hm. unfold quantity. destruct (m !! fr) as [q|] eqn:E; simpl.
  - by eapply Hm.
  - unfold is_int64, min_int64, max_int64. lia.
Qed.

Lemma int64_map_empty : int64_map ∅.
Proof. intros fr q. by rewrite lookup_empty. Qed.

Lemma int64_map_addTo fr v m : int64_map m → int64_map (addTo fr v m).
Proof.
  intros Hm fr' q. unfold addTo. rewrite lookup_insert.
  destruct (decide (fr = fr')).
  - intros [= <-]. apply wrap64_range.
  - apply Hm.
Qed.

(** What [updateFlavorUsage] leaves at each key. *)
Lemma quantity_updateFlavorUsage u m k fr :
  quantity (updateFlavorUsage u m k) fr =
  match u !! fr with
  | Some q => wrap64 (quantity m fr + q * k)
  | None => quantity m fr
  end.
Proof.
  unfold updateFlavorUsage.
  induction u as [|fr' q u Hfr Hfold IH] using gmap_fold_ind.
  - by rewrite map_fold_empty, lookup_empty.
  - rewrite Hfold, quantity_addTo, lookup_insert.
    destruct (decide (fr' = fr)) as [->|Hne].
    + rewrite IH, Hfr. by rewrite wrap64_add_r.
    + by rewrite IH.
Qed.

Lemma dom_updateFlavorUsage u m k :
  dom (updateFlavorUsage u m k) = dom m ∪ dom u.
Proof. drop_unused.
  unfold updateFlavorUsage.
  induction u as [|fr' q u Hfr Hfold IH] using gmap_fold_ind.
  - rewrite map_fold_empty, dom_empty_L. set_solver.
  - rewrite Hfold. unfold addTo at 1. rewrite dom_insert_L, IH, dom_insert_L.
    set_solver.
Qed.

Lemma int64_map_updateFlavorUsage u m k :
  int64_map m → int64_map (updateFlavorUsage u m k).
Proof.
  intros Hm. unfold updateFlavorUsage.
  induction u as [|fr' q u Hfr Hfold IH] using gmap_fold_ind.
  - by rewrite map_fold_empty.
  - rewrite Hfold. by apply int64_map_addTo.
Qed.

Lemma lookup_resetUsage lq cq fr :
  resetUsage lq cq !! fr =
  match cq !! fr with Some _ => Some (quantity lq fr) | None => None end.
Proof.
  unfold resetUsage.
  induction cq as [|fr' q cq Hfr Hfold IH] using gmap_fold_ind.
  - by rewrite map_fold_empty, !lookup_empty.
  - rewrite Hfold, !lookup_insert.
    destruct (decide (fr' = fr)) as [->|Hne]; [done|apply IH].
Qed.

Lemma quantity_resetUsage_empty cq fr : quantity (resetUsage ∅ cq) fr = 0.
Proof.
  unfold quantity at 1. rewrite lookup_resetUsage.
  destruct (cq !! fr); simpl; [apply quantity_empty|done].
Qed.


(** ** Local queues *)

(** C10: [addLocalQueue] on a key that is already registered returns
    [errQueueAlreadyExists] and leaves the queue, with its local queues and
    all their counters, as it was. *)
Theorem addLocalQueue_already_exists (c : clusterQueue) (q : LocalQueue) (lq : queue) :
  localQueues c !! queueKey q = Some lq →
  addLocalQueue c q = (c, Some errQueueAlreadyExists).
Proof. intros Hlq. unfold addLocalQueue. by rewrite Hlq. Qed.

(** ** Accounting of workloads *)

Lemma addTo_wrap64 fr v m : addTo fr (wrap64 v) m = addTo fr v m.
Proof. unfold addTo. by rewrite wrap64_add_r. Qed.

Lemma quantity_updateFlavorUsage_int64 u m k fr :
  is_int64 (quantity m fr) →
  quantity (updateFlavorUsage u m k) fr = wrap64 (quantity m fr + quantity u fr * k).
Proof.
  intros Hm. rewrite quantity_updateFlavorUsage.
  unfold quantity at 4. destruct (u !! fr) as [q|]; simpl; [done|].
  rewrite Z.add_0_r. symmetry. by apply wrap64_id.
Qed.

Lemma set_Usage_id c : set_Usage (Usage (resourceNode c)) c = c.
Proof. by destruct c as [? ? ? ? ? ? ? ? ? ? ? ? ? ? ? ? ? ? ? ? [? ?] ? ?]. Qed.

(** The loop of [updateWorkloadUsage] over the usage of the workload. *)
Lemma usage_loop c u (m : Z) :
  m = 1 ∨ m = -1 →
  map_fold (fun fr q c =>
              let c := if m =? 1 then addUsage c fr q else c in
              if m =? -1 then removeUsage c fr q else c) c u
  = set_Usage (updateFlavorUsage u (Usage (resourceNode c)) m) c.
Proof.
  intros Hm. unfold updateFlavorUsage.
  induction u as [|fr q u Hfr Hfold IH] using gmap_fold_ind.
  - rewrite !map_fold_empty. symmetry. apply set_Usage_id.
  - rewrite !Hfold, IH. rewrite addTo_wrap64.
    destruct Hm as [-> | ->]; simpl.
    + unfold addUsage; simpl. by rewrite Z.mul_1_r.
    + unfold removeUsage; simpl. by replace (q * -1) with (- q) by lia.
Qed.

(** The fields that [updateWorkloadUsage] writes. *)
Lemma updateWorkloadUsage_Usage c wi (m : Z) :
  m = 1 ∨ m = -1 →
  Usage (resourceNode (updateWorkloadUsage c wi m))
  = updateFlavorUsage (FlavorResourceUsage wi) (Usage (resourceNode c)) m.
Proof.
  intros Hm. unfold updateWorkloadUsage. rewrite usage_loop by done.
  unfold updateWorkloadTASUsage. repeat case_match; reflexivity.
Qed.

Lemma updateWorkloadUsage_AdmittedUsage c wi (m : Z) :
  m = 1 ∨ m = -1 →
  AdmittedUsage (updateWorkloadUsage c wi m)
  = if IsAdmitted (Obj wi)
    then updateFlavorUsage (FlavorResourceUsage wi) (AdmittedUsage c) m
    else AdmittedUsage c.
Proof.
  intros Hm. unfold updateWorkloadUsage. rewrite usage_loop by done.
  unfold updateWorkloadTASUsage. repeat case_match; reflexivity.
Qed.

Lemma updateWorkloadUsage_localQueues c wi (m : Z) :
  m = 1 ∨ m = -1 →
  localQueues (updateWorkloadUsage c wi m)
  = match localQueues c !! QueueKey (Obj wi) with
    | Some lq =>
        <[QueueKey (Obj wi) :=
            updateQueueUsage lq (FlavorResourceUsage wi) (IsAdmitted (Obj wi)) m]>
          (localQueues c)
    | None => localQueues c
    end.
Proof.
  intros Hm. unfold updateWorkloadUsage. rewrite usage_loop by done.
  unfold updateWorkloadTASUsage.
  destruct TopologyAwareScheduling, (IsUsingTAS wi), (IsAdmitted (Obj wi)); simpl;
    repeat case_match; simplify_eq/=; try reflexivity; congruence.
Qed.

Lemma updateWorkloadUsage_frame c wi (m : Z) :
  m = 1 ∨ m = -1 →
  let c' := updateWorkloadUsage c wi m in
  Workloads c' = Workloads c
  ∧ AllocatableResourceGeneration c' = AllocatableResourceGeneration c
  ∧ podsReadyTracking c' = podsReadyTracking c
  ∧ WorkloadsNotReady c' = WorkloadsNotReady c
  ∧ statusView c' = statusView c.
Proof.
  intros Hm. simpl. unfold updateWorkloadUsage. rewrite usage_loop by done.
  unfold updateWorkloadTASUsage. repeat case_match; done.
Qed.

(** *** [deleteWorkload] and [addOrUpdateWorkload], field by field *)

Lemma deleteWorkload_absent c w :
  Workloads c !! Key w = None → deleteWorkload c w = c.
Proof. intros Hw. unfold deleteWorkload. by rewrite Hw. Qed.

Lemma deleteWorkload_present c w wi :
  Workloads c !! Key w = Some wi →
  let c' := deleteWorkload c w in
  Workloads c' = delete (Key w) (Workloads c)
  ∧ Usage (resourceNode c')
    = updateFlavorUsage (FlavorResourceUsage wi) (Usage (resourceNode c)) (-1)
  ∧ AdmittedUsage c'
    = (if IsAdmitted (Obj wi)
       then updateFlavorUsage (FlavorResourceUsage wi) (AdmittedUsage c) (-1)
       else AdmittedUsage c)
  ∧ AllocatableResourceGeneration c' = wrap64 (AllocatableResourceGeneration c + 1)
  ∧ localQueues c' = localQueues (updateWorkloadUsage c wi (-1))
  ∧ podsReadyTracking c' = podsReadyTracking c
  ∧ statusView c' = statusView c.
Proof.
  intros Hw. simpl. unfold deleteWorkload. rewrite Hw.
  assert (Hm : -1 = 1 ∨ -1 = -1) by (by right).
  pose proof (updateWorkloadUsage_frame c wi (-1) Hm) as (HW & HG & HP & HN & HS).
  pose proof (updateWorkloadUsage_Usage c wi (-1) Hm) as HU.
  pose proof (updateWorkloadUsage_AdmittedUsage c wi (-1) Hm) as HA.
  simpl in *.
  destruct (podsReadyTracking (updateWorkloadUsage c wi (-1)) && negb (wlPodsReady w));
    simpl; rewrite ?HW, ?HG, ?HU, ?HA, ?HP; unfold statusView in *; simpl;
    repeat split; try done.
Qed.

Lemma addOrUpdateWorkload_delete_first c w :
  addOrUpdateWorkload c w = addOrUpdateWorkload (deleteWorkload c w) w.
Proof.
  destruct (Workloads c !! Key w) as [wi|] eqn:Hw.
  - destruct (deleteWorkload_present c w wi Hw) as (HW & _).
    assert (Workloads (deleteWorkload c w) !! Key w = None) as Hnone.
    { rewrite HW. apply lookup_delete_eq. }
    unfold addOrUpdateWorkload. by rewrite Hw, Hnone.
  - by rewrite deleteWorkload_absent.
Qed.

Lemma addOrUpdateWorkload_absent c w :
  Workloads c !! Key w = None →
  let c' := addOrUpdateWorkload c w in
  Workloads c' = <[Key w := NewInfo w]> (Workloads c)
  ∧ Usage (resourceNode c')
    = updateFlavorUsage (wlFlavorResourceUsage w) (Usage (resourceNode c)) 1
  ∧ AdmittedUsage c'
    = (if IsAdmitted w
       then updateFlavorUsage (wlFlavorResourceUsage w) (AdmittedUsage c) 1
       else AdmittedUsage c)
  ∧ AllocatableResourceGeneration c' = AllocatableResourceGeneration c
  ∧ localQueues c' = localQueues (updateWorkloadUsage c (NewInfo w) 1)
  ∧ podsReadyTracking c' = podsReadyTracking c
  ∧ statusView c' = statusView c.
Proof.
  intros Hw. simpl. unfold addOrUpdateWorkload. rewrite Hw.
  assert (Hm : 1 = 1 ∨ 1 = -1) by (by left).
  set (c0 := set_Workloads (<[Key w:=NewInfo w]> (Workloads c)) c).
  pose proof (updateWorkloadUsage_frame c0 (NewInfo w) 1 Hm) as (HW & HG & HP & HN & HS).
  pose proof (updateWorkloadUsage_Usage c0 (NewInfo w) 1 Hm) as HU.
  pose proof (updateWorkloadUsage_AdmittedUsage c0 (NewInfo w) 1 Hm) as HA.
  pose proof (updateWorkloadUsage_localQueues c0 (NewInfo w) 1 Hm) as HL.
  pose proof (updateWorkloadUsage_localQueues c (NewInfo w) 1 Hm) as HL'.
  simpl in *.
  destruct (podsReadyTracking (updateWorkloadUsage c0 (NewInfo w) 1) && negb (wlPodsReady w));
    simpl; rewrite ?HW, ?HG, ?HU, ?HA, ?HP, ?HL, ?HL'; unfold statusView in *; simpl;
    repeat split; try done.
Qed.

(** *** Sums and counts over the workloads of a queue *)

Lemma usageSum_empty P fr : usageSum P ∅ fr = 0.
Proof. unfold usageSum. by rewrite map_fold_empty. Qed.

Lemma usageSum_insert P ws k wi fr :
  ws !! k = None →
  usageSum P (<[k:=wi]> ws) fr
  = (if P wi then quantity (FlavorResourceUsage wi) fr else 0) + usageSum P ws fr.
Proof.
  intros Hk. unfold usageSum. rewrite map_fold_insert_L; [|intros|done].
  - by destruct (P wi).
  - repeat case_match; lia.
Qed.

Lemma usageSum_delete P ws k wi fr :
  ws !! k = Some wi →
  usageSum P ws fr
  = (if P wi then quantity (FlavorResourceUsage wi) fr else 0)
    + usageSum P (delete k ws) fr.
Proof.
  intros Hk. rewrite <-(insert_delete_id ws k wi) at 1 by done.
  apply usageSum_insert, lookup_delete_eq.
Qed.

Lemma workloadCount_empty P : workloadCount P ∅ = 0%nat.
Proof. unfold workloadCount. by rewrite map_filter_empty, map_size_empty. Qed.

Lemma workloadCount_insert P ws k wi :
  ws !! k = None →
  workloadCount P (<[k:=wi]> ws)
  = ((if P wi then 1 else 0) + workloadCount P ws)%nat.
Proof.
  intros Hk. unfold workloadCount. destruct (P wi) eqn:HP.
  - rewrite map_filter_insert_True by done.
    rewrite map_size_insert_None; [done|].
    apply map_lookup_filter_None. by left.
  - rewrite map_filter_insert_not'; [done|simpl; congruence|].
    intros y. by rewrite Hk.
Qed.

(** *** The usage invariant *)

Lemma usageMatches_int64 c fr :
  usageMatchesWorkloads c →
  is_int64 (quantity (Usage (resourceNode c)) fr)
  ∧ is_int64 (quantity (AdmittedUsage c) fr).
Proof. intros H. destruct (H fr) as [-> ->]. split; apply wrap64_range. Qed.

Lemma deleteWorkload_usageMatches c w :
  usageMatchesWorkloads c → usageMatchesWorkloads (deleteWorkload c w).
Proof.
  intros Hinv. destruct (Workloads c !! Key w) as [wi|] eqn:Hw;
    [|by rewrite deleteWorkload_absent].
  destruct (deleteWorkload_present c w wi Hw) as (HW & HU & HA & _).
  intros fr. destruct (usageMatches_int64 c fr Hinv) as [HiU HiA].
  destruct (Hinv fr) as [HsU HsA]. rewrite HW, HU, HA. split.
  - rewrite quantity_updateFlavorUsage_int64 by done.
    rewrite HsU, wrap64_add_l, (usageSum_delete _ _ _ _ _ Hw).
    change (anyWorkload wi) with true. f_equal. lia.
  - rewrite (usageSum_delete _ _ _ _ _ Hw) in HsA.
    change (admittedWorkload wi) with (IsAdmitted (Obj wi)) in HsA.
    destruct (IsAdmitted (Obj wi)).
    + rewrite quantity_updateFlavorUsage_int64 by done.
      rewrite HsA, wrap64_add_l. f_equal. lia.
    + by rewrite HsA.
Qed.

Lemma addOrUpdateWorkload_absent_usageMatches c w :
  Workloads c !! Key w = None →
  usageMatchesWorkloads c → usageMatchesWorkloads (addOrUpdateWorkload c w).
Proof.
  intros Hw Hinv.
  destruct (addOrUpdateWorkload_absent c w Hw) as (HW & HU & HA & _).
  intros fr. destruct (usageMatches_int64 c fr Hinv) as [HiU HiA].
  destruct (Hinv fr) as [HsU HsA]. rewrite HW, HU, HA.
  rewrite !usageSum_insert by done.
  change (anyWorkload (NewInfo w)) with true.
  change (admittedWorkload (NewInfo w)) with (IsAdmitted w).
  change (FlavorResourceUsage (NewInfo w)) with (wlFlavorResourceUsage w). split.
  - rewrite quantity_updateFlavorUsage_int64 by done.
    rewrite HsU, wrap64_add_l. f_equal. lia.
  - destruct (IsAdmitted w).
    + rewrite quantity_updateFlavorUsage_int64 by done.
      rewrite HsA, wrap64_add_l. f_equal. lia.
    + by rewrite HsA.
Qed.

Lemma deleteWorkload_lookup c w : Workloads (deleteWorkload c w) !! Key w = None.
Proof.
  destruct (Workloads c !! Key w) as [wi|] eqn:Hw.
  - destruct (deleteWorkload_present c w wi Hw) as (-> & _). apply lookup_delete_eq.
  - by rewrite deleteWorkload_absent.
Qed.

Lemma addOrUpdateWorkload_usageMatches c w :
  usageMatchesWorkloads c → usageMatchesWorkloads (addOrUpdateWorkload c w).
Proof.
  intros Hinv. rewrite addOrUpdateWorkload_delete_first.
  apply addOrUpdateWorkload_absent_usageMatches.
  - apply deleteWorkload_lookup.
  - by apply deleteWorkload_usageMatches.
Qed.

Lemma applyWorkloadOp_usageMatches c op :
  usageMatchesWorkloads c → usageMatchesWorkloads (applyWorkloadOp c op).
Proof.
  intros Hinv. destruct op as [w|w|w]; simpl.
  - unfold addWorkload. destruct (Workloads c !! Key w); simpl; [done|].
    by apply addOrUpdateWorkload_usageMatches.
  - by apply addOrUpdateWorkload_usageMatches.
  - by apply deleteWorkload_usageMatches.
Qed.

(** C2: over any sequence of addWorkload, addOrUpdateWorkload and
    deleteWorkload, the usage of the queue stays the sum of the
    FlavorResourceUsage of the workloads it holds, and its admitted usage the
    sum over the admitted ones; sums are those of int64 arithmetic. *)
Theorem usage_is_sum_of_workloads (ops : list WorkloadOp) (c : clusterQueue) :
  usageMatchesWorkloads c →
  usageMatchesWorkloads (foldl applyWorkloadOp c ops).
Proof.
  revert c. induction ops as [|op ops IH]; intros c Hinv; simpl; [done|].
  by apply IH, applyWorkloadOp_usageMatches.
Qed.

(** *** Adding and then deleting a workload *)

Lemma roundtrip_quantity u (m : FlavorResourceQuantities) fr :
  is_int64 (quantity m fr) →
  quantity (updateFlavorUsage u (updateFlavorUsage u m 1) (-1)) fr = quantity m fr.
Proof.
  intros Hi. rewrite !quantity_updateFlavorUsage.
  destruct (u !! fr) as [q|]; [|done].
  rewrite wrap64_add_l. replace (quantity m fr + q * 1 + q * -1) with (quantity m fr) by lia.
  by apply wrap64_id.
Qed.

(** C4: for a workload that the queue does not hold, addOrUpdateWorkload
    followed by deleteWorkload leaves every quantity of the usage of the queue,
    of its admitted usage and of the reserved and admitted usage of each of its
    local queues as it was. *)
Theorem add_then_delete_restores_usage (c : clusterQueue) (w : Workload) :
  Workloads c !! Key w = None →
  int64_usage c →
  let c' := deleteWorkload (addOrUpdateWorkload c w) w in
  sameQuantities (Usage (resourceNode c')) (Usage (resourceNode c))
  ∧ sameQuantities (AdmittedUsage c') (AdmittedUsage c)
  ∧ sameLocalQueueUsage (localQueues c') (localQueues c).
Proof.
  intros Hw (HiU & HiA & HiL). simpl.
  destruct (addOrUpdateWorkload_absent c w Hw) as (HW1 & HU1 & HA1 & _ & HL1 & _).
  assert (Workloads (addOrUpdateWorkload c w) !! Key w = Some (NewInfo w)) as Hw1.
  { rewrite HW1. apply lookup_insert_eq. }
  destruct (deleteWorkload_present _ w _ Hw1) as (_ & HU2 & HA2 & _ & HL2 & _).
  rewrite HU2, HA2, HL2, HU1, HA1.
  rewrite !updateWorkloadUsage_localQueues by auto. rewrite HL1.
  rewrite updateWorkloadUsage_localQueues by auto.
  unfold FlavorResourceUsage; simpl. repeat split.
  - intros fr. apply roundtrip_quantity. by apply quantity_int64.
  - intros fr. destruct (IsAdmitted w); [|done].
    apply roundtrip_quantity. by apply quantity_int64.
  - intros k. destruct (localQueues c !! QueueKey w) as [lq|] eqn:Hlq.
    + rewrite lookup_insert_eq.
      destruct (decide (k = QueueKey w)) as [->|Hne].
      * rewrite lookup_insert_eq, Hlq. simpl.
        destruct (HiL _ _ Hlq) as [Ht Ha]. split; intros fr.
        -- apply roundtrip_quantity. by apply quantity_int64.
        -- destruct (IsAdmitted w); [|done].
           apply roundtrip_quantity. by apply quantity_int64.
      * rewrite !lookup_insert_ne by done.
        destruct (localQueues c !! k); [by split|done].
    + rewrite Hlq. destruct (localQueues c !! k); [by split|done].
Qed.

(** *** [addWorkload] and [deleteWorkload] *)

(** C6, as amended: [addWorkload] fails, leaving the queue as it was, exactly
    when a workload is already held under the same key, and otherwise adds the
    workload through [addOrUpdateWorkload]; [addOrUpdateWorkload] stores the
    workload under its key and leaves the usage and the admitted usage increased
    by its FlavorResourceUsage once, the usage of a workload previously held
    under that key having been taken out. *)
Theorem addWorkload_same_key_or_counted_once (c : clusterQueue) (w : Workload) :
  int64_map (Usage (resourceNode c)) →
  int64_map (AdmittedUsage c) →
  (∀ wi, Workloads c !! Key w = Some wi →
     addWorkload c w
     = (c, Some (errorsNew "workload already exists in ClusterQueue")))
  ∧ (Workloads c !! Key w = None →
     addWorkload c w = (addOrUpdateWorkload c w, None))
  ∧ let c' := addOrUpdateWorkload c w in
    Workloads c' = <[Key w := NewInfo w]> (Workloads c)
    ∧ ∀ fr,
        quantity (Usage (resourceNode c')) fr
        = wrap64 (quantity (Usage (resourceNode c)) fr
                  - storedQuantity anyWorkload (Workloads c) (Key w) fr
                  + quantity (wlFlavorResourceUsage w) fr)
        ∧ quantity (AdmittedUsage c') fr
          = wrap64 (quantity (AdmittedUsage c) fr
                    - storedQuantity admittedWorkload (Workloads c) (Key w) fr
                    + (if IsAdmitted w
                       then quantity (wlFlavorResourceUsage w) fr else 0)).
Proof.
  intros HiU HiA. split; [|split].
  - intros wi Hw. unfold addWorkload. by rewrite Hw.
  - intros Hw. unfold addWorkload. by rewrite Hw.
  - simpl. rewrite addOrUpdateWorkload_delete_first.
    destruct (addOrUpdateWorkload_absent _ w (deleteWorkload_lookup c w))
      as (HW & HU & HA & _).
    rewrite HW, HU, HA. unfold storedQuantity.
    destruct (Workloads c !! Key w) as [wi|] eqn:Hw.
    + destruct (deleteWorkload_present c w wi Hw) as (HW' & HU' & HA' & _).
      rewrite HW', HU', HA'. split; [apply insert_delete_eq|].
      intros fr. change (anyWorkload wi) with true.
      change (admittedWorkload wi) with (IsAdmitted (Obj wi)). split.
      * rewrite quantity_updateFlavorUsage_int64.
        2:{ rewrite quantity_updateFlavorUsage_int64 by by apply quantity_int64.
            apply wrap64_range. }
        rewrite quantity_updateFlavorUsage_int64 by by apply quantity_int64.
        rewrite wrap64_add_l. f_equal. lia.
      * assert (is_int64 (quantity (AdmittedUsage c) fr)) by by apply quantity_int64.
        destruct (IsAdmitted (Obj wi)), (IsAdmitted w);
          rewrite ?quantity_updateFlavorUsage_int64;
          rewrite ?quantity_updateFlavorUsage_int64;
          rewrite ?wrap64_add_l; try apply wrap64_range; try done.
        -- f_equal. lia.
        -- f_equal. lia.
        -- f_equal. lia.
        -- symmetry. rewrite Z.sub_0_r, Z.add_0_r. by apply wrap64_id.
    + rewrite deleteWorkload_absent by done. split; [done|].
      intros fr. split.
      * rewrite quantity_updateFlavorUsage_int64 by by apply quantity_int64.
        f_equal. lia.
      * assert (is_int64 (quantity (AdmittedUsage c) fr)) by by apply quantity_int64.
        destruct (IsAdmitted w).
        -- rewrite quantity_updateFlavorUsage_int64 by done. f_equal. lia.
        -- symmetry. rewrite Z.sub_0_r, Z.add_0_r. by apply wrap64_id.
Qed.

(** C7, as amended: for a workload whose key the queue holds, [deleteWorkload]
    takes the FlavorResourceUsage of the stored workload out of the usage (and
    out of the admitted usage if it is admitted), bumps
    AllocatableResourceGeneration and removes the key; for a key that the
    queue does not hold it changes nothing. *)
Theorem deleteWorkload_removes_stored_workload (c : clusterQueue) (w : Workload) :
  int64_map (Usage (resourceNode c)) →
  int64_map (AdmittedUsage c) →
  (Workloads c !! Key w = None → deleteWorkload c w = c)
  ∧ (∀ wi, Workloads c !! Key w = Some wi →
     let c' := deleteWorkload c w in
     (∀ fr,
        quantity (Usage (resourceNode c')) fr
        = wrap64 (quantity (Usage (resourceNode c)) fr
                  - quantity (FlavorResourceUsage wi) fr)
        ∧ quantity (AdmittedUsage c') fr
          = wrap64 (quantity (AdmittedUsage c) fr
                    - (if IsAdmitted (Obj wi)
                       then quantity (FlavorResourceUsage wi) fr else 0)))
     ∧ AllocatableResourceGeneration c'
       = wrap64 (AllocatableResourceGeneration c + 1)
     ∧ Workloads c' = delete (Key w) (Workloads c)).
Proof.
  intros HiU HiA. split; [apply deleteWorkload_absent|].
  intros wi Hw. simpl.
  destruct (deleteWorkload_present c w wi Hw) as (HW & HU & HA & HG & _).
  rewrite HW, HU, HA, HG. repeat split; try done.
  - rewrite quantity_updateFlavorUsage_int64 by by apply quantity_int64.
    f_equal. lia.
  - assert (is_int64 (quantity (AdmittedUsage c) fr)) by by apply quantity_int64.
    destruct (IsAdmitted (Obj wi)).
    + rewrite quantity_updateFlavorUsage_int64 by done. f_equal. lia.
    + symmetry. rewrite Z.sub_0_r. by apply wrap64_id.
Qed.

(** *** Registration of a local queue *)

Lemma countWorkload_loop q ws qi0 :
  is_int64 (reservingWorkloads qi0) →
  is_int64 (admittedWorkloads qi0) →
  int64_map (totalReserved qi0) →
  int64_map (admittedUsage qi0) →
  let r := map_fold (fun _ wl qImpl => countWorkload q wl qImpl) qi0 ws in
  key r = key qi0
  ∧ reservingWorkloads r
    = wrap64 (reservingWorkloads qi0 + Z.of_nat (workloadCount (inLocalQueue q) ws))
  ∧ admittedWorkloads r
    = wrap64 (admittedWorkloads qi0
              + Z.of_nat (workloadCount (admittedInLocalQueue q) ws))
  ∧ (∀ fr, quantity (totalReserved r) fr
           = wrap64 (quantity (totalReserved qi0) fr + usageSum (inLocalQueue q) ws fr))
  ∧ (∀ fr, quantity (admittedUsage r) fr
           = wrap64 (quantity (admittedUsage qi0) fr
                     + usageSum (admittedInLocalQueue q) ws fr)).
Proof.
  intros Hr Ha Ht Hu. simpl.
  induction ws as [|k wi ws Hk Hfold IH] using gmap_fold_ind.
  - rewrite map_fold_empty, !workloadCount_empty.
    repeat split; try (symmetry; rewrite Z.add_0_r; by apply wrap64_id).
    + intros fr. rewrite usageSum_empty, Z.add_0_r. symmetry.
      by apply wrap64_id, quantity_int64.
    + intros fr. rewrite usageSum_empty, Z.add_0_r. symmetry.
      by apply wrap64_id, quantity_int64.
  - rewrite Hfold.
    set (r := map_fold (λ _ wl qImpl, countWorkload q wl qImpl) qi0 ws) in *.
    destruct IH as (IHk & IHr & IHa & IHt & IHu). clearbody r.
    rewrite !workloadCount_insert by done.
    setoid_rewrite usageSum_insert; [|done..].
    assert (Hin : inLocalQueue q wi = workloadBelongsToLocalQueue (Obj wi) q) by done.
    assert (Hai : admittedInLocalQueue q wi
                  = workloadBelongsToLocalQueue (Obj wi) q && IsAdmitted (Obj wi)) by done.
    rewrite Hin, Hai. clear Hin Hai. unfold countWorkload.
    destruct (workloadBelongsToLocalQueue (Obj wi) q) eqn:Hb; simpl;
      [destruct (IsAdmitted (Obj wi)) eqn:Hadm; simpl|];
      rewrite ?Nat2Z.inj_succ.
    + repeat split; try done.
      * rewrite IHr, wrap64_add_l. f_equal. lia.
      * rewrite IHa, wrap64_add_l. f_equal. lia.
      * intros fr. rewrite quantity_updateFlavorUsage_int64
          by (rewrite IHt; apply wrap64_range).
        rewrite IHt, wrap64_add_l. f_equal. lia.
      * intros fr. rewrite quantity_updateFlavorUsage_int64
          by (rewrite IHu; apply wrap64_range).
        rewrite IHu, wrap64_add_l. f_equal. lia.
    + repeat split; try done.
      * rewrite IHr, wrap64_add_l. f_equal. lia.
      * intros fr. rewrite quantity_updateFlavorUsage_int64
          by (rewrite IHt; apply wrap64_range).
        rewrite IHt, wrap64_add_l. f_equal. lia.
    + repeat split; done.
Qed.

(** The counters of the local queue that a successful [addLocalQueue]
    registers, over the workloads that [workloadBelongsToLocalQueue]
    accepts. *)
Lemma addLocalQueue_counts_own_workloads (c c' : clusterQueue) (q : LocalQueue) :
  addLocalQueue c q = (c', None) →
  ∃ lq,
    localQueues c' !! queueKey q = Some lq
    ∧ reservingWorkloads lq
      = wrap64 (Z.of_nat (workloadCount (inLocalQueue q) (Workloads c')))
    ∧ (∀ fr, quantity (totalReserved lq) fr
             = wrap64 (usageSum (inLocalQueue q) (Workloads c') fr))
    ∧ admittedWorkloads lq
      = wrap64 (Z.of_nat (workloadCount (admittedInLocalQueue q) (Workloads c')))
    ∧ (∀ fr, quantity (admittedUsage lq) fr
             = wrap64 (usageSum (admittedInLocalQueue q) (Workloads c') fr)).
Proof.
  unfold addLocalQueue. destruct (localQueues c !! queueKey q); [done|].
  intros [= <-]. eexists. split; [apply lookup_insert_eq|]. simpl.
  match goal with
  | |- context [map_fold _ ?qi0 _] =>
      destruct (countWorkload_loop q (Workloads c) qi0) as (_ & Hr & Ha & Ht & Hu)
  end.
  - done.
  - done.
  - intros fr v. simpl. rewrite lookup_resetUsage.
    destruct (_ !! fr); [|done]. intros [= <-]. rewrite quantity_empty. done.
  - intros fr v. simpl. rewrite lookup_resetUsage.
    destruct (_ !! fr); [|done]. intros [= <-]. rewrite quantity_empty. done.
  - simpl in *. rewrite Hr, Ha. repeat split; try done.
    + intros fr. rewrite Ht. by rewrite quantity_resetUsage_empty.
    + intros fr. rewrite Hu. by rewrite quantity_resetUsage_empty.
Qed.

(** ** Status *)

Lemma addOrUpdateWorkload_statusView c w :
  statusView (addOrUpdateWorkload c w) = statusView c.
Proof.
  rewrite addOrUpdateWorkload_delete_first.
  destruct (addOrUpdateWorkload_absent _ w (deleteWorkload_lookup c w))
    as (_ & _ & _ & _ & _ & _ & ->).
  destruct (Workloads c !! Key w) as [wi|] eqn:Hw.
  - by destruct (deleteWorkload_present c w wi Hw) as (_ & _ & _ & _ & _ & _ & ->).
  - by rewrite deleteWorkload_absent.
Qed.

Lemma reAddDeferred_statusView k w c :
  statusView (reAddDeferred k w c) = statusView c.
Proof.
  unfold reAddDeferred. case_bool_decide; [|done].
  by rewrite <-(addOrUpdateWorkload_statusView c (Obj w)).
Qed.

Lemma reAddDeferred_loop_statusView ws c :
  statusView (map_fold reAddDeferred c ws) = statusView c.
Proof.
  induction ws as [|k w ws Hk Hfold IH] using gmap_fold_ind.
  - by rewrite map_fold_empty.
  - by rewrite Hfold, reAddDeferred_statusView.
Qed.

(** What [isTASViolated] decides. *)
Lemma isTASSynced_false c :
  isTASSynced c = false ↔
  ∃ tasFlavor topology,
    tasFlavors c !! tasFlavor = Some topology ∧ tasFlavor ∉ tasCache c.
Proof. drop_unused.
  unfold isTASSynced. rewrite bool_decide_eq_false, map_not_Forall by apply _.
  naive_solver.
Qed.

Lemma length_pos_nonempty {A} (l : list A) : (0 <? length l)%nat = true ↔ l ≠ [].
Proof. destruct l; simpl; [|done]. split; [done|congruence]. Qed.

Lemma size_pos_nonempty `{Countable K} {A} (m : gmap K A) :
  (0 <? size m)%nat = true ↔ m ≠ ∅.
Proof.
  rewrite Nat.ltb_lt. rewrite <-map_size_non_empty_iff. lia.
Qed.

Lemma isTASViolated_true c :
  isTASViolated c = true ↔ tasUnsupportedCheck c ∨ tasUnsyncedTopology c.
Proof. drop_unused.
  unfold isTASViolated, tasUnsupportedCheck, tasUnsyncedTopology.
  rewrite <-isTASSynced_false. rewrite <-!length_pos_nonempty.
  rewrite <-(size_pos_nonempty (tasFlavors c)).
  destruct TopologyAwareScheduling; simpl; [|naive_solver].
  destruct (size (tasFlavors c)) eqn:Hsize; simpl.
  - split; [done|]. intros [(_ & ? & _)|(_ & Hun)]; [done|].
    apply isTASSynced_false in Hun as (f & t & Hf & _).
    apply map_size_empty_inv in Hsize. by rewrite Hsize, lookup_empty in Hf.
  - destruct (isTASSynced c); simpl; [|naive_solver].
    rewrite orb_true_iff. naive_solver.
Qed.

(** The condition under which [updateQueueStatus] finds the queue pending. *)
Lemma pending_condition c :
  isStopped c
  || (0 <? length (missingFlavors c))%nat
  || (0 <? length (missingAdmissionChecks c))%nat
  || (0 <? length (inactiveAdmissionChecks c))%nat
  || (0 <? size (multipleSingleInstanceControllersChecks c))%nat
  || (0 <? length (flavorIndependentAdmissionCheckAppliedPerFlavor c))%nat
  || isTASViolated c
  || (1 <? length (multiKueueAdmissionChecks c))%nat
  || (0 <? length (perFlavorMultiKueueAdmissionChecks c))%nat = true
  ↔ recordedCause c.
Proof. drop_unused.
  unfold recordedCause, stopped, recordsMissingFlavor, recordsMissingCheck,
    recordsInactiveCheck, recordsSeveralMultiKueue, recordsMultiKueuePerFlavor,
    recordsSeveralOfSingleInstance, recordsFlavorIndependentPerFlavor.
  rewrite !orb_true_iff, !length_pos_nonempty, size_pos_nonempty,
    isTASViolated_true, Nat.ltb_lt.
  tauto.
Qed.

Lemma recordedCause_causeView c1 c2 :
  causeView c1 = causeView c2 → recordedCause c1 ↔ recordedCause c2.
Proof.
  unfold causeView. intros [= Hs Hf Hm Hi Hd Hfi Hmk Hp Hpf Htf Htc _ _].
  unfold recordedCause, stopped, recordsMissingFlavor, recordsMissingCheck,
    recordsInactiveCheck, recordsSeveralMultiKueue, recordsMultiKueuePerFlavor,
    recordsSeveralOfSingleInstance, recordsFlavorIndependentPerFlavor,
    tasUnsupportedCheck, tasUnsyncedTopology.
  by rewrite Hs, Hf, Hm, Hi, Hd, Hfi, Hmk, Hp, Hpf, Htf, Htc.
Qed.

(** The status that [updateQueueStatus] leaves, and what it leaves alone. *)
Lemma updateQueueStatus_spec c :
  let c' := updateQueueStatus c in
  causeView c' = causeView c
  ∧ (Status c' = active ↔ ¬ (recordedCause c ∨ Status c = terminating))
  ∧ (Status c' = terminating ↔ Status c = terminating).
Proof. drop_unused.
  simpl. unfold updateQueueStatus.
  match goal with
  | |- context [if ?b then map_fold reAddDeferred c (Workloads c) else c] =>
      set (c1 := if b then map_fold reAddDeferred c (Workloads c) else c)
  end.
  assert (Hv : statusView c1 = statusView c).
  { subst c1. case_match; [apply reAddDeferred_loop_statusView|done]. }
  clearbody c1.
  pose proof (f_equal fst Hv) as HS. pose proof (f_equal snd Hv) as HC.
  simpl in HS, HC. clear Hv.
  pose proof (pending_condition c1) as Hp.
  rewrite (recordedCause_causeView _ _ HC) in Hp.
  match goal with
  | |- context [if ?b then pending else active] => destruct b eqn:Hb
  end.
  - assert (recordedCause c) as Hcause by (by apply Hp).
    rewrite !HS. destruct (Status c) eqn:Hst;
      repeat case_bool_decide; try congruence; simpl; rewrite ?HS, ?Hst;
      (split; [exact HC|]); split; split; try congruence; tauto.
  - assert (¬ recordedCause c) as Hcause by (rewrite <-Hp; congruence).
    rewrite !HS. destruct (Status c) eqn:Hst;
      repeat case_bool_decide; try congruence; simpl; rewrite ?HS, ?Hst;
      (split; [exact HC|]); split; split; try congruence; try tauto;
      intros _; intros [?|?]; congruence.
Qed.

Lemma updateLabelKeys_Status c flavors :
  Status (updateLabelKeys c flavors) = Status c.
Proof. unfold updateLabelKeys. by repeat case_match. Qed.

Lemma UpdateWithFlavors_status c flavors :
  let c' := UpdateWithFlavors c flavors in
  (Status c' = active ↔ ¬ (recordedCause c' ∨ Status c = terminating))
  ∧ (Status c' = terminating ↔ Status c = terminating).
Proof.
  simpl. unfold UpdateWithFlavors.
  destruct (updateQueueStatus_spec (updateLabelKeys c flavors)) as (HC & Ha & Ht).
  rewrite updateLabelKeys_Status in Ha, Ht.
  by rewrite (recordedCause_causeView _ _ HC).
Qed.

(** [updateWithAdmissionChecks] records what it scanned in a queue [x], and
    recomputes the status when that differs from what was on record. *)
Lemma updateWithAdmissionChecks_unfold c checks :
  let s := scanAdmissionChecks c checks in
  ∃ x (update : bool),
    updateWithAdmissionChecks c checks = (if update then updateQueueStatus x else x)
    ∧ Status x = Status c
    ∧ (update = false → x = c)
    ∧ missingAdmissionChecks x = sortStrings (missing s)
    ∧ inactiveAdmissionChecks x = sortStrings (inactive s)
    ∧ multiKueueAdmissionChecks x = setsList (multiKueueSet s)
    ∧ provisioningAdmissionChecks x = setsList (provisioningSet s)
    ∧ perFlavorMultiKueueAdmissionChecks x = sortStrings (perFlavorMultiKueueChecks s)
    ∧ multipleSingleInstanceControllersChecks x
      = (if AdmissionCheckValidationRules then duplicateSingleInstance s
         else multipleSingleInstanceControllersChecks c)
    ∧ flavorIndependentAdmissionCheckAppliedPerFlavor x
      = (if AdmissionCheckValidationRules
         then sortStrings (flavorIndependentCheckOnFlavors s)
         else flavorIndependentAdmissionCheckAppliedPerFlavor c)
    ∧ isStopped x = isStopped c
    ∧ missingFlavors x = missingFlavors c
    ∧ tasFlavors x = tasFlavors c
    ∧ tasCache x = tasCache c
    ∧ AllocatableResourceGeneration x = AllocatableResourceGeneration c
    ∧ Workloads x = Workloads c.
Proof.
  simpl. unfold updateWithAdmissionChecks.
  set (s := scanAdmissionChecks c checks).
  destruct AdmissionCheckValidationRules;
    repeat (case_bool_decide; simpl);
    first [ exists c, false; split; [reflexivity|]
          | eexists _, true; split; [reflexivity|] ];
    simpl; repeat split; try done; try congruence.
Qed.

Lemma UpdateWithFlavors_statusInvariant c0 c flavors :
  (Status c = terminating ↔ Status c0 = terminating) →
  statusInvariant c0 (UpdateWithFlavors c flavors).
Proof. drop_unused.
  intros Ht. destruct (UpdateWithFlavors_status c flavors) as [Ha Ht'].
  unfold statusInvariant, statusAgrees. rewrite Ha, Ht', Ht. tauto.
Qed.

Lemma updateWithAdmissionChecks_statusInvariant c0 c checks :
  statusInvariant c0 c → statusInvariant c0 (updateWithAdmissionChecks c checks).
Proof. drop_unused.
  intros [Ha Ht].
  destruct (updateWithAdmissionChecks_unfold c checks)
    as (x & update & -> & HS & Hx & _).
  destruct update; [|by rewrite Hx].
  destruct (updateQueueStatus_spec x) as (HC & Ha' & Ht').
  unfold statusInvariant, statusAgrees.
  rewrite Ha', Ht', (recordedCause_causeView _ _ HC), HS, Ht. tauto.
Qed.

Lemma updateWithAdmissionChecks_terminating c checks :
  Status (updateWithAdmissionChecks c checks) = terminating ↔ Status c = terminating.
Proof.
  destruct (updateWithAdmissionChecks_unfold c checks)
    as (x & update & -> & HS & Hx & _).
  destruct update; [|by rewrite HS].
  destruct (updateQueueStatus_spec x) as (_ & _ & Ht'). by rewrite Ht', HS.
Qed.

(** [updateClusterQueue]: when it succeeds the status is recomputed, and when
    it fails neither the status nor the causes on record have changed. *)
Lemma updateClusterQueue_status c spec resourceFlavors admissionChecks edge :
  let r := updateClusterQueue c spec resourceFlavors admissionChecks edge in
  (Status (fst r) = terminating ↔ Status c = terminating)
  ∧ (snd r = None → statusAgrees c (fst r))
  ∧ (snd r ≠ None →
     Status (fst r) = Status c ∧ (recordedCause (fst r) ↔ recordedCause c)).
Proof.
  simpl. unfold updateClusterQueue, updateQuotasAndResourceGroups.
  match goal with
  | |- context [if ?b then _ else (_, None)] => destruct b
  end.
  - destruct (hasOldParent edge && parentChanged edge);
      [destruct (oldParentTreeHoldsQueue edge)|];
      (destruct (hasParent edge); [destruct (treeUpdateError edge)|]);
      simpl; try (repeat split; done || congruence);
      (destruct (specNamespaceSelector spec); simpl;
       [repeat split; done || congruence|]).
    all: match goal with
         | |- context [updateWithAdmissionChecks (UpdateWithFlavors ?x ?f) ?a] =>
             pose proof (UpdateWithFlavors_statusInvariant c x f
                           ltac:(reflexivity)) as HJ;
             apply (updateWithAdmissionChecks_statusInvariant _ _ a) in HJ;
             destruct HJ as [Ha Ht]
         end; repeat split; try apply Ht; try apply Ha; try done.
  - simpl. destruct (specNamespaceSelector spec); simpl;
      [repeat split; done || congruence|].
    match goal with
    | |- context [updateWithAdmissionChecks (UpdateWithFlavors ?x ?f) ?a] =>
        pose proof (UpdateWithFlavors_statusInvariant c x f
                      ltac:(reflexivity)) as HJ;
        apply (updateWithAdmissionChecks_statusInvariant _ _ a) in HJ;
        destruct HJ as [Ha Ht]
    end; repeat split; try apply Ht; try apply Ha; try done.
Qed.

Lemma applyStatusOp_statusInvariant c0 c op :
  statusInvariant c0 c → statusInvariant c0 (applyStatusOp c op).
Proof. drop_unused.
  intros [Ha Ht]. destruct op as [spec fl ch edge|fl|ch]; simpl.
  - destruct (updateClusterQueue_status c spec fl ch edge) as (Ht' & Hok & Herr).
    simpl in *. split; [|by rewrite Ht', Ht].
    destruct (snd (updateClusterQueue c spec fl ch edge)) eqn:Hr.
    + destruct Herr as [HS HC]; [done|].
      unfold statusAgrees in *. rewrite HS, HC. exact Ha.
    + specialize (Hok eq_refl). unfold statusAgrees in *. rewrite Hok, Ht. tauto.
  - by apply UpdateWithFlavors_statusInvariant.
  - by apply updateWithAdmissionChecks_statusInvariant.
Qed.

Lemma inactiveReason_terminating c :
  Status c = terminating →
  inactiveReason c
  = (ClusterQueueActiveReasonTerminating,
     "Can't admit new workloads; clusterQueue is terminating").
Proof. intros Ht. unfold inactiveReason. by rewrite Ht. Qed.

(** C9: a terminating queue stays terminating through [updateQueueStatus], a
    flavor update, an admission-check update and an update of the queue (of
    its quotas), and [inactiveReason] then gives the reason Terminating with
    its fixed message. *)
Theorem terminating_is_final (c : clusterQueue) (op : StatusOp) :
  Status c = terminating →
  Status (updateQueueStatus c) = terminating
  ∧ Status (applyStatusOp c op) = terminating
  ∧ inactiveReason (updateQueueStatus c)
    = (ClusterQueueActiveReasonTerminating,
       "Can't admit new workloads; clusterQueue is terminating")
  ∧ inactiveReason (applyStatusOp c op)
    = (ClusterQueueActiveReasonTerminating,
       "Can't admit new workloads; clusterQueue is terminating").
Proof.
  intros Ht.
  assert (Status (updateQueueStatus c) = terminating) as H1.
  { by apply (updateQueueStatus_spec c). }
  assert (Status (applyStatusOp c op) = terminating) as H2.
  { destruct op as [spec fl ch edge|fl|ch]; simpl.
    - by apply (updateClusterQueue_status c spec fl ch edge).
    - by apply (UpdateWithFlavors_status c fl).
    - by apply updateWithAdmissionChecks_terminating. }
  auto using inactiveReason_terminating.
Qed.

(** *** What [updateWithAdmissionChecks] puts on record *)

Lemma size_zero_empty (X : gset string) : (size X =? 0)%nat = true ↔ X = ∅.
Proof. rewrite Nat.eqb_eq, size_empty_iff. by unfold_leibniz. Qed.

Lemma negb_size_zero (X : gset string) : negb (size X =? 0)%nat = true ↔ X ≠ ∅.
Proof. rewrite negb_true_iff, <-not_true_iff_false, size_zero_empty. done. Qed.

Lemma scanRecords_empty checks : scanRecords checks ∅ emptyScan.
Proof. drop_unused.
  unfold scanRecords, emptyScan; simpl.
  repeat split; intros; rewrite ?lookup_empty in *; simpl in *;
    try apply NoDup_nil_2; try set_solver;
    repeat match goal with
           | H : ∃ _, _ |- _ => destruct H
           | H : _ ∧ _ |- _ => destruct H
           | H : is_Some None |- _ => by apply is_Some_None in H
           | H : is_Some (∅ !! _) |- _ => rewrite lookup_empty in H
           | H : ∅ !! _ = Some _ |- _ => by rewrite lookup_empty in H
           end.
Qed.

Ltac scan_auto :=
  split; intros;
  repeat match goal with
         | H : _ ∨ _ |- _ => destruct H
         | H : ∃ _, _ |- _ => destruct H
         | H : _ ∧ _ |- _ => destruct H
         end;
  simplify_eq;
  repeat match goal with
         | Hn : ¬ is_Some (?m !! ?y), H : is_Some (?m !! ?x) |- _ =>
             lazymatch goal with
             | _ : y ≠ x |- _ => fail
             | _ => first [ by destruct (Hn H)
                          | assert (y ≠ x) by (intros ->; contradiction) ]
             end
         | Hn : ?m !! ?y = None, H : ?m !! ?x = Some _ |- _ =>
             lazymatch goal with
             | _ : y ≠ x |- _ => fail
             | _ => first [ congruence
                          | assert (y ≠ x) by (intros ->; congruence) ]
             end
         end;
  first [ done | congruence | tauto | by right | by left
        | by (eexists; split_and!; eauto; tauto)
        | by (eexists _, _; split_and!; eauto; tauto)
        | by (left; eexists; split_and!; eauto; tauto)
        | by (left; eexists _, _; split_and!; eauto; tauto)
        | by (right; eexists _, _; split_and!; eauto; tauto)
        | by eauto 12 ].

Lemma scanRecords_visit checks acs s acName flavors :
  acs !! acName = None →
  scanRecords checks acs s →
  scanRecords checks (<[acName:=flavors]> acs) (visitAdmissionCheck checks acName flavors s).
Proof.
  intros Hnone (Hmiss & Hinact & Hmk & Hprov & Hpf & Hfi & Hcpc & Hnd & Hsingle).
  assert (Hno : ¬ is_Some (acs !! acName)) by (rewrite Hnone; apply is_Some_None).
  unfold scanRecords, visitAdmissionCheck.
  assert (Hfl : if negb (size flavors =? 0)%nat then flavors ≠ ∅ else flavors = ∅).
  { pose proof (negb_size_zero flavors) as Hne.
    destruct (negb (size flavors =? 0)%nat); [by apply Hne|].
    destruct (decide (flavors = ∅)) as [|Hn]; [done|]. apply Hne in Hn. congruence. }
  destruct (checks !! acName) as [ac|] eqn:Hck; simpl; split_and!.
  - intros a. rewrite Hmiss, lookup_insert_is_Some.
    clear -Hno Hnone Hck. scan_auto.
  - intros a. destruct (acActive ac) eqn:Hact; simpl;
      rewrite ?elem_of_app, ?list_elem_of_singleton, Hinact;
      setoid_rewrite lookup_insert_is_Some; clear -Hno Hnone Hck Hact; scan_auto.
  - intros a. case_bool_decide;
      rewrite ?elem_of_union, ?elem_of_singleton, Hmk;
      setoid_rewrite lookup_insert_is_Some;
      clear -Hno Hnone Hck H; scan_auto.
  - intros a. case_bool_decide;
      rewrite ?elem_of_union, ?elem_of_singleton, Hprov;
      setoid_rewrite lookup_insert_is_Some;
      clear -Hno Hnone Hck H; scan_auto.
  - intros a. case_bool_decide; destruct (negb (size flavors =? 0)%nat) eqn:Hsz; simpl;
      rewrite ?elem_of_app, ?list_elem_of_singleton, Hpf;
      setoid_rewrite lookup_insert_Some;
      clear -Hno Hnone Hck H Hfl Hsz; scan_auto.
  - intros a. destruct (acFlavorIndependent ac) eqn:Hind;
      destruct (negb (size flavors =? 0)%nat) eqn:Hsz; simpl;
      rewrite ?elem_of_app, ?list_elem_of_singleton, Hfi;
      setoid_rewrite lookup_insert_Some;
      clear -Hno Hnone Hck Hind Hfl Hsz; scan_auto.
  - intros controller a. rewrite lookup_insert.
    destruct (decide (acController ac = controller)) as [<-|Hc]; simpl.
    + rewrite elem_of_app, list_elem_of_singleton, Hcpc.
      setoid_rewrite lookup_insert_is_Some. clear -Hno Hnone Hck. scan_auto.
    + rewrite Hcpc. setoid_rewrite lookup_insert_is_Some.
      clear -Hno Hnone Hck Hc. scan_auto.
  - intros controller. rewrite lookup_insert.
    destruct (decide (acController ac = controller)) as [<-|Hc]; simpl; [|apply Hnd].
    apply NoDup_app. split; [apply Hnd|]. split; [|apply NoDup_singleton].
    intros a Ha. apply Hcpc in Ha as (? & Hs & _).
    rewrite list_elem_of_singleton. by intros ->.
  - intros controller. destruct (acSingleInstanceInClusterQueue ac) eqn:Hs;
      rewrite ?elem_of_union, ?elem_of_singleton, Hsingle;
      setoid_rewrite lookup_insert_is_Some; clear -Hno Hnone Hck Hs; scan_auto.
  - intros a. rewrite elem_of_app, list_elem_of_singleton, Hmiss,
      lookup_insert_is_Some. clear -Hno Hnone Hck. scan_auto.
  - intros a. rewrite Hinact. setoid_rewrite lookup_insert_is_Some.
    clear -Hno Hnone Hck. scan_auto.
  - intros a. rewrite Hmk. setoid_rewrite lookup_insert_is_Some.
    clear -Hno Hnone Hck. scan_auto.
  - intros a. rewrite Hprov. setoid_rewrite lookup_insert_is_Some.
    clear -Hno Hnone Hck. scan_auto.
  - intros a. rewrite Hpf. setoid_rewrite lookup_insert_Some.
    clear -Hno Hnone Hck. scan_auto.
  - intros a. rewrite Hfi. setoid_rewrite lookup_insert_Some.
    clear -Hno Hnone Hck. scan_auto.
  - intros controller a. rewrite Hcpc. setoid_rewrite lookup_insert_is_Some.
    clear -Hno Hnone Hck. scan_auto.
  - apply Hnd.
  - intros controller. rewrite Hsingle.
    setoid_rewrite lookup_insert_is_Some. clear -Hno Hnone Hck. scan_auto.
Qed.

Lemma scanAdmissionChecks_records c checks :
  scanRecords checks (AdmissionChecks c) (scanAdmissionChecks c checks).
Proof.
  unfold scanAdmissionChecks.
  apply (map_fold_weak_ind (fun s acs => scanRecords checks acs s)).
  - apply scanRecords_empty.
  - intros acName flavors acs s Hnone Hs. by apply scanRecords_visit.
Qed.

Lemma sortStrings_perm l : sortStrings l ≡ₚ l.
Proof. apply merge_sort_Permutation. Qed.

Lemma sortStrings_nonempty l : sortStrings l ≠ [] ↔ ∃ x, x ∈ l.
Proof.
  split.
  - intros Hne. destruct l as [|x l]; [|exists x; left].
    destruct Hne. apply Permutation_nil_r. apply sortStrings_perm.
  - intros [x Hx] Hnil. rewrite <-(sortStrings_perm l), Hnil in Hx.
    by apply elem_of_nil in Hx.
Qed.

Lemma two_distinct (l : list string) :
  NoDup l → (1 < length l)%nat ↔ ∃ x y, x ≠ y ∧ x ∈ l ∧ y ∈ l.
Proof.
  intros Hnd. split.
  - destruct l as [|x [|y l]]; simpl; [lia..|]. intros _.
    exists x, y. split; [|split; [left|right; left]].
    intros ->. apply NoDup_cons in Hnd as [Hx _]. apply Hx. left.
  - intros (x & y & Hne & Hx & Hy).
    destruct l as [|a [|b l]]; simpl; [|exfalso|lia].
    + by apply elem_of_nil in Hx.
    + apply list_elem_of_singleton in Hx, Hy. congruence.
Qed.


Lemma setsList_nonempty (X : gset string) : setsList X ≠ [] ↔ ∃ x, x ∈ X.
Proof.
  unfold setsList. rewrite sortStrings_nonempty.
  by setoid_rewrite elem_of_elements.
Qed.


Lemma updateWithAdmissionChecks_fields c checks :
  let s := scanAdmissionChecks c checks in
  let c' := updateWithAdmissionChecks c checks in
  missingAdmissionChecks c' = sortStrings (missing s)
  ∧ inactiveAdmissionChecks c' = sortStrings (inactive s)
  ∧ multiKueueAdmissionChecks c' = setsList (multiKueueSet s)
  ∧ provisioningAdmissionChecks c' = setsList (provisioningSet s)
  ∧ perFlavorMultiKueueAdmissionChecks c' = sortStrings (perFlavorMultiKueueChecks s)
  ∧ multipleSingleInstanceControllersChecks c'
    = (if AdmissionCheckValidationRules then duplicateSingleInstance s
       else multipleSingleInstanceControllersChecks c)
  ∧ flavorIndependentAdmissionCheckAppliedPerFlavor c'
    = (if AdmissionCheckValidationRules
       then sortStrings (flavorIndependentCheckOnFlavors s)
       else flavorIndependentAdmissionCheckAppliedPerFlavor c).
Proof.
  simpl.
  destruct (updateWithAdmissionChecks_unfold c checks)
    as (x & update & -> & _ & _ & H1 & H2 & H3 & H4 & H5 & H6 & H7 & _).
  destruct update; [|done].
  destruct (updateQueueStatus_spec x) as (HC & _).
  unfold causeView in HC.
  injection HC as _ _ E1 E2 E3 E4 E5 E6 E7 _ _ _ _.
  by rewrite E1, E2, E3, E4, E5, E6, E7.
Qed.


(** *** What [UpdateWithFlavors] puts on record *)

Lemma visitFlavor_missing flavors l keys tas missing fName :
  fName ∈ (foldl (visitFlavor flavors) (keys, tas, missing) l).2 ↔
  fName ∈ missing ∨ (fName ∈ l ∧ flavors !! fName = None).
Proof. drop_unused.
  revert keys tas missing. induction l as [|f l IH]; intros keys tas missing; simpl.
  - rewrite elem_of_nil. tauto.
  - destruct (flavors !! f) as [flv|] eqn:Hf; rewrite IH, elem_of_cons.
    + clear IH. naive_solver.
    + rewrite elem_of_app, list_elem_of_singleton. clear IH. naive_solver.
Qed.

Lemma visitResourceGroup_missing flavors rgs0 l tas missing fName :
  fName ∈ (foldl (visitResourceGroup flavors) (rgs0, tas, missing) l).2 ↔
  fName ∈ missing
  ∨ ∃ rg, rg ∈ l ∧ fName ∈ Flavors rg ∧ flavors !! fName = None.
Proof. drop_unused.
  revert rgs0 tas missing. induction l as [|rg l IH]; intros rgs0 tas missing; simpl.
  - setoid_rewrite elem_of_nil. naive_solver.
  - setoid_rewrite elem_of_cons. destruct (length (Flavors rg) =? 0)%nat eqn:Hlen.
    + rewrite IH. apply Nat.eqb_eq, nil_length_inv in Hlen.
      split; [naive_solver|].
      intros [?|(rg' & [->|?] & Hin & ?)]; [tauto| |naive_solver].
      rewrite Hlen in Hin. by apply elem_of_nil in Hin.
    + pose proof (visitFlavor_missing flavors (Flavors rg) ∅ tas missing fName) as Hv.
      destruct (foldl (visitFlavor flavors) (∅, tas, missing) (Flavors rg))
        as [[keys tas'] missing'].
      simpl in Hv. rewrite IH, Hv. clear. naive_solver.
Qed.




(** ** Readiness *)

Lemma unsynced_topologies c (l : list (string * string)) :
  map snd
      (omap (fun '(tasFlavor, topology) =>
               if bool_decide (tasFlavor ∈ tasCache c) then None
               else Some (ClusterQueueActiveReasonTopologyNotFound,
                          "there is no Topology " +:+ fmtQ topology
                          +:+ " for TAS flavor " +:+ fmtQ tasFlavor)) l)
  = map (fun '(tasFlavor, topology) =>
           "there is no Topology " +:+ fmtQ topology
           +:+ " for TAS flavor " +:+ fmtQ tasFlavor)
        (List.filter (fun '(tasFlavor, _) => negb (bool_decide (tasFlavor ∈ tasCache c))) l)
  ∧ map fst
        (omap (fun '(tasFlavor, topology) =>
                 if bool_decide (tasFlavor ∈ tasCache c) then None
                 else Some (ClusterQueueActiveReasonTopologyNotFound,
                            "there is no Topology " +:+ fmtQ topology
                            +:+ " for TAS flavor " +:+ fmtQ tasFlavor)) l)
    = map (fun _ => ClusterQueueActiveReasonTopologyNotFound)
          (List.filter (fun '(tasFlavor, _) => negb (bool_decide (tasFlavor ∈ tasCache c))) l).
Proof.
  induction l as [|[tasFlavor topology] l [IH1 IH2]]; [done|]. simpl.
  destruct (bool_decide (tasFlavor ∈ tasCache c)); simpl.
  - split; [exact IH1|exact IH2].
  - split; (apply (f_equal2 cons); [reflexivity|]); [exact IH1|exact IH2].
Qed.

Lemma unsynced_filter_nil c :
  List.filter (fun '(tasFlavor, _) => negb (bool_decide (tasFlavor ∈ tasCache c)))
              (rangeTASFlavors (tasFlavors c)) = []
  ↔ isTASSynced c = true.
Proof using rangeTASFlavors_perm. drop_unused_variables.
  unfold isTASSynced. rewrite bool_decide_eq_true, map_Forall_to_list.
  rewrite <-(rangeTASFlavors_perm (tasFlavors c)).
  induction (rangeTASFlavors (tasFlavors c)) as [|[tasFlavor topology] l IH]; simpl.
  - split; [constructor|done].
  - rewrite Forall_cons. simpl. case_bool_decide; simpl; [tauto|].
    split; [done|tauto].
Qed.

(** The TAS part of [inactiveReason] appends something exactly when the TAS
    cause is on record, its first reason then being that of the cause and its
    messages those of the cause. *)
Lemma tasReasons_spec c :
  map snd (tasReasons c)
  = (if applicable c CauseTAS then causeMessages c CauseTAS else [])
  ∧ (applicable c CauseTAS = false → tasReasons c = [])
  ∧ (applicable c CauseTAS = true →
     ∃ message rest, tasReasons c = (causeReason c CauseTAS, message) :: rest).
Proof using rangeTASFlavors_perm.
  unfold tasReasons, applicable, causeReason, causeMessages.
  destruct (unsynced_topologies c (rangeTASFlavors (tasFlavors c))) as [Hs Hf].
  pose proof (unsynced_filter_nil c) as Hnil.
  destruct (TopologyAwareScheduling && (0 <? size (tasFlavors c))%nat); simpl;
    [|done].
  rewrite !map_app, Hs.
  destruct (0 <? length (multiKueueAdmissionChecks c))%nat,
    (0 <? length (provisioningAdmissionChecks c))%nat; simpl;
    try (split_and!; [done|done|eauto]).
  destruct (isTASSynced c) eqn:Hsync; simpl.
  - assert (Hn := proj2 Hnil eq_refl). rewrite Hn in *. simpl in *.
    split_and!; [done| |done]. intros _.
    destruct (omap _ _); [done|]. discriminate.
  - split_and!; [done|done|]. intros _.
    assert (List.filter
              (fun '(tasFlavor, _) => negb (bool_decide (tasFlavor ∈ tasCache c)))
              (rangeTASFlavors (tasFlavors c)) ≠ []) as Hne.
    { intros E. apply Hnil in E. congruence. }
    clear Hnil. destruct (List.filter _ _) as [|x l]; [done|].
    simpl in Hf. destruct (omap _ _) as [|[r m] rest]; [done|].
    simpl in Hf. injection Hf as -> _. eauto.
Qed.

Lemma inactiveReason_pending c :
  Status c = pending → inactiveReason c = pendingReason c.
Proof using rangeTASFlavors_perm.
  intros Hst. unfold inactiveReason, pendingReason, causeOrder. rewrite Hst.
  cbn [List.filter].
  change (applicable c CauseStopped) with (isStopped c).
  change (applicable c CauseMissingFlavors) with (0 <? length (missingFlavors c))%nat.
  change (applicable c CauseMissingAdmissionChecks)
    with (0 <? length (missingAdmissionChecks c))%nat.
  change (applicable c CauseInactiveAdmissionChecks)
    with (0 <? length (inactiveAdmissionChecks c))%nat.
  change (applicable c CauseMultipleMultiKueue)
    with (1 <? length (multiKueueAdmissionChecks c))%nat.
  change (applicable c CausePerFlavorMultiKueue)
    with (0 <? length (perFlavorMultiKueueAdmissionChecks c))%nat.
  change (applicable c CauseMultipleSingleInstance)
    with (0 <? size (multipleSingleInstanceControllersChecks c))%nat.
  change (applicable c CauseFlavorIndependentPerFlavor)
    with (0 <? length (flavorIndependentAdmissionCheckAppliedPerFlavor c))%nat.
  destruct (tasReasons_spec c) as (Hmsg & Hoff & Hon).
  destruct (applicable c CauseTAS) eqn:Htas.
  - destruct (Hon eq_refl) as (message & rest & Htr). clear Hon Hoff.
    change (map snd (tasReasons c) = causeMessages c CauseTAS) in Hmsg.
    destruct (isStopped c),
      (0 <? length (missingFlavors c))%nat,
      (0 <? length (missingAdmissionChecks c))%nat,
      (0 <? length (inactiveAdmissionChecks c))%nat,
      (1 <? length (multiKueueAdmissionChecks c))%nat,
      (0 <? length (perFlavorMultiKueueAdmissionChecks c))%nat,
      (0 <? size (multipleSingleInstanceControllersChecks c))%nat,
      (0 <? length (flavorIndependentAdmissionCheckAppliedPerFlavor c))%nat;
      cbn [map concat]; rewrite <-Hmsg, Htr; cbn [app map fst snd];
      rewrite ?app_nil_r, <-?app_assoc; reflexivity.
  - rewrite (Hoff eq_refl). clear Hon Hoff Hmsg.
    destruct (isStopped c),
      (0 <? length (missingFlavors c))%nat,
      (0 <? length (missingAdmissionChecks c))%nat,
      (0 <? length (inactiveAdmissionChecks c))%nat,
      (1 <? length (multiKueueAdmissionChecks c))%nat,
      (0 <? length (perFlavorMultiKueueAdmissionChecks c))%nat,
      (0 <? size (multipleSingleInstanceControllersChecks c))%nat,
      (0 <? length (flavorIndependentAdmissionCheckAppliedPerFlavor c))%nat;
      cbn [map concat app fst snd];
      rewrite ?app_nil_r, <-?app_assoc; reflexivity.
Qed.

Lemma causeReason_in_reasonCodes c cause : causeReason c cause ∈ reasonCodes.
Proof.
  unfold reasonCodes. destruct cause; simpl; repeat case_match; repeat constructor.
Qed.

(** C3: for a pending queue [inactiveReason] gives the reason code of the
    first cause on record, in the order stopped, missing flavors, missing
    admission checks, inactive admission checks, several MultiKueue checks,
    MultiKueue check per flavor, several checks of a single-instance
    controller, flavor-independent check per flavor, TAS, together with the
    messages of all causes on record in that order, and Unknown when no cause
    is on record; it gives Ready for an active queue and Terminating for a
    terminating one; the reason code is always one of the enumerated codes. *)
Theorem inactiveReason_first_cause_all_messages (c : clusterQueue) :
  (Status c = pending → inactiveReason c = pendingReason c)
  ∧ (Status c = active →
     inactiveReason c = (ClusterQueueActiveReasonReady, "Can admit new workloads"))
  ∧ (Status c = terminating →
     inactiveReason c
     = (ClusterQueueActiveReasonTerminating,
        "Can't admit new workloads; clusterQueue is terminating"))
  ∧ fst (inactiveReason c) ∈ reasonCodes.
Proof using rangeTASFlavors_perm.
  split_and!.
  - apply inactiveReason_pending.
  - intros Hst. unfold inactiveReason. by rewrite Hst.
  - apply inactiveReason_terminating.
  - destruct (Status c) eqn:Hst.
    + rewrite inactiveReason_pending by done. unfold pendingReason.
      destruct (List.filter _ _) as [|cause causes]; simpl.
      * unfold reasonCodes. repeat constructor.
      * apply causeReason_in_reasonCodes.
    + unfold inactiveReason. rewrite Hst. unfold reasonCodes. repeat constructor.
    + rewrite inactiveReason_terminating by done.
      unfold reasonCodes. repeat constructor.
    + unfold inactiveReason. rewrite Hst. unfold reasonCodes. repeat constructor.
Qed.

(** ** The generation of allocatable resources *)

Lemma advances_refl c : advances 0 0 c c.
Proof.
  split; [|lia]. intros Hi. exists 0. split; [lia|].
  rewrite Z.add_0_r. symmetry. by apply wrap64_id.
Qed.

Lemma advances_weaken lo hi lo' hi' c c' :
  (lo' ≤ lo)%nat → (hi ≤ hi')%nat → advances lo hi c c' → advances lo' hi' c c'.
Proof.
  intros Hlo Hhi [Hg Hs]. split; [|lia].
  intros Hi. destruct (Hg Hi) as (d & Hd & ->). exists d. split; [lia|done].
Qed.

Lemma advances_trans lo1 hi1 lo2 hi2 c c1 c2 :
  advances lo1 hi1 c c1 → advances lo2 hi2 c1 c2 →
  advances (lo1 + lo2) (hi1 + hi2) c c2.
Proof.
  intros [Hg1 Hs1] [Hg2 Hs2]. split; [|lia].
  intros Hi. destruct (Hg1 Hi) as (d1 & Hd1 & E1).
  destruct Hg2 as (d2 & Hd2 & E2); [rewrite E1; apply wrap64_range|].
  exists (d1 + d2). split; [lia|].
  rewrite E2, E1, wrap64_add_l. f_equal. lia.
Qed.

(** Two queues with the same generation and the same workloads. *)
Lemma advances_same lo hi c c1 c2 :
  AllocatableResourceGeneration c2 = AllocatableResourceGeneration c1 →
  Workloads c2 = Workloads c1 →
  advances lo hi c c1 → advances lo hi c c2.
Proof. intros Hg Hw [? ?]. split; by rewrite ?Hg, ?Hw. Qed.

Lemma deleteWorkload_advances c w :
  advances (match Workloads c !! Key w with Some _ => 1 | None => 0 end) 1 c
    (deleteWorkload c w).
Proof.
  destruct (Workloads c !! Key w) as [wi|] eqn:Hw.
  - destruct (deleteWorkload_present c w wi Hw) as (HW & _ & _ & HG & _).
    split.
    + intros _. exists 1. split; [lia|done].
    + rewrite HW, map_size_delete, Hw. lia.
  - rewrite deleteWorkload_absent by done.
    apply (advances_weaken 0 0); [lia..|apply advances_refl].
Qed.

Lemma addOrUpdateWorkload_advances c w : advances 0 1 c (addOrUpdateWorkload c w).
Proof.
  rewrite addOrUpdateWorkload_delete_first.
  destruct (addOrUpdateWorkload_absent _ w (deleteWorkload_lookup c w))
    as (HW & _ & _ & HG & _).
  destruct (deleteWorkload_advances c w) as [Hg Hs]. split.
  - intros Hi. destruct (Hg Hi) as (d & Hd & E). exists d.
    split; [destruct (Workloads c !! Key w); lia|]. by rewrite HG.
  - rewrite HW, map_size_insert, deleteWorkload_lookup.
    destruct (Workloads c !! Key w) as [wi|] eqn:Hw.
    + destruct (deleteWorkload_present c w wi Hw) as (HW' & _).
      rewrite HW', map_size_delete, Hw.
      assert (size (Workloads c) ≠ 0)%nat; [|lia].
      intros Hz. apply map_size_empty_inv in Hz. by rewrite Hz, lookup_empty in Hw.
    + rewrite deleteWorkload_absent by done. lia.
Qed.

Lemma reAddDeferred_advances k w c : advances 0 1 c (reAddDeferred k w c).
Proof.
  unfold reAddDeferred. case_bool_decide.
  - eapply advances_same; [| |apply (addOrUpdateWorkload_advances c (Obj w))]; done.
  - apply (advances_weaken 0 0); [lia..|apply advances_refl].
Qed.

Lemma reAddDeferred_loop_advances ws c :
  advances 0 (size ws) c (map_fold reAddDeferred c ws).
Proof.
  induction ws as [|k w ws Hk Hfold IH] using gmap_fold_ind.
  - rewrite map_fold_empty, map_size_empty. apply advances_refl.
  - rewrite Hfold, map_size_insert_None by done.
    eapply (advances_weaken (0 + 0) (size ws + 1)); [lia..|].
    eapply advances_trans; [apply IH|apply reAddDeferred_advances].
Qed.

Lemma updateQueueStatus_advances c :
  advances 0 (size (Workloads c)) c (updateQueueStatus c).
Proof.
  unfold updateQueueStatus.
  match goal with
  | |- context [if ?b then map_fold reAddDeferred c (Workloads c) else c] =>
      set (c1 := if b then map_fold reAddDeferred c (Workloads c) else c)
  end.
  assert (advances 0 (size (Workloads c)) c c1) as Hadv.
  { subst c1. case_match; [apply reAddDeferred_loop_advances|].
    apply (advances_weaken 0 0); [lia..|apply advances_refl]. }
  clearbody c1. case_bool_decide; [|done].
  eapply advances_same; [| |exact Hadv]; done.
Qed.

Lemma updateLabelKeys_generation c flavors :
  AllocatableResourceGeneration (updateLabelKeys c flavors)
  = AllocatableResourceGeneration c
  ∧ Workloads (updateLabelKeys c flavors) = Workloads c.
Proof. unfold updateLabelKeys. by repeat case_match. Qed.

Lemma UpdateWithFlavors_advances c flavors :
  advances 0 (size (Workloads c)) c (UpdateWithFlavors c flavors).
Proof.
  unfold UpdateWithFlavors.
  destruct (updateLabelKeys_generation c flavors) as [Hg Hw].
  pose proof (updateQueueStatus_advances (updateLabelKeys c flavors)) as [Ha Hs].
  rewrite Hg, Hw in *. by split.
Qed.

Lemma updateWithAdmissionChecks_advances c checks :
  advances 0 (size (Workloads c)) c (updateWithAdmissionChecks c checks).
Proof.
  destruct (updateWithAdmissionChecks_unfold c checks)
    as (x & update & -> & _ & _ & _ & _ & _ & _ & _ & _ & _ & _ & _ & _ & _ & Hg & Hw).
  destruct update.
  - pose proof (updateQueueStatus_advances x) as [Ha Hs].
    rewrite Hg, Hw in *. by split.
  - split; rewrite ?Hg, ?Hw; [|lia]. intros Hi. exists 0. split; [lia|].
    rewrite Z.add_0_r. symmetry. by apply wrap64_id.
Qed.

(** [updateClusterQueue]: the generation advances, by one at least when the
    update succeeds and found the quotas or the resource groups changed. *)
Lemma updateClusterQueue_advances c spec resourceFlavors admissionChecks edge :
  let r := updateClusterQueue c spec resourceFlavors admissionChecks edge in
  advances
    (if (snd (updateQuotasAndResourceGroups c (specResourceGroups spec))
         || parentChanged edge)
        && negb (hasParent edge && bool_decide (is_Some (treeUpdateError edge)))
     then 1 else 0)
    (3 * size (Workloads c) + 2) c (fst r).
Proof.
  cbv zeta. unfold updateClusterQueue.
  destruct (updateQuotasAndResourceGroups c (specResourceGroups spec))
    as [c1 changed] eqn:Hq.
  assert (AllocatableResourceGeneration c1 = AllocatableResourceGeneration c
          ∧ Workloads c1 = Workloads c) as [Hg1 Hw1].
  { unfold updateQuotasAndResourceGroups in Hq. by injection Hq as <- _. }
  set (n := size (Workloads c)).
  assert (∀ lo c2,
            advances lo 2 c c2 → Workloads c2 = Workloads c →
            advances lo (3 * n + 2) c
              (updateWithAdmissionChecks
                 (UpdateWithFlavors
                    (set_AdmissionChecks (specAdmissionChecks spec)
                       (set_isStopped
                          (negb (bool_decide
                                   (default StopPolicyNone (specStopPolicy spec)
                                    = StopPolicyNone))) c2))
                    resourceFlavors) admissionChecks)) as Hrest.
  { intros lo c2 Hc2 Hw2.
    match goal with
    | |- advances _ _ _ (updateWithAdmissionChecks (UpdateWithFlavors ?x ?f) ?a) =>
        pose proof (UpdateWithFlavors_advances x f) as H1;
        pose proof (updateWithAdmissionChecks_advances (UpdateWithFlavors x f) a) as H2;
        assert (advances lo 2 c x) as H0
          by (eapply advances_same; [| |exact Hc2]; done)
    end.
    pose proof (advances_trans _ _ _ _ _ _ _ H0 H1) as H01.
    pose proof (advances_trans _ _ _ _ _ _ _ H01 H2) as H012.
    destruct H1 as [_ Hs1]. simpl in Hs1. rewrite Hw2 in Hs1. fold n in Hs1.
    eapply advances_weaken; [| |exact H012]; simpl; rewrite ?Hw2; fold n; lia. }
  assert (advances 0 0 c c1) as Hsame.
  { eapply advances_same; [exact Hg1|exact Hw1|apply advances_refl]. }
  assert (∀ x, advances 1 1 x (updateClusterQueueResourceNode x)) as Hbump.
  { intros x. split; simpl; [|lia]. intros _. exists 1. split; [lia|done]. }
  simpl. destruct (changed || parentChanged edge) eqn:Hch; simpl.
  - set (c2 := if hasOldParent edge && parentChanged edge
               then if oldParentTreeHoldsQueue edge
                    then updateClusterQueueResourceNode c1 else c1
               else c1).
    assert (advances 0 1 c c2 ∧ Workloads c2 = Workloads c) as [Hold Hw2].
    { subst c2. destruct (hasOldParent edge && parentChanged edge);
        [destruct (oldParentTreeHoldsQueue edge)|]; (split; [|done]).
      - apply (advances_weaken 1 1); [lia..|].
        apply (advances_trans 0 0 1 1 _ _ _ Hsame (Hbump c1)).
      - eapply advances_weaken; [| |exact Hsame]; lia.
      - eapply advances_weaken; [| |exact Hsame]; lia. }
    clearbody c2.
    pose proof (advances_trans _ _ _ _ _ _ _ Hold (Hbump c2)) as Hnew.
    simpl in Hnew.
    destruct (hasParent edge); [destruct (treeUpdateError edge)|]; simpl.
    + try (rewrite bool_decide_eq_true_2 by done); simpl.
      eapply advances_weaken; [| |exact Hold]; lia.
    + try (rewrite bool_decide_eq_false_2 by (by intros [? ?])); simpl.
      destruct (specNamespaceSelector spec); simpl.
      * eapply advances_weaken; [| |exact Hnew]; lia.
      * apply (Hrest 1%nat); [exact Hnew|exact Hw2].
    + destruct (specNamespaceSelector spec); simpl.
      * eapply advances_weaken; [| |exact Hnew]; lia.
      * apply (Hrest 1%nat); [exact Hnew|exact Hw2].
  - destruct (specNamespaceSelector spec); simpl.
    + eapply advances_weaken; [| |exact Hsame]; lia.
    + apply (Hrest 0%nat); [|exact Hw1].
      eapply advances_weaken; [| |exact Hsame]; lia.
Qed.

Lemma advances_le lo hi c c' :
  advances lo hi c c' →
  is_int64 (AllocatableResourceGeneration c) →
  AllocatableResourceGeneration c + Z.of_nat hi ≤ max_int64 →
  AllocatableResourceGeneration c + Z.of_nat lo ≤ AllocatableResourceGeneration c'.
Proof.
  intros [Hg _] Hi Hmax. destruct (Hg Hi) as (d & Hd & ->).
  rewrite wrap64_id; [lia|]. unfold is_int64 in *. lia.
Qed.

Lemma applyQueueOp_advances c op :
  advances 0 (3 * size (Workloads c) + 2) c (applyQueueOp c op).
Proof.
  assert (∀ c', advances 0 0 c c' → advances 0 (3 * size (Workloads c) + 2) c c')
    as Hzero by (intros c'; apply advances_weaken; lia).
  assert (∀ lo c', advances lo 1 c c' → advances 0 (3 * size (Workloads c) + 2) c c')
    as Hone by (intros lo c'; apply advances_weaken; lia).
  assert (∀ c', advances 0 (size (Workloads c)) c c' →
                advances 0 (3 * size (Workloads c) + 2) c c')
    as Hsize by (intros c'; apply advances_weaken; lia).
  destruct op as [spec rf ac edge|rgs| |fl|fl|checks|w|w|w|w|q|q]; simpl.
  - eapply advances_weaken; [| |apply updateClusterQueue_advances]; lia.
  - apply Hzero. eapply advances_same; [| |apply advances_refl]; done.
  - apply Hsize, updateQueueStatus_advances.
  - apply Hsize, UpdateWithFlavors_advances.
  - apply Hzero.
    destruct (updateLabelKeys_generation c fl) as [Hg Hw].
    eapply advances_same; [exact Hg|exact Hw|apply advances_refl].
  - apply Hsize, updateWithAdmissionChecks_advances.
  - unfold addWorkload. destruct (Workloads c !! Key w); simpl.
    + apply Hzero, advances_refl.
    + eapply Hone, addOrUpdateWorkload_advances.
  - eapply Hone, addOrUpdateWorkload_advances.
  - eapply Hone. unfold forgetWorkload.
    eapply advances_same; [| |apply (deleteWorkload_advances c w)]; done.
  - eapply Hone, deleteWorkload_advances.
  - unfold addLocalQueue. destruct (localQueues c !! queueKey q); simpl.
    + apply Hzero, advances_refl.
    + apply Hzero. eapply advances_same; [| |apply advances_refl]; done.
  - apply Hzero. eapply advances_same; [| |apply advances_refl]; done.
Qed.

(** *** The quotas through the updates *)

Lemma updateWorkloadUsage_Quotas c wi (m : Z) :
  m = 1 ∨ m = -1 →
  Quotas (resourceNode (updateWorkloadUsage c wi m)) = Quotas (resourceNode c).
Proof.
  intros Hm. unfold updateWorkloadUsage. rewrite usage_loop by done.
  unfold updateWorkloadTASUsage. repeat case_match; done.
Qed.

Lemma deleteWorkload_Quotas c w :
  Quotas (resourceNode (deleteWorkload c w)) = Quotas (resourceNode c).
Proof.
  unfold deleteWorkload. destruct (Workloads c !! Key w) as [wi|]; [|done].
  assert (Hm : -1 = 1 ∨ -1 = -1) by (by right).
  pose proof (updateWorkloadUsage_Quotas c wi (-1) Hm) as HQ.
  by case_match.
Qed.

Lemma addOrUpdateWorkload_Quotas c w :
  Quotas (resourceNode (addOrUpdateWorkload c w)) = Quotas (resourceNode c).
Proof.
  unfold addOrUpdateWorkload.
  assert (Hm : 1 = 1 ∨ 1 = -1) by (by left).
  set (c1 := match Workloads c !! Key w with
             | Some _ => deleteWorkload c w
             | None => c
             end).
  assert (Quotas (resourceNode c1) = Quotas (resourceNode c)) as H1.
  { subst c1. case_match; [apply deleteWorkload_Quotas|done]. }
  clearbody c1.
  pose proof (updateWorkloadUsage_Quotas
                (set_Workloads (<[Key w := NewInfo w]> (Workloads c1)) c1)
                (NewInfo w) 1 Hm) as HQ.
  simpl in *. case_match; simpl; by rewrite HQ.
Qed.

Lemma reAddDeferred_loop_Quotas ws c :
  Quotas (resourceNode (map_fold reAddDeferred c ws)) = Quotas (resourceNode c).
Proof.
  induction ws as [|k w ws Hk Hfold IH] using gmap_fold_ind.
  - by rewrite map_fold_empty.
  - rewrite Hfold. unfold reAddDeferred at 1. case_bool_decide; [|done].
    simpl. by rewrite addOrUpdateWorkload_Quotas.
Qed.

Lemma updateQueueStatus_Quotas c :
  Quotas (resourceNode (updateQueueStatus c)) = Quotas (resourceNode c).
Proof.
  unfold updateQueueStatus.
  match goal with
  | |- context [if ?b then map_fold reAddDeferred c (Workloads c) else c] =>
      set (c1 := if b then map_fold reAddDeferred c (Workloads c) else c)
  end.
  assert (Quotas (resourceNode c1) = Quotas (resourceNode c)) as HQ.
  { subst c1. case_match; [apply reAddDeferred_loop_Quotas|done]. }
  clearbody c1. by case_bool_decide.
Qed.

Lemma UpdateWithFlavors_Quotas c flavors :
  Quotas (resourceNode (UpdateWithFlavors c flavors)) = Quotas (resourceNode c).
Proof.
  unfold UpdateWithFlavors. rewrite updateQueueStatus_Quotas.
  unfold updateLabelKeys. by repeat case_match.
Qed.

Lemma updateWithAdmissionChecks_Quotas c checks :
  Quotas (resourceNode (updateWithAdmissionChecks c checks)) = Quotas (resourceNode c).
Proof.
  unfold updateWithAdmissionChecks.
  set (s := scanAdmissionChecks c checks).
  destruct AdmissionCheckValidationRules;
    repeat (case_bool_decide; simpl); rewrite ?updateQueueStatus_Quotas; done.
Qed.

(** [updateClusterQueue] installs the quotas of the spec, whatever it
    returns. *)
Lemma updateClusterQueue_installs c spec resourceFlavors admissionChecks edge :
  Quotas (resourceNode
            (fst (updateClusterQueue c spec resourceFlavors admissionChecks edge)))
  = createResourceQuotas (specResourceGroups spec).
Proof.
  unfold updateClusterQueue, updateQuotasAndResourceGroups.
  match goal with
  | |- context [if ?b then _ else (_, None)] => destruct b
  end.
  - destruct (hasOldParent edge && parentChanged edge);
      [destruct (oldParentTreeHoldsQueue edge)|];
      (destruct (hasParent edge); [destruct (treeUpdateError edge)|]);
      simpl; try done;
      (destruct (specNamespaceSelector spec); simpl; [done|]);
      by rewrite updateWithAdmissionChecks_Quotas, UpdateWithFlavors_Quotas.
  - simpl. destruct (specNamespaceSelector spec); simpl; [done|].
    by rewrite updateWithAdmissionChecks_Quotas, UpdateWithFlavors_Quotas.
Qed.

(** The counter after an [updateClusterQueue] that finds a change and whose
    update of the tree of the parent fails. *)
Lemma updateClusterQueue_failed_tree_update c spec resourceFlavors admissionChecks edge :
  snd (updateQuotasAndResourceGroups c (specResourceGroups spec))
  || parentChanged edge = true →
  treeUpdateFails edge = true →
  snd (updateClusterQueue c spec resourceFlavors admissionChecks edge)
  = treeUpdateError edge
  ∧ AllocatableResourceGeneration
      (fst (updateClusterQueue c spec resourceFlavors admissionChecks edge))
    = (if hasOldParent edge && parentChanged edge && oldParentTreeHoldsQueue edge
       then wrap64 (AllocatableResourceGeneration c + 1)
       else AllocatableResourceGeneration c).
Proof.
  unfold treeUpdateFails, updateClusterQueue.
  destruct (updateQuotasAndResourceGroups c (specResourceGroups spec))
    as [c1 changed] eqn:Hq.
  assert (AllocatableResourceGeneration c1 = AllocatableResourceGeneration c) as Hg1.
  { unfold updateQuotasAndResourceGroups in Hq. by injection Hq as <- _. }
  simpl. intros -> [-> [err ->]%bool_decide_eq_true]%andb_true_iff.
  destruct (hasOldParent edge && parentChanged edge);
    [destruct (oldParentTreeHoldsQueue edge)|]; simpl; rewrite ?Hg1; by split.
Qed.

(** C5, as amended: while the int64 counter has room for the bumps of one
    operation, no operation on the queue lowers AllocatableResourceGeneration.
    Deleting or forgetting a workload that the queue holds raises it.  An
    [updateClusterQueue] whose spec brings quotas or resource groups other
    than those that the queue has installs the quotas of the spec and raises
    the counter, unless the queue has a parent and the update of the tree of
    the parent fails: the quotas of the spec are then installed while the
    counter stays, but for the bump that the update of the tree of an old
    parent may have made, and the error of the update is returned.
    [updateQuotasAndResourceGroups] on its own installs the quotas and the
    resource groups and leaves the counter. *)
Theorem generation_never_decreases (c : clusterQueue) (op : QueueOp) :
  is_int64 (AllocatableResourceGeneration c) →
  AllocatableResourceGeneration c + 3 * Z.of_nat (size (Workloads c)) + 2
    ≤ max_int64 →
  AllocatableResourceGeneration c
    ≤ AllocatableResourceGeneration (applyQueueOp c op)
  ∧ (∀ w, op = DoDeleteWorkload w ∨ op = DoForgetWorkload w →
          is_Some (Workloads c !! Key w) →
          AllocatableResourceGeneration c
            < AllocatableResourceGeneration (applyQueueOp c op))
  ∧ (∀ spec resourceFlavors admissionChecks edge,
       op = DoUpdateClusterQueue spec resourceFlavors admissionChecks edge →
       quotaChange c spec →
       let c' := applyQueueOp c op in
       Quotas (resourceNode c') = createResourceQuotas (specResourceGroups spec)
       ∧ (treeUpdateFails edge = false →
          AllocatableResourceGeneration c < AllocatableResourceGeneration c')
       ∧ (treeUpdateFails edge = true →
          snd (updateClusterQueue c spec resourceFlavors admissionChecks edge)
          = treeUpdateError edge
          ∧ is_Some (treeUpdateError edge)
          ∧ AllocatableResourceGeneration c'
            = (if hasOldParent edge && parentChanged edge
                  && oldParentTreeHoldsQueue edge
               then AllocatableResourceGeneration c + 1
               else AllocatableResourceGeneration c)))
  ∧ (∀ kueueRgs,
       op = DoUpdateQuotasAndResourceGroups kueueRgs →
       let c' := applyQueueOp c op in
       Quotas (resourceNode c') = createResourceQuotas kueueRgs
       ∧ ResourceGroups c' = createdResourceGroups kueueRgs
       ∧ AllocatableResourceGeneration c' = AllocatableResourceGeneration c).
Proof.
  intros Hi Hmax. split_and!.
  - pose proof (advances_le _ _ _ _ (applyQueueOp_advances c op) Hi) as Hle.
    lia.
  - intros w Hop [wi Hw].
    pose proof (deleteWorkload_advances c w) as Hadv. rewrite Hw in Hadv.
    apply advances_le in Hadv; [|done|lia].
    destruct Hop as [-> | ->]; simpl; [lia|].
    unfold forgetWorkload. simpl. lia.
  - intros spec rf ac edge -> Hchange. cbv zeta. simpl.
    assert (snd (updateQuotasAndResourceGroups c (specResourceGroups spec)) = true)
      as Hflag.
    { unfold updateQuotasAndResourceGroups. simpl.
      destruct Hchange as [Hq|Hrg].
      - rewrite (bool_decide_eq_false_2 (Quotas (resourceNode c) = _)) by done.
        by rewrite orb_true_r.
      - rewrite (bool_decide_eq_false_2 (ResourceGroups c = _)) by done.
        by rewrite orb_true_r. }
    split_and!; [apply updateClusterQueue_installs| |].
    + intros Hfails.
      pose proof (updateClusterQueue_advances c spec rf ac edge) as Hadv.
      cbv zeta in Hadv. unfold treeUpdateFails in Hfails.
      rewrite Hflag, Hfails in Hadv. simpl in Hadv.
      apply advances_le in Hadv; [|done|lia]. simpl in *. lia.
    + intros Hfails.
      destruct (updateClusterQueue_failed_tree_update c spec rf ac edge)
        as [Herr Hgen]; [by rewrite Hflag|done|].
      split_and!; [exact Herr| |].
      * unfold treeUpdateFails in Hfails.
        apply andb_true_iff in Hfails as [_ Hsome].
        by apply bool_decide_eq_true in Hsome.
      * rewrite Hgen. case_match; [|done].
        rewrite wrap64_id; [done|]. unfold is_int64, min_int64 in *. lia.
  - intros kueueRgs ->. by cbv zeta.
Qed.

End Cache.

(** * Further properties of the queue *)

(** ** Flavors in use *)

Lemma flavorInUse_references (c : clusterQueue) (flavor : string) :
  flavorInUse c flavor = true ↔ referencesFlavor c flavor.
Proof.
  unfold flavorInUse, referencesFlavor. rewrite existsb_exists. split.
  - intros (rg & Hrg & Hin). apply existsb_exists in Hin as (fName & HfName & Heq).
    apply bool_decide_eq_true in Heq as ->.
    exists rg. by rewrite !list_elem_of_In.
  - intros (rg & Hrg & Hin). exists rg. split; [by apply list_elem_of_In|].
    apply existsb_exists. exists flavor.
    split; [by apply list_elem_of_In|by apply bool_decide_eq_true].
Qed.

Lemma createdResourceGroups_flavor (kueueRgs : list KResourceGroup) (fName : string) :
  (∃ rg, rg ∈ createdResourceGroups kueueRgs ∧ fName ∈ Flavors rg)
  ↔ ∃ kueueRg kueueFlavor,
      kueueRg ∈ kueueRgs ∧ kueueFlavor ∈ rgFlavors kueueRg
      ∧ fqName kueueFlavor = fName.
Proof.
  unfold createdResourceGroups. split.
  - intros (rg & Hrg & Hin). apply list_elem_of_fmap in Hrg as (kueueRg & -> & HkueueRg).
    simpl in Hin. apply list_elem_of_fmap in Hin as (kueueFlavor & -> & HkueueFlavor).
    by exists kueueRg, kueueFlavor.
  - intros (kueueRg & kueueFlavor & HkueueRg & HkueueFlavor & <-).
    eexists. split; [apply list_elem_of_fmap; by exists kueueRg|].
    simpl. apply list_elem_of_fmap. by exists kueueFlavor.
Qed.

(** ** Label keys, TAS flavors and missing flavors *)

Lemma visitFlavor_fold (flavors : gmap string ResourceFlavor) (l : list string)
    (keys : gset string) (tas : gmap string string) (missing : list string) :
  let r := foldl (visitFlavor flavors) (keys, tas, missing) l in
  (∀ key, key ∈ r.1.1 ↔
     key ∈ keys ∨ ∃ fName flv, fName ∈ l ∧ flavors !! fName = Some flv
                               ∧ key ∈ dom (NodeLabels flv))
  ∧ ((∀ fName topology, tas !! fName = Some topology →
                        flavorTopology flavors fName topology) →
     ∀ fName topology,
       r.1.2 !! fName = Some topology ↔
       tas !! fName = Some topology
       ∨ (fName ∈ l ∧ flavorTopology flavors fName topology)).
Proof.
  revert keys tas missing.
  induction l as [|fName0 l IH]; intros keys tas missing; cbv zeta; cbn [foldl].
  - split.
    + intros key. split; [by left|].
      intros [?|(fName & flv & Hin & _)]; [done|by apply elem_of_nil in Hin].
    + intros _ fName topology. split; [by left|].
      intros [?|[Hin _]]; [done|by apply elem_of_nil in Hin].
  - assert (visitFlavor flavors (keys, tas, missing) fName0
            = match flavors !! fName0 with
              | Some flv =>
                  (keys ∪ dom (NodeLabels flv),
                   match TopologyName flv with
                   | Some topology => <[fName0 := topology]> tas
                   | None => tas
                   end, missing)
              | None => (keys, tas, missing ++ [fName0])
              end) as -> by reflexivity.
    destruct (flavors !! fName0) as [flv0|] eqn:Hflv0.
    + match goal with
      | |- context [foldl _ (?k, ?t, ?m) l] => destruct (IH k t m) as [IHk IHt]
      end.
      split.
      * intros key. rewrite IHk, elem_of_union.
        setoid_rewrite elem_of_cons. naive_solver.
      * intros Htas fName topology. rewrite IHt.
        -- setoid_rewrite elem_of_cons.
           destruct (TopologyName flv0) as [topology0|] eqn:Htop0.
           ++ rewrite lookup_insert. case_decide as Heq.
              ** subst fName. unfold flavorTopology. split.
                 --- intros [[= <-]|[Hin Hft]]; [|naive_solver].
                     right. split; [by left|by exists flv0].
                 --- intros [Hold|[_ Hft]].
                     +++ apply Htas in Hold as (flv & Hflv & Htop).
                         left. congruence.
                     +++ destruct Hft as (flv & Hflv & Htop). left. congruence.
              ** naive_solver.
           ++ unfold flavorTopology. naive_solver.
        -- intros fName' topology'.
           destruct (TopologyName flv0) as [topology0|] eqn:Htop0; [|by apply Htas].
           rewrite lookup_insert. case_decide as Heq; [|by apply Htas].
           intros [= <-]. subst fName'. by exists flv0.
    + destruct (IH keys tas (missing ++ [fName0])) as [IHk IHt].
      split.
      * intros key. rewrite IHk. setoid_rewrite elem_of_cons. naive_solver.
      * intros Htas fName topology. rewrite (IHt Htas).
        setoid_rewrite elem_of_cons. unfold flavorTopology. naive_solver.
Qed.

Lemma visitResourceGroup_step (flavors : gmap string ResourceFlavor)
    (rgs : list ResourceGroup) (tas : gmap string string) (missing : list string)
    (rg : ResourceGroup) :
  (∀ fName topology, tas !! fName = Some topology →
                     flavorTopology flavors fName topology) →
  ∃ rg' tas' missing',
    visitResourceGroup flavors (rgs, tas, missing) rg = (rgs ++ [rg'], tas', missing')
    ∧ relabelled flavors rg rg'
    ∧ (∀ fName topology,
         tas' !! fName = Some topology ↔
         tas !! fName = Some topology
         ∨ (fName ∈ Flavors rg ∧ flavorTopology flavors fName topology)).
Proof.
  intros Htas. unfold visitResourceGroup.
  destruct (Flavors rg) as [|fName0 l] eqn:Hflavors.
  - simpl. eexists _, tas, missing. split; [reflexivity|]. split.
    + unfold relabelled. simpl. rewrite Hflavors. by split_and!.
    + intros fName topology. split; [by left|].
      intros [?|[Hin _]]; [done|by apply elem_of_nil in Hin].
  - rewrite <-Hflavors.
    assert ((length (Flavors rg) =? 0)%nat = false) as ->
      by (rewrite Hflavors; reflexivity).
    pose proof (visitFlavor_fold flavors (Flavors rg) ∅ tas missing) as Hfold.
    destruct (foldl (visitFlavor flavors) (∅, tas, missing) (Flavors rg))
      as [[keys tas'] missing'].
    cbv zeta in Hfold. simpl in Hfold. destruct Hfold as [Hkeys Htas'].
    eexists _, tas', missing'. split; [reflexivity|]. split; [|by apply Htas'].
    assert (∀ key, key ∈ keys ↔ nodeLabelKey flavors rg key) as Hkeys'.
    { intros key. rewrite Hkeys. unfold nodeLabelKey. set_solver. }
    assert (Flavors rg ≠ []) as Hne by (by rewrite Hflavors).
    destruct (0 <? size keys)%nat eqn:Hsize.
    + apply Nat.ltb_lt in Hsize.
      unfold relabelled. simpl. split_and!; [done|done|done|..].
      * intros _ _ key. apply Hkeys'.
      * intros _ Hno. exfalso. apply Hno.
        apply size_pos_elem_of in Hsize as [key Hkey]. exists key. by apply Hkeys'.
    + apply Nat.ltb_ge in Hsize.
      assert (keys = ∅) as Hempty.
      { apply leibniz_equiv, size_empty_inv. lia. }
      unfold relabelled. split_and!; [done|done|done|..].
      * intros _ [key Hkey]. apply Hkeys' in Hkey. rewrite Hempty in Hkey.
        by apply not_elem_of_empty in Hkey.
      * done.
Qed.

Lemma visitResourceGroup_fold (flavors : gmap string ResourceFlavor)
    (l rgs : list ResourceGroup) (tas : gmap string string) (missing : list string) :
  (∀ fName topology, tas !! fName = Some topology →
                     flavorTopology flavors fName topology) →
  ∃ rgs' tas' missing',
    foldl (visitResourceGroup flavors) (rgs, tas, missing) l = (rgs ++ rgs', tas', missing')
    ∧ Forall2 (relabelled flavors) l rgs'
    ∧ (∀ fName topology,
         tas' !! fName = Some topology ↔
         tas !! fName = Some topology
         ∨ ((∃ rg, rg ∈ l ∧ fName ∈ Flavors rg)
            ∧ flavorTopology flavors fName topology)).
Proof.
  revert rgs tas missing.
  induction l as [|rg l IH]; intros rgs tas missing Htas; cbn [foldl].
  - exists [], tas, missing. rewrite app_nil_r. split_and!; [done|constructor|].
    intros fName topology. split; [by left|].
    intros [?|[(rg & Hin & _) _]]; [done|by apply elem_of_nil in Hin].
  - destruct (visitResourceGroup_step flavors rgs tas missing rg Htas)
      as (rg' & tas1 & missing1 & -> & Hrg' & Htas1).
    destruct (IH (rgs ++ [rg']) tas1 missing1) as (rgs' & tas' & missing' & -> & Hrgs' & Htas').
    { intros fName topology [Hold|[_ Hnew]]%Htas1; [by apply Htas|done]. }
    exists (rg' :: rgs'), tas', missing'.
    rewrite <-app_assoc. split_and!; [done|by constructor|].
    intros fName topology. rewrite Htas', Htas1.
    setoid_rewrite elem_of_cons. naive_solver.
Qed.

Lemma updateLabelKeys_fields (c : clusterQueue) (flavors : gmap string ResourceFlavor) :
  let c' := updateLabelKeys c flavors in
  Forall2 (relabelled flavors) (ResourceGroups c) (ResourceGroups c')
  ∧ (∀ fName topology,
       tasFlavors c' !! fName = Some topology ↔
       referencesFlavor c fName ∧ flavorTopology flavors fName topology)
  ∧ (∀ fName,
       fName ∈ missingFlavors c' ↔
       referencesFlavor c fName ∧ flavors !! fName = None).
Proof.
  cbv zeta.
  pose proof (visitResourceGroup_missing flavors [] (ResourceGroups c) ∅ []) as Hmissing.
  unfold updateLabelKeys.
  destruct (visitResourceGroup_fold flavors (ResourceGroups c) [] ∅ [])
    as (rgs' & tas' & missing' & Hfold & Hrgs' & Htas'); [by intros ? ? ?|].
  rewrite Hfold in *. simpl in *. split_and!.
  - exact Hrgs'.
  - intros fName topology. rewrite Htas', lookup_empty. unfold referencesFlavor.
    naive_solver.
  - intros fName. rewrite Hmissing, elem_of_nil. unfold referencesFlavor.
    naive_solver.
Qed.

Lemma causeView_fields (c1 c2 : clusterQueue) :
  causeView c1 = causeView c2 →
  isStopped c1 = isStopped c2
  ∧ missingFlavors c1 = missingFlavors c2
  ∧ missingAdmissionChecks c1 = missingAdmissionChecks c2
  ∧ inactiveAdmissionChecks c1 = inactiveAdmissionChecks c2
  ∧ multipleSingleInstanceControllersChecks c1
    = multipleSingleInstanceControllersChecks c2
  ∧ flavorIndependentAdmissionCheckAppliedPerFlavor c1
    = flavorIndependentAdmissionCheckAppliedPerFlavor c2
  ∧ multiKueueAdmissionChecks c1 = multiKueueAdmissionChecks c2
  ∧ provisioningAdmissionChecks c1 = provisioningAdmissionChecks c2
  ∧ perFlavorMultiKueueAdmissionChecks c1 = perFlavorMultiKueueAdmissionChecks c2
  ∧ tasFlavors c1 = tasFlavors c2
  ∧ tasCache c1 = tasCache c2
  ∧ AdmissionChecks c1 = AdmissionChecks c2
  ∧ ResourceGroups c1 = ResourceGroups c2.
Proof. unfold causeView. intros [= ? ? ? ? ? ? ? ? ? ? ? ? ?]. by split_and!. Qed.

Lemma relabelled_references (flavors : gmap string ResourceFlavor)
    (l l' : list ResourceGroup) (fName : string) :
  Forall2 (relabelled flavors) l l' →
  (∃ rg, rg ∈ l ∧ fName ∈ Flavors rg) ↔ (∃ rg', rg' ∈ l' ∧ fName ∈ Flavors rg').
Proof.
  induction 1 as [|rg rg' l l' (_ & Hflavors & _) _ IH].
  - split; intros (rg & Hin & _); by apply elem_of_nil in Hin.
  - setoid_rewrite elem_of_cons. split.
    + intros (rg0 & [->|Hin] & HfName).
      * exists rg'. split; [by left|by rewrite Hflavors].
      * destruct (proj1 IH) as (rg0' & Hin' & HfName'); [by exists rg0|].
        exists rg0'. split; [by right|done].
    + intros (rg0' & [->|Hin'] & HfName').
      * exists rg. split; [by left|by rewrite <-Hflavors].
      * destruct (proj2 IH) as (rg0 & Hin & HfName); [by exists rg0'|].
        exists rg0. split; [by right|done].
Qed.

Lemma updateLabelKeys_references (c : clusterQueue)
    (flavors : gmap string ResourceFlavor) (fName : string) :
  referencesFlavor (updateLabelKeys c flavors) fName ↔ referencesFlavor c fName.
Proof.
  destruct (updateLabelKeys_fields c flavors) as (Hrgs & _).
  symmetry. by apply (relabelled_references flavors).
Qed.

Lemma isTASOnly_references (c : clusterQueue) :
  isTASOnly c = true ↔
  ∀ fName, referencesFlavor c fName → is_Some (tasFlavors c !! fName).
Proof.
  unfold isTASOnly, referencesFlavor. rewrite forallb_forall. split.
  - intros Hall fName (rg & Hrg & HfName).
    apply list_elem_of_In in Hrg, HfName.
    specialize (Hall rg Hrg). rewrite forallb_forall in Hall.
    specialize (Hall fName HfName). by apply bool_decide_eq_true in Hall.
  - intros Hall rg Hrg. apply forallb_forall. intros fName HfName.
    apply bool_decide_eq_true_2, Hall. exists rg. by rewrite !list_elem_of_In.
Qed.

(** X1: [flavorInUse] tells whether a resource group of the queue names the
    flavor; after [updateQuotasAndResourceGroups] these are the flavors that
    the resource groups passed in name, and [UpdateWithFlavors] does not
    change which flavors are in use. *)
Theorem flavorInUse_follows_resource_groups (TopologyAwareScheduling : bool)
    (c : clusterQueue) (kueueRgs : list KResourceGroup)
    (flavors : gmap string ResourceFlavor) (flavor : string) :
  (flavorInUse c flavor = true ↔
     ∃ rg, rg ∈ ResourceGroups c ∧ flavor ∈ Flavors rg)
  ∧ (flavorInUse (fst (updateQuotasAndResourceGroups c kueueRgs)) flavor = true ↔
     ∃ kueueRg kueueFlavor,
       kueueRg ∈ kueueRgs ∧ kueueFlavor ∈ rgFlavors kueueRg
       ∧ fqName kueueFlavor = flavor)
  ∧ flavorInUse (UpdateWithFlavors TopologyAwareScheduling c flavors) flavor
    = flavorInUse c flavor.
Proof.
  split_and!.
  - apply flavorInUse_references.
  - rewrite flavorInUse_references. unfold referencesFlavor. simpl.
    apply createdResourceGroups_flavor.
  - apply eq_true_iff_eq. rewrite !flavorInUse_references.
    unfold UpdateWithFlavors.
    destruct (updateQueueStatus_spec TopologyAwareScheduling (updateLabelKeys c flavors))
      as (Hview & _).
    apply causeView_fields in Hview as (_&_&_&_&_&_&_&_&_&_&_&_&Hrgs).
    rewrite <-(updateLabelKeys_references c flavors).
    unfold referencesFlavor. by rewrite Hrgs.
Qed.

Lemma UpdateWithFlavors_fields (TopologyAwareScheduling : bool) (c : clusterQueue)
    (flavors : gmap string ResourceFlavor) :
  let c' := UpdateWithFlavors TopologyAwareScheduling c flavors in
  ResourceGroups c' = ResourceGroups (updateLabelKeys c flavors)
  ∧ tasFlavors c' = tasFlavors (updateLabelKeys c flavors)
  ∧ missingFlavors c' = missingFlavors (updateLabelKeys c flavors).
Proof.
  cbv zeta. unfold UpdateWithFlavors.
  destruct (updateQueueStatus_spec TopologyAwareScheduling (updateLabelKeys c flavors))
    as (Hview & _).
  apply causeView_fields in Hview as (_&Hmissing&_&_&_&_&_&_&_&Htas&_&_&Hrgs).
  by split_and!.
Qed.

(** X2: after [UpdateWithFlavors] every resource group has the covered
    resources and the flavors it had, and as label keys the node label keys of
    those of its flavors that the cache holds (none for a group without
    flavors, the keys it had when no flavor of the group carries a label); the
    TAS flavors are the flavors named by a group that the cache holds with a
    topology, each with that topology; the missing flavors are the flavors
    named by a group that the cache does not hold. *)
Theorem UpdateWithFlavors_records_flavors (TopologyAwareScheduling : bool)
    (c : clusterQueue) (flavors : gmap string ResourceFlavor) :
  let c' := UpdateWithFlavors TopologyAwareScheduling c flavors in
  Forall2 (relabelled flavors) (ResourceGroups c) (ResourceGroups c')
  ∧ (∀ fName topology,
       tasFlavors c' !! fName = Some topology ↔
       referencesFlavor c fName ∧ flavorTopology flavors fName topology)
  ∧ (∀ fName,
       fName ∈ missingFlavors c' ↔
       referencesFlavor c fName ∧ flavors !! fName = None).
Proof.
  cbv zeta.
  destruct (UpdateWithFlavors_fields TopologyAwareScheduling c flavors)
    as (-> & -> & ->).
  apply updateLabelKeys_fields.
Qed.

(** X3: after [UpdateWithFlavors], [isTASOnly] holds exactly when the cache
    holds every flavor that a resource group names with a topology; the queue
    then has no missing flavor. *)
Theorem isTASOnly_after_UpdateWithFlavors (TopologyAwareScheduling : bool)
    (c : clusterQueue) (flavors : gmap string ResourceFlavor) :
  let c' := UpdateWithFlavors TopologyAwareScheduling c flavors in
  (isTASOnly c' = true ↔
   ∀ fName, referencesFlavor c fName →
            ∃ topology, flavorTopology flavors fName topology)
  ∧ (isTASOnly c' = true → missingFlavors c' = []).
Proof.
  cbv zeta.
  destruct (UpdateWithFlavors_fields TopologyAwareScheduling c flavors)
    as (Hrgs & Htas & Hmissing).
  destruct (updateLabelKeys_fields c flavors) as (_ & Htopology & Hin).
  assert (isTASOnly (UpdateWithFlavors TopologyAwareScheduling c flavors) = true ↔
          ∀ fName, referencesFlavor c fName →
                   ∃ topology, flavorTopology flavors fName topology) as Hiff.
  { rewrite isTASOnly_references. rewrite Htas.
    unfold referencesFlavor at 1. rewrite Hrgs.
    split.
    - intros Hall fName Href.
      destruct (Hall fName) as [topology Htop];
        [by apply (updateLabelKeys_references c flavors)|].
      apply Htopology in Htop as [_ Htop]. by exists topology.
    - intros Hall fName Href.
      apply (updateLabelKeys_references c flavors) in Href.
      destruct (Hall fName Href) as [topology Htop].
      exists topology. by apply Htopology. }
  split; [exact Hiff|].
  intros Honly. rewrite Hmissing.
  destruct (missingFlavors (updateLabelKeys c flavors)) as [|fName l] eqn:Hl; [done|].
  destruct (proj1 (Hin fName)) as [Href Hnone]; [left|].
  destruct (proj1 Hiff Honly fName Href) as (topology & flv & Hflv & _).
  congruence.
Qed.

(** ** More on the accounting of workloads *)

Lemma updateWorkloadUsage_counts (TopologyAwareScheduling : bool) (c : clusterQueue)
    (wi : Info) (m : Z) :
  m = 1 ∨ m = -1 →
  let c' := updateWorkloadUsage TopologyAwareScheduling c wi m in
  admittedWorkloadsCount c'
  = (if IsAdmitted (Obj wi) then wrap64 (admittedWorkloadsCount c + m)
     else admittedWorkloadsCount c)
  ∧ workloadsNotAccountedForTAS c'
    = deferredAfter TopologyAwareScheduling c (IsUsingTAS wi) (Key (Obj wi)).
Proof.
  intros Hm. cbv zeta. unfold updateWorkloadUsage. rewrite usage_loop by done.
  unfold updateWorkloadTASUsage, deferredAfter, isTASSynced.
  destruct TopologyAwareScheduling, (IsUsingTAS wi), (IsAdmitted (Obj wi)); simpl;
    repeat case_match; simplify_eq/=; try done.
Qed.

Lemma deleteWorkload_more (TopologyAwareScheduling : bool) (c : clusterQueue)
    (w : Workload) (wi : Info) :
  Workloads c !! Key w = Some wi →
  let c' := deleteWorkload TopologyAwareScheduling c w in
  admittedWorkloadsCount c'
  = (if IsAdmitted (Obj wi) then wrap64 (admittedWorkloadsCount c - 1)
     else admittedWorkloadsCount c)
  ∧ WorkloadsNotReady c'
    = (if podsReadyTracking c && negb (wlPodsReady w)
       then WorkloadsNotReady c ∖ {[Key w]} else WorkloadsNotReady c)
  ∧ workloadsNotAccountedForTAS c'
    = deferredAfter TopologyAwareScheduling c (IsUsingTAS wi) (Key (Obj wi)).
Proof.
  intros Hw. cbv zeta. unfold deleteWorkload. rewrite Hw.
  assert (Hm : -1 = 1 ∨ -1 = -1) by (by right).
  pose proof (updateWorkloadUsage_frame TopologyAwareScheduling c wi (-1) Hm)
    as (HW & HG & HP & HN & HS).
  pose proof (updateWorkloadUsage_counts TopologyAwareScheduling c wi (-1) Hm)
    as (HC & HD).
  cbv zeta in *. rewrite HP.
  destruct (podsReadyTracking c && negb (wlPodsReady w)); simpl;
    rewrite ?HC, ?HD, ?HN; by split_and!.
Qed.

Lemma addOrUpdateWorkload_more (TopologyAwareScheduling : bool) (c : clusterQueue)
    (w : Workload) :
  Workloads c !! Key w = None →
  let c' := addOrUpdateWorkload TopologyAwareScheduling c w in
  admittedWorkloadsCount c'
  = (if IsAdmitted w then wrap64 (admittedWorkloadsCount c + 1)
     else admittedWorkloadsCount c)
  ∧ WorkloadsNotReady c'
    = (if podsReadyTracking c && negb (wlPodsReady w)
       then {[Key w]} ∪ WorkloadsNotReady c else WorkloadsNotReady c)
  ∧ workloadsNotAccountedForTAS c'
    = deferredAfter TopologyAwareScheduling c (wlUsingTAS w) (Key w).
Proof.
  intros Hw. cbv zeta. unfold addOrUpdateWorkload. rewrite Hw.
  assert (Hm : 1 = 1 ∨ 1 = -1) by (by left).
  set (c0 := set_Workloads (<[Key w:=NewInfo w]> (Workloads c)) c).
  pose proof (updateWorkloadUsage_frame TopologyAwareScheduling c0 (NewInfo w) 1 Hm)
    as (HW & HG & HP & HN & HS).
  pose proof (updateWorkloadUsage_counts TopologyAwareScheduling c0 (NewInfo w) 1 Hm)
    as (HC & HD).
  cbv zeta in *. rewrite HP.
  change (podsReadyTracking c0) with (podsReadyTracking c).
  destruct (podsReadyTracking c && negb (wlPodsReady w)); simpl;
    rewrite ?HC, ?HD, ?HN; by split_and!.
Qed.

(** The workloads after [deleteWorkload] and [addOrUpdateWorkload]. *)
Lemma deleteWorkload_Workloads (TopologyAwareScheduling : bool) (c : clusterQueue)
    (w : Workload) :
  Workloads (deleteWorkload TopologyAwareScheduling c w) = delete (Key w) (Workloads c).
Proof.
  destruct (Workloads c !! Key w) as [wi|] eqn:Hw.
  - by destruct (deleteWorkload_present TopologyAwareScheduling c w wi Hw) as (-> & _).
  - rewrite deleteWorkload_absent by done. symmetry. by apply delete_id.
Qed.

Lemma addOrUpdateWorkload_Workloads (TopologyAwareScheduling : bool) (c : clusterQueue)
    (w : Workload) :
  Workloads (addOrUpdateWorkload TopologyAwareScheduling c w)
  = <[Key w := NewInfo w]> (Workloads c).
Proof.
  rewrite addOrUpdateWorkload_delete_first.
  destruct (addOrUpdateWorkload_absent TopologyAwareScheduling _ w
              (deleteWorkload_lookup TopologyAwareScheduling c w)) as (-> & _).
  by rewrite deleteWorkload_Workloads, insert_delete_eq.
Qed.

(** ** What every operation keeps *)

Section Preservation.

Unset Default Proof Using.

Variable TopologyAwareScheduling AdmissionCheckValidationRules : bool.
Variable MultiKueueControllerName ProvisioningRequestControllerName : string.

(** A property [I] of the accounts of a queue, kept when a workload leaves
    and when a workload that satisfies [okw] joins. *)
Variable okw : Workload → Prop.
Variable I : clusterQueue → Prop.
Hypothesis I_view : ∀ c c', accountView c' = accountView c → I c → I c'.
Hypothesis I_stored : ∀ c k wi, I c → Workloads c !! k = Some wi → okw (Obj wi).
Hypothesis I_delete : ∀ c w, I c → I (deleteWorkload TopologyAwareScheduling c w).
Hypothesis I_add :
  ∀ c w, okw w → I c → I (addOrUpdateWorkload TopologyAwareScheduling c w).

Lemma reAddDeferred_loop_preserves (ws : gmap string Info) (c : clusterQueue) :
  (∀ k wi, ws !! k = Some wi → okw (Obj wi)) →
  I c → I (map_fold (reAddDeferred TopologyAwareScheduling) c ws).
Proof.
  intros Hws Hc. induction ws as [|k w ws Hk Hfold IH] using gmap_fold_ind.
  - by rewrite map_fold_empty.
  - rewrite Hfold. unfold reAddDeferred at 1. case_bool_decide.
    + eapply I_view; [|apply I_add, IH].
      * reflexivity.
      * apply (Hws k). apply lookup_insert_eq.
      * intros k' wi' Hk'. apply (Hws k'). rewrite lookup_insert_ne; [done|].
        intros ->. congruence.
    + apply IH. intros k' wi' Hk'. apply (Hws k'). rewrite lookup_insert_ne; [done|].
      intros ->. congruence.
Qed.

Lemma updateQueueStatus_preserves (c : clusterQueue) :
  I c → I (updateQueueStatus TopologyAwareScheduling c).
Proof.
  intros Hc. unfold updateQueueStatus.
  match goal with
  | |- context [if ?b then map_fold _ c (Workloads c) else c] =>
      set (c1 := if b then map_fold (reAddDeferred TopologyAwareScheduling) c (Workloads c)
                 else c)
  end.
  assert (I c1) as Hc1.
  { subst c1. case_match; [|done].
    apply reAddDeferred_loop_preserves; [|done]. intros k wi. by apply I_stored. }
  clearbody c1. case_bool_decide; [|done].
  eapply I_view; [|exact Hc1]. reflexivity.
Qed.

Lemma updateLabelKeys_accountView (c : clusterQueue)
    (flavors : gmap string ResourceFlavor) :
  accountView (updateLabelKeys c flavors) = accountView c.
Proof. unfold updateLabelKeys. by repeat case_match. Qed.

Lemma UpdateWithFlavors_preserves (c : clusterQueue)
    (flavors : gmap string ResourceFlavor) :
  I c → I (UpdateWithFlavors TopologyAwareScheduling c flavors).
Proof.
  intros Hc. unfold UpdateWithFlavors. apply updateQueueStatus_preserves.
  eapply I_view; [|exact Hc]. apply updateLabelKeys_accountView.
Qed.

Lemma updateWithAdmissionChecks_accountView (c : clusterQueue)
    (checks : gmap string AdmissionCheck) :
  ∃ x (update : bool),
    updateWithAdmissionChecks TopologyAwareScheduling AdmissionCheckValidationRules
      MultiKueueControllerName ProvisioningRequestControllerName c checks
    = (if update then updateQueueStatus TopologyAwareScheduling x else x)
    ∧ accountView x = accountView c
    ∧ AdmissionChecks x = AdmissionChecks c.
Proof.
  unfold updateWithAdmissionChecks.
  set (s := scanAdmissionChecks _ _ c checks).
  destruct AdmissionCheckValidationRules;
    repeat (case_bool_decide; simpl);
    first [ exists c, false; split; [reflexivity|]
          | eexists _, true; split; [reflexivity|] ];
    by split.
Qed.

Lemma updateWithAdmissionChecks_preserves (c : clusterQueue)
    (checks : gmap string AdmissionCheck) :
  I c →
  I (updateWithAdmissionChecks TopologyAwareScheduling AdmissionCheckValidationRules
       MultiKueueControllerName ProvisioningRequestControllerName c checks).
Proof.
  intros Hc.
  destruct (updateWithAdmissionChecks_accountView c checks)
    as (x & update & -> & Hview & _).
  assert (I x) as Hx by (by eapply I_view).
  destruct update; [by apply updateQueueStatus_preserves|done].
Qed.

Lemma updateClusterQueue_preserves (c : clusterQueue) (spec : ClusterQueueSpec)
    (resourceFlavors : gmap string ResourceFlavor)
    (admissionChecks : gmap string AdmissionCheck) (edge : CohortEdge) :
  I c →
  I (fst (updateClusterQueue TopologyAwareScheduling AdmissionCheckValidationRules
            MultiKueueControllerName ProvisioningRequestControllerName
            c spec resourceFlavors admissionChecks edge)).
Proof.
  intros Hc. unfold updateClusterQueue, updateQuotasAndResourceGroups.
  assert (∀ c2, accountView c2 = accountView c →
                I (updateWithAdmissionChecks TopologyAwareScheduling
                     AdmissionCheckValidationRules MultiKueueControllerName
                     ProvisioningRequestControllerName
                     (UpdateWithFlavors TopologyAwareScheduling c2 resourceFlavors)
                     admissionChecks)) as Hrest.
  { intros c2 Hview. apply updateWithAdmissionChecks_preserves,
      UpdateWithFlavors_preserves. by eapply I_view. }
  assert (∀ c2, accountView c2 = accountView c → I c2) as Hview
    by (intros c2 Hc2; by eapply I_view).
  match goal with
  | |- context [if ?b then _ else (_, None)] => destruct b
  end.
  - destruct (hasOldParent edge && parentChanged edge);
      [destruct (oldParentTreeHoldsQueue edge)|];
      (destruct (hasParent edge); [destruct (treeUpdateError edge)|]); simpl;
      try (by apply Hview);
      (destruct (specNamespaceSelector spec); simpl;
       [by apply Hview|by apply Hrest]).
  - simpl. destruct (specNamespaceSelector spec); simpl;
      [by apply Hview|by apply Hrest].
Qed.

Hypothesis I_deleteLocalQueue : ∀ c q, I c → I (deleteLocalQueue c q).

Lemma applyQueueOp_preserves (c : clusterQueue) (op : QueueOp) :
  (∀ w, op = DoAddWorkload w ∨ op = DoAddOrUpdateWorkload w → okw w) →
  (∀ q, op = DoAddLocalQueue q → I (fst (addLocalQueue c q))) →
  I c →
  I (applyQueueOp TopologyAwareScheduling AdmissionCheckValidationRules
       MultiKueueControllerName ProvisioningRequestControllerName c op).
Proof.
  intros Hw Hq Hc.
  destruct op as [spec rf ac edge|rgs| |fl|fl|checks|w|w|w|w|q|q]; simpl.
  - by apply updateClusterQueue_preserves.
  - eapply I_view; [|exact Hc]. reflexivity.
  - by apply updateQueueStatus_preserves.
  - by apply UpdateWithFlavors_preserves.
  - eapply I_view; [|exact Hc]. apply updateLabelKeys_accountView.
  - by apply updateWithAdmissionChecks_preserves.
  - unfold addWorkload. destruct (Workloads c !! Key w); simpl; [done|].
    apply I_add; [|done]. apply Hw. by left.
  - apply I_add; [|done]. apply Hw. by right.
  - unfold forgetWorkload. eapply I_view; [|by apply (I_delete c w)]. reflexivity.
  - by apply I_delete.
  - by apply Hq.
  - by apply I_deleteLocalQueue.
Qed.

Lemma applyQueueOps_preserve (ops : list QueueOp) (c : clusterQueue) :
  (∀ op w, op ∈ ops → op = DoAddWorkload w ∨ op = DoAddOrUpdateWorkload w → okw w) →
  (∀ op c q, op ∈ ops → op = DoAddLocalQueue q → I c → I (fst (addLocalQueue c q))) →
  I c →
  I (foldl (applyQueueOp TopologyAwareScheduling AdmissionCheckValidationRules
              MultiKueueControllerName ProvisioningRequestControllerName) c ops).
Proof.
  revert c. induction ops as [|op ops IH]; intros c Hw Hq Hc; simpl; [done|].
  apply IH.
  - intros op' w Hin. apply Hw. by right.
  - intros op' c' q Hin. apply Hq. by right.
  - apply applyQueueOp_preserves; [| |done].
    + intros w. apply Hw. by left.
    + intros q Hop. by apply (Hq op); [left|..].
Qed.

End Preservation.

(** ** Invariants of the accounts *)

Lemma workloadCount_delete (P : Info → bool) (ws : gmap string Info) (k : string)
    (wi : Info) :
  ws !! k = Some wi →
  workloadCount P ws = ((if P wi then 1 else 0) + workloadCount P (delete k ws))%nat.
Proof.
  intros Hk. rewrite <-(insert_delete_id ws k wi) at 1 by done.
  apply workloadCount_insert, lookup_delete_eq.
Qed.

Lemma keyedByOwnKey_delete (TopologyAwareScheduling : bool) (c : clusterQueue)
    (w : Workload) :
  keyedByOwnKey c → keyedByOwnKey (deleteWorkload TopologyAwareScheduling c w).
Proof.
  intros Hc k wi. rewrite deleteWorkload_Workloads.
  intros [_ Hk]%lookup_delete_Some. by apply Hc.
Qed.

Lemma keyedByOwnKey_add (TopologyAwareScheduling : bool) (c : clusterQueue)
    (w : Workload) :
  keyedByOwnKey c → keyedByOwnKey (addOrUpdateWorkload TopologyAwareScheduling c w).
Proof.
  intros Hc k wi. rewrite addOrUpdateWorkload_Workloads.
  intros [[<- <-]|[_ Hk]]%lookup_insert_Some; [done|by apply Hc].
Qed.

Lemma admittedCountMatches_delete (TopologyAwareScheduling : bool) (c : clusterQueue)
    (w : Workload) :
  admittedCountMatches c →
  admittedCountMatches (deleteWorkload TopologyAwareScheduling c w).
Proof.
  unfold admittedCountMatches. intros Hc.
  destruct (Workloads c !! Key w) as [wi|] eqn:Hw;
    [|by rewrite deleteWorkload_absent].
  destruct (deleteWorkload_more TopologyAwareScheduling c w wi Hw) as (-> & _).
  rewrite deleteWorkload_Workloads, Hc.
  rewrite (workloadCount_delete admittedWorkload _ _ _ Hw).
  change (admittedWorkload wi) with (IsAdmitted (Obj wi)).
  destruct (IsAdmitted (Obj wi)); [|done].
  unfold Z.sub. rewrite wrap64_add_l. f_equal. lia.
Qed.

Lemma admittedCountMatches_add_absent (TopologyAwareScheduling : bool)
    (c : clusterQueue) (w : Workload) :
  Workloads c !! Key w = None →
  admittedCountMatches c →
  admittedCountMatches (addOrUpdateWorkload TopologyAwareScheduling c w).
Proof.
  unfold admittedCountMatches. intros Hw Hc.
  destruct (addOrUpdateWorkload_more TopologyAwareScheduling c w Hw) as (-> & _).
  rewrite addOrUpdateWorkload_Workloads, Hc, workloadCount_insert by done.
  change (admittedWorkload (NewInfo w)) with (IsAdmitted w).
  destruct (IsAdmitted w); [|done].
  rewrite wrap64_add_l. f_equal. lia.
Qed.

Lemma admittedCountMatches_add (TopologyAwareScheduling : bool) (c : clusterQueue)
    (w : Workload) :
  admittedCountMatches c →
  admittedCountMatches (addOrUpdateWorkload TopologyAwareScheduling c w).
Proof.
  intros Hc. rewrite addOrUpdateWorkload_delete_first.
  apply admittedCountMatches_add_absent; [apply deleteWorkload_lookup|].
  by apply admittedCountMatches_delete.
Qed.

(** X4: every operation on the queue keeps each workload stored under the
    key of the workload. *)
Theorem workloads_stay_keyed_by_own_key
    (TopologyAwareScheduling AdmissionCheckValidationRules : bool)
    (MultiKueueControllerName ProvisioningRequestControllerName : string)
    (ops : list QueueOp) (c : clusterQueue) :
  keyedByOwnKey c →
  keyedByOwnKey
    (foldl (applyQueueOp TopologyAwareScheduling AdmissionCheckValidationRules
              MultiKueueControllerName ProvisioningRequestControllerName) c ops).
Proof.
  apply (applyQueueOps_preserve _ _ _ _ (fun _ => True)); [| | | | |done|].
  - intros c1 c2 [= Hws _ _ _ _] Hc1 k wi. rewrite Hws. apply Hc1.
  - done.
  - apply keyedByOwnKey_delete.
  - intros c1 w _. apply keyedByOwnKey_add.
  - by intros c1 q Hc1.
  - intros op c1 q _ _ Hc1. unfold addLocalQueue.
    by destruct (localQueues c1 !! queueKey q).
Qed.

(** X5: through every sequence of operations on the queue,
    admittedWorkloadsCount stays the number of admitted workloads that the
    queue holds (in the arithmetic of int). *)
Theorem admitted_count_follows_workloads
    (TopologyAwareScheduling AdmissionCheckValidationRules : bool)
    (MultiKueueControllerName ProvisioningRequestControllerName : string)
    (ops : list QueueOp) (c : clusterQueue) :
  admittedCountMatches c →
  admittedCountMatches
    (foldl (applyQueueOp TopologyAwareScheduling AdmissionCheckValidationRules
              MultiKueueControllerName ProvisioningRequestControllerName) c ops).
Proof.
  apply (applyQueueOps_preserve _ _ _ _ (fun _ => True)); [| | | | |done|].
  - unfold admittedCountMatches. intros c1 c2 [= Hws Hcount _ _ _] Hc1.
    by rewrite Hws, Hcount.
  - done.
  - apply admittedCountMatches_delete.
  - intros c1 w _. apply admittedCountMatches_add.
  - by intros c1 q Hc1.
  - intros op c1 q _ _ Hc1. unfold addLocalQueue.
    by destruct (localQueues c1 !! queueKey q).
Qed.

(** X6: through every sequence of operations on the queue, updates of the
    queue and of its status and registrations of local queues included, the
    usage of the queue stays the sum of the usage of the workloads it holds
    and the admitted usage that of the admitted ones. *)
Theorem usage_follows_workloads_under_every_operation
    (TopologyAwareScheduling AdmissionCheckValidationRules : bool)
    (MultiKueueControllerName ProvisioningRequestControllerName : string)
    (ops : list QueueOp) (c : clusterQueue) :
  usageMatchesWorkloads c →
  usageMatchesWorkloads
    (foldl (applyQueueOp TopologyAwareScheduling AdmissionCheckValidationRules
              MultiKueueControllerName ProvisioningRequestControllerName) c ops).
Proof.
  apply (applyQueueOps_preserve _ _ _ _ (fun _ => True)); [| | | | |done|].
  - unfold usageMatchesWorkloads. intros c1 c2 [= Hws _ Husage Hadmitted _] Hc1 fr.
    rewrite Hws, Husage, Hadmitted. apply Hc1.
  - done.
  - apply deleteWorkload_usageMatches.
  - intros c1 w _. apply addOrUpdateWorkload_usageMatches.
  - by intros c1 q Hc1.
  - intros op c1 q _ _ Hc1. unfold addLocalQueue.
    by destruct (localQueues c1 !! queueKey q).
Qed.

(** *** The counters of the local queues *)

Lemma workloadsChange_insert (ws : gmap string Info) (k : string) (wi : Info) :
  ws !! k = None → workloadsChange ws (<[k := wi]> ws) wi 1.
Proof.
  intros Hk. split.
  - intros P. rewrite workloadCount_insert by done. destruct (P wi); lia.
  - intros P fr. rewrite usageSum_insert by done. destruct (P wi); lia.
Qed.

Lemma workloadsChange_delete (ws : gmap string Info) (k : string) (wi : Info) :
  ws !! k = Some wi → workloadsChange ws (delete k ws) wi (-1).
Proof.
  intros Hk. split.
  - intros P. rewrite (workloadCount_delete P ws k wi Hk). destruct (P wi); lia.
  - intros P fr. rewrite (usageSum_delete P ws k wi fr Hk). destruct (P wi); lia.
Qed.

Lemma localQueueMatches_updated (ws ws' : gmap string Info) (k : string) (wi : Info)
    (m : Z) (lq : queue) :
  workloadsChange ws ws' wi m →
  localQueueMatches ws k lq →
  localQueueMatches ws' k
    (if queuedAt k wi
     then updateQueueUsage lq (FlavorResourceUsage wi) (IsAdmitted (Obj wi)) m
     else lq).
Proof.
  intros [Hcount Hsum] (Hr & Ha & Hu).
  assert (∀ fr, is_int64 (quantity (totalReserved lq) fr)
                ∧ is_int64 (quantity (admittedUsage lq) fr)) as Hint.
  { intros fr. destruct (Hu fr) as [-> ->]. split; apply wrap64_range. }
  unfold localQueueMatches, admittedQueuedAt.
  rewrite !Hcount. setoid_rewrite Hsum.
  change (admittedWorkload wi) with (IsAdmitted (Obj wi)).
  destruct (queuedAt k wi); simpl.
  - split_and!.
    + rewrite Hr, wrap64_add_l. done.
    + destruct (IsAdmitted (Obj wi)).
      * by rewrite Ha, wrap64_add_l.
      * by rewrite Ha, Z.add_0_r.
    + intros fr. destruct (Hint fr) as [Ht Hadm]. destruct (Hu fr) as [Hut Hua]. split.
      * rewrite quantity_updateFlavorUsage_int64 by done.
        by rewrite Hut, wrap64_add_l.
      * destruct (IsAdmitted (Obj wi)).
        -- rewrite quantity_updateFlavorUsage_int64 by done.
           by rewrite Hua, wrap64_add_l.
        -- by rewrite Hua, Z.add_0_r.
  - rewrite !Z.add_0_r. split_and!; [done|done|].
    intros fr. destruct (Hu fr) as [Hut Hua]. by rewrite !Z.add_0_r.
Qed.

Lemma localQueues_updated (TopologyAwareScheduling : bool) (c : clusterQueue)
    (ws' : gmap string Info) (wi : Info) (m : Z) :
  m = 1 ∨ m = -1 →
  workloadsChange (Workloads c) ws' wi m →
  localQueuesMatchWorkloads c →
  ∀ k lq,
    localQueues (updateWorkloadUsage TopologyAwareScheduling c wi m) !! k = Some lq →
    localQueueMatches ws' k lq.
Proof.
  intros Hm Hchange Hc k lq.
  rewrite updateWorkloadUsage_localQueues by done.
  assert (∀ lq0, localQueues c !! k = Some lq0 → queuedAt k wi = false →
                 localQueueMatches ws' k lq0) as Hother.
  { intros lq0 Hlq0 Hq.
    pose proof (localQueueMatches_updated _ _ k wi m lq0 Hchange (Hc k lq0 Hlq0)) as H.
    by rewrite Hq in H. }
  destruct (localQueues c !! QueueKey (Obj wi)) as [lq0|] eqn:Hlq0.
  - rewrite lookup_insert. case_decide as Hk.
    + intros [= <-]. subst k.
      pose proof (localQueueMatches_updated _ _ (QueueKey (Obj wi)) wi m lq0 Hchange
                    (Hc _ lq0 Hlq0)) as H.
      unfold queuedAt in H at 1. by rewrite bool_decide_eq_true_2 in H.
    + intros Hlq. apply Hother; [done|]. by apply bool_decide_eq_false_2.
  - intros Hlq. apply Hother; [done|].
    apply bool_decide_eq_false_2. intros Heq. rewrite Heq in Hlq0. congruence.
Qed.

Lemma localQueuesMatch_delete (TopologyAwareScheduling : bool) (c : clusterQueue)
    (w : Workload) :
  localQueuesMatchWorkloads c →
  localQueuesMatchWorkloads (deleteWorkload TopologyAwareScheduling c w).
Proof.
  intros Hc.
  destruct (Workloads c !! Key w) as [wi|] eqn:Hw;
    [|by rewrite deleteWorkload_absent].
  destruct (deleteWorkload_present TopologyAwareScheduling c w wi Hw)
    as (HW & _ & _ & _ & HL & _).
  intros k lq. rewrite HW, HL.
  apply localQueues_updated; [by right| |done].
  by apply workloadsChange_delete.
Qed.

Lemma localQueuesMatch_add_absent (TopologyAwareScheduling : bool) (c : clusterQueue)
    (w : Workload) :
  Workloads c !! Key w = None →
  localQueuesMatchWorkloads c →
  localQueuesMatchWorkloads (addOrUpdateWorkload TopologyAwareScheduling c w).
Proof.
  intros Hw Hc.
  destruct (addOrUpdateWorkload_absent TopologyAwareScheduling c w Hw)
    as (HW & _ & _ & _ & HL & _).
  intros k lq. rewrite HW, HL.
  apply localQueues_updated; [by left| |done].
  by apply workloadsChange_insert.
Qed.

Lemma localQueuesMatch_add (TopologyAwareScheduling : bool) (c : clusterQueue)
    (w : Workload) :
  localQueuesMatchWorkloads c →
  localQueuesMatchWorkloads (addOrUpdateWorkload TopologyAwareScheduling c w).
Proof.
  intros Hc. rewrite addOrUpdateWorkload_delete_first.
  apply localQueuesMatch_add_absent; [apply deleteWorkload_lookup|].
  by apply localQueuesMatch_delete.
Qed.

(** *** Keys of local queues *)

Lemma slash_key_inj (ns1 n1 ns2 n2 : string) :
  noSlash ns1 = true → noSlash ns2 = true →
  ns1 +:+ "/" +:+ n1 = ns2 +:+ "/" +:+ n2 → ns1 = ns2 ∧ n1 = n2.
Proof.
  revert ns2. induction ns1 as [|a ns1 IH]; intros [|b ns2] H1 H2 Heq.
  - change (String "/" n1 = String "/" n2) in Heq. by injection Heq as ->.
  - change (String "/" n1 = String b (ns2 +:+ "/" +:+ n2)) in Heq.
    injection Heq as <- _. discriminate H2.
  - change (String a (ns1 +:+ "/" +:+ n1) = String "/" n2) in Heq.
    injection Heq as -> _. discriminate H1.
  - change (String a (ns1 +:+ "/" +:+ n1) = String b (ns2 +:+ "/" +:+ n2)) in Heq.
    injection Heq as -> Heq. simpl in H1, H2.
    apply andb_true_iff in H1 as [_ H1]. apply andb_true_iff in H2 as [_ H2].
    by destruct (IH ns2 H1 H2 Heq) as [-> ->].
Qed.

Lemma inLocalQueue_queuedAt (q : LocalQueue) (wi : Info) :
  noSlash (lqNamespace q) = true →
  noSlash (wlNamespace (Obj wi)) = true →
  inLocalQueue q wi = queuedAt (queueKey q) wi.
Proof.
  intros Hq Hw. unfold inLocalQueue, workloadBelongsToLocalQueue, queuedAt,
    QueueKey, queueKey.
  apply eq_true_iff_eq.
  rewrite andb_true_iff, !bool_decide_eq_true. split.
  - by intros [-> ->].
  - by intros ?%slash_key_inj.
Qed.

Lemma workloadCount_usageSum_ext (P Q : Info → bool) (ws : gmap string Info) :
  (∀ k wi, ws !! k = Some wi → P wi = Q wi) →
  workloadCount P ws = workloadCount Q ws
  ∧ ∀ fr, usageSum P ws fr = usageSum Q ws fr.
Proof.
  induction ws as [|k wi ws Hk IH] using map_ind; intros Hext.
  - rewrite !workloadCount_empty. split; [done|]. intros fr.
    by rewrite !usageSum_empty.
  - destruct IH as [IHc IHs].
    { intros k' wi' Hk'. apply (Hext k'). rewrite lookup_insert_ne; [done|].
      intros ->. congruence. }
    assert (P wi = Q wi) as Hwi by (apply (Hext k), lookup_insert_eq).
    rewrite !workloadCount_insert by done. rewrite Hwi, IHc.
    split; [done|]. intros fr. rewrite !usageSum_insert by done.
    by rewrite Hwi, IHs.
Qed.

(** C8: after a successful [addLocalQueue], the local queue registered under
    the key of [q] has as reservingWorkloads the number of the workloads of
    the queue whose namespace is the namespace of [q] and whose queue name is
    the name of [q], and as totalReserved, for every flavor and resource, the
    sum of their FlavorResourceUsage; its admittedWorkloads and admittedUsage
    are the same over the admitted ones among them (counts and sums of int64
    arithmetic, quantities read as Go reads a map).  A workload of another
    namespace or of another queue name is not counted. *)
Theorem addLocalQueue_backfills_counters (c c' : clusterQueue) (q : LocalQueue) :
  addLocalQueue c q = (c', None) →
  Workloads c' = Workloads c
  ∧ ∃ lq,
      localQueues c' !! queueKey q = Some lq
      ∧ reservingWorkloads lq
        = wrap64 (Z.of_nat (workloadCount (namesLocalQueue q) (Workloads c)))
      ∧ (∀ fr, quantity (totalReserved lq) fr
               = wrap64 (usageSum (namesLocalQueue q) (Workloads c) fr))
      ∧ admittedWorkloads lq
        = wrap64 (Z.of_nat (workloadCount (admittedNamingLocalQueue q)
                              (Workloads c)))
      ∧ (∀ fr, quantity (admittedUsage lq) fr
               = wrap64 (usageSum (admittedNamingLocalQueue q) (Workloads c) fr)).
Proof.
  intros Hadded.
  assert (Workloads c' = Workloads c) as Hws.
  { revert Hadded. unfold addLocalQueue.
    destruct (localQueues c !! queueKey q); [done|]. by intros [= <-]. }
  split; [exact Hws|].
  destruct (addLocalQueue_counts_own_workloads c c' q Hadded)
    as (lq & Hlq & Hreserving & Hreserved & Hadmitted & Husage).
  assert (∀ wi, inLocalQueue q wi = namesLocalQueue q wi) as Hnames.
  { intros wi. unfold inLocalQueue, workloadBelongsToLocalQueue, namesLocalQueue.
    apply eq_true_iff_eq.
    rewrite andb_true_iff, !bool_decide_eq_true. done. }
  assert (∀ wi, admittedInLocalQueue q wi = admittedNamingLocalQueue q wi)
    as Hadmits.
  { intros wi. unfold admittedInLocalQueue, admittedNamingLocalQueue.
    rewrite Hnames. unfold namesLocalQueue, admittedWorkload.
    apply eq_true_iff_eq.
    rewrite andb_true_iff, !bool_decide_eq_true. tauto. }
  destruct (workloadCount_usageSum_ext (inLocalQueue q) (namesLocalQueue q)
              (Workloads c)) as [Hcount Hsum]; [by intros k wi _|].
  destruct (workloadCount_usageSum_ext (admittedInLocalQueue q)
              (admittedNamingLocalQueue q) (Workloads c))
    as [Hcount' Hsum']; [by intros k wi _|].
  rewrite Hws in Hreserving, Hreserved, Hadmitted, Husage.
  exists lq. split_and!; [exact Hlq| | | |].
  - by rewrite Hreserving, Hcount.
  - intros fr. by rewrite Hreserved, Hsum.
  - by rewrite Hadmitted, Hcount'.
  - intros fr. by rewrite Husage, Hsum'.
Qed.

Lemma localQueuesMatch_addLocalQueue (c : clusterQueue) (q : LocalQueue) :
  noSlash (lqNamespace q) = true →
  namespacesWithoutSlash c →
  localQueuesMatchWorkloads c →
  localQueuesMatchWorkloads (fst (addLocalQueue c q)).
Proof.
  intros Hq Hnames Hc. unfold addLocalQueue.
  destruct (localQueues c !! queueKey q) eqn:Hfresh; [done|].
  intros k lq. simpl. rewrite lookup_insert. case_decide as Hk; [|by apply Hc].
  intros [= <-]. subst k.
  match goal with
  | |- context [map_fold _ ?qi0 _] =>
      destruct (countWorkload_loop q (Workloads c) qi0) as (_ & Hr & Ha & Ht & Hu)
  end.
  - done.
  - done.
  - intros fr v. simpl. rewrite lookup_resetUsage.
    destruct (_ !! fr); [|done]. intros [= <-]. by rewrite quantity_empty.
  - intros fr v. simpl. rewrite lookup_resetUsage.
    destruct (_ !! fr); [|done]. intros [= <-]. by rewrite quantity_empty.
  - destruct (workloadCount_usageSum_ext (inLocalQueue q) (queuedAt (queueKey q))
                (Workloads c)) as [Hc1 Hs1].
    { intros k wi Hwi. apply inLocalQueue_queuedAt; [done|by apply (Hnames k)]. }
    destruct (workloadCount_usageSum_ext (admittedInLocalQueue q)
                (admittedQueuedAt (queueKey q)) (Workloads c)) as [Hc2 Hs2].
    { intros k wi Hwi. unfold admittedInLocalQueue, admittedQueuedAt.
      by rewrite inLocalQueue_queuedAt by (done || by apply (Hnames k)). }
    simpl in *. unfold localQueueMatches.
    rewrite Hr, Ha, Hc1, Hc2. split_and!; [done|done|].
    intros fr. rewrite Ht, Hu, Hs1, Hs2. by rewrite !quantity_resetUsage_empty.
Qed.

(** X7: through every sequence of operations on the queue that brings no
    namespace with a slash, the counters of every registered local queue
    (reserving and admitted workloads, reserved and admitted usage) stay the
    counts and the sums of usage of the workloads held whose queue key is the
    key of the local queue. *)
Theorem local_queue_counters_follow_workloads
    (TopologyAwareScheduling AdmissionCheckValidationRules : bool)
    (MultiKueueControllerName ProvisioningRequestControllerName : string)
    (ops : list QueueOp) (c : clusterQueue) :
  Forall wellNamedOp ops →
  namespacesWithoutSlash c →
  localQueuesMatchWorkloads c →
  localQueuesMatchWorkloads
    (foldl (applyQueueOp TopologyAwareScheduling AdmissionCheckValidationRules
              MultiKueueControllerName ProvisioningRequestControllerName) c ops).
Proof.
  intros Hops Hnames Hc.
  apply (applyQueueOps_preserve TopologyAwareScheduling AdmissionCheckValidationRules
           MultiKueueControllerName ProvisioningRequestControllerName
           (fun w => noSlash (wlNamespace w) = true)
           (fun c => namespacesWithoutSlash c ∧ localQueuesMatchWorkloads c)).
  - intros c1 c2 [= Hws _ _ _ Hlqs] [Hn1 Hc1]. split.
    + intros k wi. rewrite Hws. apply Hn1.
    + intros k lq. rewrite Hws, Hlqs. apply Hc1.
  - intros c1 k wi [Hn1 _]. apply Hn1.
  - intros c1 w [Hn1 Hc1]. split; [|by apply localQueuesMatch_delete].
    intros k wi. rewrite deleteWorkload_Workloads.
    intros [_ Hk]%lookup_delete_Some. by apply (Hn1 k).
  - intros c1 w Hw [Hn1 Hc1]. split; [|by apply localQueuesMatch_add].
    intros k wi. rewrite addOrUpdateWorkload_Workloads.
    intros [[_ <-]|[_ Hk]]%lookup_insert_Some; [done|by apply (Hn1 k)].
  - intros c1 q [Hn1 Hc1]. split; [done|].
    intros k lq. simpl. intros [_ Hk]%lookup_delete_Some. by apply Hc1.
  - intros op w Hin Hop. rewrite Forall_forall in Hops. specialize (Hops op Hin).
    by destruct Hop as [-> | ->].
  - intros op c1 q Hin -> [Hn1 Hc1].
    rewrite Forall_forall in Hops. specialize (Hops _ Hin). simpl in Hops.
    split; [|by apply localQueuesMatch_addLocalQueue].
    unfold addLocalQueue. by destruct (localQueues c1 !! queueKey q).
  - by split.
Qed.

(** ** Workloads whose TAS usage was deferred *)

Lemma statusView_synced (c1 c2 : clusterQueue) :
  statusView c1 = statusView c2 → isTASSynced c1 = isTASSynced c2.
Proof.
  intros Hview. apply (f_equal snd) in Hview. simpl in Hview.
  apply causeView_fields in Hview as (_&_&_&_&_&_&_&_&_&Htas&Hcache&_).
  unfold isTASSynced. by rewrite Htas, Hcache.
Qed.

Lemma deferredAfter_synced (c : clusterQueue) (usingTAS : bool) (k : string) :
  isTASSynced c = true →
  deferredAfter true c usingTAS k ∖ {[k]} = workloadsNotAccountedForTAS c ∖ {[k]}.
Proof.
  unfold isTASSynced, deferredAfter. intros ->. destruct usingTAS; simpl; set_solver.
Qed.

Lemma Info_eta (wi : Info) : NewInfo (Obj wi) = wi.
Proof. by destruct wi. Qed.

(** One round of the loop of [updateQueueStatus], on a workload that the
    queue holds under its key, with the TAS cache synced. *)
Lemma reAddDeferred_synced (k : string) (wi : Info) (c : clusterQueue) :
  isTASSynced c = true →
  Workloads c !! k = Some wi →
  Key (Obj wi) = k →
  let c' := reAddDeferred true k wi c in
  Workloads c' = Workloads c
  ∧ workloadsNotAccountedForTAS c' = workloadsNotAccountedForTAS c ∖ {[k]}
  ∧ statusView c' = statusView c.
Proof.
  intros Hsynced Hk Hkey. cbv zeta. split_and!; [| |apply reAddDeferred_statusView].
  - unfold reAddDeferred. case_bool_decide; [|done]. simpl.
    rewrite addOrUpdateWorkload_Workloads, Hkey, Info_eta. by apply insert_id.
  - unfold reAddDeferred. case_bool_decide as Hin; [|set_solver]. simpl.
    rewrite addOrUpdateWorkload_delete_first.
    destruct (addOrUpdateWorkload_more true _ (Obj wi)
                (deleteWorkload_lookup true c (Obj wi))) as (_ & _ & ->).
    assert (Workloads c !! Key (Obj wi) = Some wi) as Hk' by (by rewrite Hkey).
    destruct (deleteWorkload_more true c (Obj wi) wi Hk') as (_ & _ & Hdel).
    destruct (deleteWorkload_present true c (Obj wi) wi Hk') as (_&_&_&_&_&_&Hview).
    rewrite Hkey in *.
    rewrite deferredAfter_synced by (by rewrite (statusView_synced _ _ Hview)).
    rewrite Hdel. by apply deferredAfter_synced.
Qed.

Lemma reAddDeferred_loop_synced (c0 : clusterQueue) (ws : gmap string Info) :
  isTASSynced c0 = true →
  keyedByOwnKey c0 →
  ws ⊆ Workloads c0 →
  let c' := map_fold (reAddDeferred true) c0 ws in
  Workloads c' = Workloads c0
  ∧ workloadsNotAccountedForTAS c' = workloadsNotAccountedForTAS c0 ∖ dom ws
  ∧ statusView c' = statusView c0.
Proof.
  intros Hsynced Hkeyed. cbv zeta.
  induction ws as [|k wi ws Hk Hfold IH] using gmap_fold_ind; intros Hsub.
  - rewrite map_fold_empty, dom_empty_L. split_and!; [done|set_solver|done].
  - rewrite Hfold.
    assert (Workloads c0 !! k = Some wi) as Hheld.
    { eapply lookup_weaken; [|exact Hsub]. apply lookup_insert_eq. }
    destruct IH as (HW & HD & HS).
    { etrans; [|exact Hsub]. by apply insert_subseteq. }
    destruct (reAddDeferred_synced k wi (map_fold (reAddDeferred true) c0 ws))
      as (HW' & HD' & HS').
    + by rewrite (statusView_synced _ _ HS).
    + by rewrite HW.
    + by apply (Hkeyed k).
    + rewrite HW', HD', HS', HW, HD, dom_insert_L. split_and!; [done|set_solver|done].
Qed.

(** X8: [updateQueueStatus] adds again the workloads whose TAS usage was
    deferred once TopologyAwareScheduling is on, the queue has TAS flavors and
    their caches are there.  On a queue that keeps its workloads under their
    keys and whose usage agrees with them, the workloads and every quantity
    of usage and admitted usage are afterwards as before, and no workload
    that the queue holds is left among the deferred ones. *)
Theorem updateQueueStatus_accounts_deferred_workloads
    (TopologyAwareScheduling : bool) (c : clusterQueue) :
  keyedByOwnKey c →
  usageMatchesWorkloads c →
  let c' := updateQueueStatus TopologyAwareScheduling c in
  Workloads c' = Workloads c
  ∧ sameQuantities (Usage (resourceNode c')) (Usage (resourceNode c))
  ∧ sameQuantities (AdmittedUsage c') (AdmittedUsage c)
  ∧ workloadsNotAccountedForTAS c'
    = (if TopologyAwareScheduling && (0 <? size (tasFlavors c))%nat && isTASSynced c
       then workloadsNotAccountedForTAS c ∖ dom (Workloads c)
       else workloadsNotAccountedForTAS c).
Proof.
  intros Hkeyed Husage. cbv zeta.
  assert (usageMatchesWorkloads (updateQueueStatus TopologyAwareScheduling c))
    as Husage'.
  { apply (updateQueueStatus_preserves TopologyAwareScheduling (fun _ => True)
             usageMatchesWorkloads); try done.
    - unfold usageMatchesWorkloads.
      intros c1 c2 [= Hws _ Hu Ha _] Hc1 fr. rewrite Hws, Hu, Ha. apply Hc1.
    - intros c1 w _. apply addOrUpdateWorkload_usageMatches. }
  assert (Workloads (updateQueueStatus TopologyAwareScheduling c) = Workloads c
          ∧ workloadsNotAccountedForTAS (updateQueueStatus TopologyAwareScheduling c)
            = (if TopologyAwareScheduling && (0 <? size (tasFlavors c))%nat
                  && isTASSynced c
               then workloadsNotAccountedForTAS c ∖ dom (Workloads c)
               else workloadsNotAccountedForTAS c)) as [Hws Hdeferred].
  { unfold updateQueueStatus.
    match goal with
    | |- context [if ?b then map_fold _ c (Workloads c) else c] =>
        set (c1 := if b then map_fold (reAddDeferred TopologyAwareScheduling) c
                               (Workloads c)
                   else c)
    end.
    assert (Workloads c1 = Workloads c
            ∧ workloadsNotAccountedForTAS c1
              = (if TopologyAwareScheduling && (0 <? size (tasFlavors c))%nat
                    && isTASSynced c
                 then workloadsNotAccountedForTAS c ∖ dom (Workloads c)
                 else workloadsNotAccountedForTAS c)) as Hc1.
    { subst c1.
      destruct TopologyAwareScheduling; simpl; [|done].
      destruct (0 <? size (tasFlavors c))%nat; simpl; [|done].
      destruct (isTASSynced c) eqn:Hsynced; rewrite ?andb_false_r; simpl; [|done].
      rewrite andb_true_r.
      destruct (0 <? size (workloadsNotAccountedForTAS c))%nat eqn:Hsize.
      - by destruct (reAddDeferred_loop_synced c (Workloads c) Hsynced Hkeyed)
          as (-> & -> & _).
      - split; [done|]. apply Nat.ltb_ge in Hsize.
        assert (workloadsNotAccountedForTAS c = ∅) as ->; [|set_solver].
        apply leibniz_equiv, size_empty_inv. lia. }
    clearbody c1. by case_bool_decide. }
  split_and!; [done| | |done].
  - intros fr. destruct (Husage' fr) as [-> _]. destruct (Husage fr) as [-> _].
    by rewrite Hws.
  - intros fr. destruct (Husage' fr) as [_ ->]. destruct (Husage fr) as [_ ->].
    by rewrite Hws.
Qed.

(** X9: [forgetWorkload] leaves the key of the workload neither among the
    workloads nor among those whose TAS usage is deferred, and on a queue that
    keeps its workloads under their keys it leaves every other key where it
    was in both; [deleteWorkload] alone puts the key of a TAS workload among
    the deferred ones when TopologyAwareScheduling is on and a TAS cache is not
    there yet. *)
Theorem forgetWorkload_leaves_no_trace (TopologyAwareScheduling : bool)
    (c : clusterQueue) (w : Workload) :
  let c' := forgetWorkload TopologyAwareScheduling c w in
  Workloads c' !! Key w = None
  ∧ (Key w ∉ workloadsNotAccountedForTAS c')
  ∧ (keyedByOwnKey c →
     ∀ k, k ≠ Key w →
          Workloads c' !! k = Workloads c !! k
          ∧ (k ∈ workloadsNotAccountedForTAS c' ↔ k ∈ workloadsNotAccountedForTAS c))
  ∧ (∀ wi, Workloads c !! Key w = Some wi → Key (Obj wi) = Key w →
           TopologyAwareScheduling = true → IsUsingTAS wi = true →
           isTASSynced c = false →
           Key w ∈ workloadsNotAccountedForTAS (deleteWorkload TopologyAwareScheduling c w)).
Proof.
  cbv zeta. unfold forgetWorkload. simpl. split_and!.
  - apply deleteWorkload_lookup.
  - set_solver.
  - intros Hkeyed k Hk. rewrite deleteWorkload_Workloads, lookup_delete_ne by done.
    split; [done|].
    destruct (Workloads c !! Key w) as [wi|] eqn:Hw.
    + destruct (deleteWorkload_more TopologyAwareScheduling c w wi Hw) as (_ & _ & ->).
      rewrite (Hkeyed _ _ Hw). unfold deferredAfter. repeat case_match; set_solver.
    + rewrite deleteWorkload_absent by done. set_solver.
  - intros wi Hw Hkey -> Husing Hsynced.
    destruct (deleteWorkload_more true c w wi Hw) as (_ & _ & ->).
    unfold deferredAfter. rewrite Husing, Hkey. simpl.
    unfold isTASSynced in Hsynced. rewrite Hsynced. set_solver.
Qed.

(** X10: [addOrUpdateWorkload] and [deleteWorkload] leave podsReadyTracking
    as it is and touch WorkloadsNotReady only when it is on and the workload
    passed in has no true PodsReady condition: the key of the workload is then
    put in by [addOrUpdateWorkload], and taken out by [deleteWorkload] if the
    queue holds the workload. *)
Theorem workloadsNotReady_follows_pods_ready (TopologyAwareScheduling : bool)
    (c : clusterQueue) (w : Workload) :
  WorkloadsNotReady (addOrUpdateWorkload TopologyAwareScheduling c w)
  = (if podsReadyTracking c && negb (wlPodsReady w)
     then {[Key w]} ∪ WorkloadsNotReady c else WorkloadsNotReady c)
  ∧ WorkloadsNotReady (deleteWorkload TopologyAwareScheduling c w)
    = (if podsReadyTracking c && negb (wlPodsReady w)
          && bool_decide (is_Some (Workloads c !! Key w))
       then WorkloadsNotReady c ∖ {[Key w]} else WorkloadsNotReady c)
  ∧ podsReadyTracking (addOrUpdateWorkload TopologyAwareScheduling c w)
    = podsReadyTracking c
  ∧ podsReadyTracking (deleteWorkload TopologyAwareScheduling c w)
    = podsReadyTracking c.
Proof.
  assert (WorkloadsNotReady (deleteWorkload TopologyAwareScheduling c w)
          = (if podsReadyTracking c && negb (wlPodsReady w)
                && bool_decide (is_Some (Workloads c !! Key w))
             then WorkloadsNotReady c ∖ {[Key w]} else WorkloadsNotReady c)
          ∧ podsReadyTracking (deleteWorkload TopologyAwareScheduling c w)
            = podsReadyTracking c) as [Hdel Htr].
  { destruct (Workloads c !! Key w) as [wi|] eqn:Hw.
    - destruct (deleteWorkload_more TopologyAwareScheduling c w wi Hw) as (_ & -> & _).
      destruct (deleteWorkload_present TopologyAwareScheduling c w wi Hw)
        as (_&_&_&_&_&->&_).
      rewrite bool_decide_eq_true_2 by done. by rewrite andb_true_r.
    - rewrite deleteWorkload_absent by done.
      rewrite bool_decide_eq_false_2 by (by intros [? ?]). by rewrite andb_false_r. }
  rewrite addOrUpdateWorkload_delete_first.
  destruct (addOrUpdateWorkload_more TopologyAwareScheduling _ w
              (deleteWorkload_lookup TopologyAwareScheduling c w)) as (_ & -> & _).
  destruct (addOrUpdateWorkload_absent TopologyAwareScheduling _ w
              (deleteWorkload_lookup TopologyAwareScheduling c w))
    as (_&_&_&_&_&->&_).
  rewrite Hdel, Htr. split_and!; [|done..].
  destruct (podsReadyTracking c && negb (wlPodsReady w)); simpl; [|done].
  case_bool_decide; [|done].
  apply set_eq. intros k. destruct (decide (k = Key w)); set_solver.
Qed.

(** X11: adding a workload under a key that the queue does not hold leaves
    AllocatableResourceGeneration as it is, so a successful [addWorkload]
    never changes it; [addOrUpdateWorkload] bumps it by one exactly when it
    replaces a workload held under the key. *)
Theorem generation_untouched_by_new_workload (TopologyAwareScheduling : bool)
    (c : clusterQueue) (w : Workload) :
  (∀ c', addWorkload TopologyAwareScheduling c w = (c', None) →
         AllocatableResourceGeneration c' = AllocatableResourceGeneration c)
  ∧ AllocatableResourceGeneration (addOrUpdateWorkload TopologyAwareScheduling c w)
    = (if bool_decide (is_Some (Workloads c !! Key w))
       then wrap64 (AllocatableResourceGeneration c + 1)
       else AllocatableResourceGeneration c).
Proof.
  split.
  - unfold addWorkload. destruct (Workloads c !! Key w) eqn:Hw; [done|].
    intros c' [= <-].
    by destruct (addOrUpdateWorkload_absent TopologyAwareScheduling c w Hw)
      as (_&_&_&->&_).
  - rewrite addOrUpdateWorkload_delete_first.
    destruct (addOrUpdateWorkload_absent TopologyAwareScheduling _ w
                (deleteWorkload_lookup TopologyAwareScheduling c w))
      as (_&_&_&->&_).
    destruct (Workloads c !! Key w) as [wi|] eqn:Hw.
    + rewrite bool_decide_eq_true_2 by done.
      by destruct (deleteWorkload_present TopologyAwareScheduling c w wi Hw)
        as (_&_&_&->&_).
    + rewrite bool_decide_eq_false_2 by (by intros [? ?]).
      by rewrite deleteWorkload_absent.
Qed.

(** ** The reason reported for a queue *)

Lemma isTASViolated_applicable (TopologyAwareScheduling : bool) (c : clusterQueue) :
  isTASViolated TopologyAwareScheduling c = applicable TopologyAwareScheduling c CauseTAS.
Proof.
  unfold isTASViolated, applicable.
  destruct TopologyAwareScheduling; simpl; [|done].
  rewrite Nat.eqb_sym. destruct (size (tasFlavors c)) as [|n]; simpl; [done|].
  destruct (isTASSynced c); simpl; [by rewrite orb_false_r|by rewrite orb_true_r].
Qed.

Lemma recordedCause_applicable (TopologyAwareScheduling : bool) (c : clusterQueue) :
  recordedCause TopologyAwareScheduling c
  ↔ ∃ cause, applicable TopologyAwareScheduling c cause = true.
Proof.
  rewrite <-pending_condition, isTASViolated_applicable. split.
  - rewrite !orb_true_iff. intros Hcases.
    repeat destruct Hcases as [Hcases|Hcases];
      [ by exists CauseStopped | by exists CauseMissingFlavors
      | by exists CauseMissingAdmissionChecks | by exists CauseInactiveAdmissionChecks
      | by exists CauseMultipleSingleInstance | by exists CauseFlavorIndependentPerFlavor
      | by exists CauseTAS | by exists CauseMultipleMultiKueue
      | by exists CausePerFlavorMultiKueue ].
  - intros [cause Hcause]. destruct cause; simpl in Hcause;
      rewrite ?Hcause, ?orb_true_r; try done.
    unfold applicable. simpl. by rewrite Hcause, ?orb_true_r.
Qed.

Lemma first_applicable_cause (TopologyAwareScheduling : bool) (c : clusterQueue) :
  (∃ cause, applicable TopologyAwareScheduling c cause = true) →
  ∃ cause causes,
    List.filter (applicable TopologyAwareScheduling c) causeOrder = cause :: causes.
Proof.
  intros [cause Hcause].
  destruct (List.filter _ causeOrder) as [|cause' causes] eqn:Hfilter; [|by eauto].
  assert (In cause (List.filter (applicable TopologyAwareScheduling c) causeOrder))
    as Hin.
  { apply filter_In. split; [|done]. unfold causeOrder. destruct cause; simpl; tauto. }
  rewrite Hfilter in Hin. destruct Hin.
Qed.

Lemma causeReason_named (c : clusterQueue) (cause : Cause) :
  causeReason c cause ≠ ClusterQueueActiveReasonReady
  ∧ causeReason c cause ≠ ClusterQueueActiveReasonTerminating
  ∧ causeReason c cause ≠ ClusterQueueActiveReasonUnknown.
Proof. destruct cause; simpl; repeat case_match; by split_and!. Qed.

(** [updateQueueStatus] leaves the queue with one of the three statuses that
    the package assigns. *)
Lemma updateQueueStatus_sets_status (TopologyAwareScheduling : bool)
    (c : clusterQueue) :
  Status (updateQueueStatus TopologyAwareScheduling c) ≠ noStatus.
Proof.
  unfold updateQueueStatus.
  match goal with
  | |- context [if ?b then map_fold _ c (Workloads c) else c] =>
      generalize (if b then map_fold (reAddDeferred TopologyAwareScheduling) c
                                     (Workloads c) else c)
  end.
  intros c1.
  match goal with
  | |- context [bool_decide (?status ≠ Status c1)] =>
      assert (status ≠ noStatus) as Hstatus by (by repeat case_match);
      generalize dependent status
  end.
  intros status Hstatus. case_bool_decide as Hne; simpl; [done|].
  by rewrite <- Hne.
Qed.

Lemma UpdateWithFlavors_sets_status (TopologyAwareScheduling : bool)
    (c : clusterQueue) (flavors : gmap string ResourceFlavor) :
  Status (UpdateWithFlavors TopologyAwareScheduling c flavors) ≠ noStatus.
Proof. unfold UpdateWithFlavors. apply updateQueueStatus_sets_status. Qed.

Lemma updateWithAdmissionChecks_keeps_status_set
    (TopologyAwareScheduling AdmissionCheckValidationRules : bool)
    (MultiKueueControllerName ProvisioningRequestControllerName : string)
    (c : clusterQueue) (checks : gmap string AdmissionCheck) :
  Status c ≠ noStatus →
  Status (updateWithAdmissionChecks TopologyAwareScheduling
            AdmissionCheckValidationRules MultiKueueControllerName
            ProvisioningRequestControllerName c checks) ≠ noStatus.
Proof.
  intros Hset.
  destruct (updateWithAdmissionChecks_unfold TopologyAwareScheduling
              AdmissionCheckValidationRules MultiKueueControllerName
              ProvisioningRequestControllerName c checks)
    as (x & update & -> & Hstatus & _).
  destruct update; [apply updateQueueStatus_sets_status|by rewrite Hstatus].
Qed.

(** After an [updateClusterQueue] that returns no error the queue has a
    status. *)
Lemma updateClusterQueue_sets_status
    (TopologyAwareScheduling AdmissionCheckValidationRules : bool)
    (MultiKueueControllerName ProvisioningRequestControllerName : string)
    (c c' : clusterQueue) (spec : ClusterQueueSpec)
    (resourceFlavors : gmap string ResourceFlavor)
    (admissionChecks : gmap string AdmissionCheck) (edge : CohortEdge) :
  updateClusterQueue TopologyAwareScheduling AdmissionCheckValidationRules
    MultiKueueControllerName ProvisioningRequestControllerName
    c spec resourceFlavors admissionChecks edge = (c', None) →
  Status c' ≠ noStatus.
Proof.
  unfold updateClusterQueue, updateQuotasAndResourceGroups.
  match goal with
  | |- context [if ?b then _ else (_, None)] => destruct b
  end.
  - destruct (hasOldParent edge && parentChanged edge);
      [destruct (oldParentTreeHoldsQueue edge)|];
      (destruct (hasParent edge); [destruct (treeUpdateError edge)|]); simpl;
      try done;
      (destruct (specNamespaceSelector spec); simpl; [done|]);
      intros [= <-];
      apply updateWithAdmissionChecks_keeps_status_set,
        UpdateWithFlavors_sets_status.
  - simpl. destruct (specNamespaceSelector spec); simpl; [done|].
    intros [= <-].
    apply updateWithAdmissionChecks_keeps_status_set, UpdateWithFlavors_sets_status.
Qed.

(** X12: [inactiveReason] gives the reason Ready exactly for a queue whose
    status is neither pending nor terminating: for an active queue, and for a
    queue that has no status yet (the zero value of the type), for which
    [Active] is false.  After [updateQueueStatus] a queue has a status, and
    the reason is Ready exactly when the queue is active.  The reason is
    Terminating exactly for a terminating queue. *)
Theorem inactiveReason_ready_unless_pending_or_terminating
    (TopologyAwareScheduling : bool)
    (TruncateConditionMessage fmtQ : string → string)
    (rangeTASFlavors : gmap string string → list (string * string))
    (c : clusterQueue) :
  (∀ m, rangeTASFlavors m ≡ₚ map_to_list m) →
  let reason c := fst (inactiveReason TopologyAwareScheduling
                         TruncateConditionMessage fmtQ rangeTASFlavors c) in
  (reason c = ClusterQueueActiveReasonReady
   ↔ Status c = active ∨ Status c = noStatus)
  ∧ (Status c = noStatus →
     reason c = ClusterQueueActiveReasonReady ∧ Active c = false)
  ∧ (reason (updateQueueStatus TopologyAwareScheduling c)
     = ClusterQueueActiveReasonReady
     ↔ Active (updateQueueStatus TopologyAwareScheduling c) = true)
  ∧ (reason c = ClusterQueueActiveReasonTerminating ↔ Status c = terminating).
Proof.
  intros Hperm. cbv zeta.
  assert (∀ c1,
            (fst (inactiveReason TopologyAwareScheduling TruncateConditionMessage
                    fmtQ rangeTASFlavors c1) = ClusterQueueActiveReasonReady
             ↔ Status c1 = active ∨ Status c1 = noStatus)
            ∧ (fst (inactiveReason TopologyAwareScheduling TruncateConditionMessage
                      fmtQ rangeTASFlavors c1) = ClusterQueueActiveReasonTerminating
               ↔ Status c1 = terminating)) as Hreason.
  { intros c1. destruct (Status c1) eqn:Hstatus.
    - rewrite (inactiveReason_pending _ _ _ _ Hperm) by done. unfold pendingReason.
      destruct (List.filter _ _) as [|cause causes]; simpl.
      + split; split; try done. by intros [?|?].
      + destruct (causeReason_named c1 cause) as (Hready & Hterminating & _).
        split; split; try done. by intros [?|?].
    - unfold inactiveReason. rewrite Hstatus. split; split; try done. by left.
    - rewrite inactiveReason_terminating by done.
      split; split; try done. by intros [?|?].
    - unfold inactiveReason. rewrite Hstatus. split; split; try done. by right. }
  split_and!.
  - apply Hreason.
  - intros Hnone. split; [by apply Hreason; right|].
    unfold Active. rewrite Hnone. by apply bool_decide_eq_false.
  - destruct (Hreason (updateQueueStatus TopologyAwareScheduling c)) as [-> _].
    unfold Active. rewrite bool_decide_eq_true.
    pose proof (updateQueueStatus_sets_status TopologyAwareScheduling c).
    split; [by intros [?|?]|by left].
  - apply Hreason.
Qed.

(** X13: through every sequence of updates of the queue, of its flavors and
    of its admission checks, on a queue whose status agreed with the causes
    on record, a pending queue has a cause on record, and [inactiveReason]
    names it: the reason is never Unknown. *)
Theorem pending_reason_is_never_unknown
    (TopologyAwareScheduling AdmissionCheckValidationRules : bool)
    (MultiKueueControllerName ProvisioningRequestControllerName : string)
    (TruncateConditionMessage fmtQ : string → string)
    (rangeTASFlavors : gmap string string → list (string * string))
    (ops : list StatusOp) (c : clusterQueue) :
  (∀ m, rangeTASFlavors m ≡ₚ map_to_list m) →
  statusAgrees TopologyAwareScheduling c c →
  let c' := foldl (applyStatusOp TopologyAwareScheduling AdmissionCheckValidationRules
                     MultiKueueControllerName ProvisioningRequestControllerName) c ops in
  Status c' = pending →
  recordedCause TopologyAwareScheduling c'
  ∧ fst (inactiveReason TopologyAwareScheduling TruncateConditionMessage fmtQ
           rangeTASFlavors c') ≠ ClusterQueueActiveReasonUnknown.
Proof.
  intros Hperm Hagrees. cbv zeta.
  assert (statusInvariant TopologyAwareScheduling c
            (foldl (applyStatusOp TopologyAwareScheduling AdmissionCheckValidationRules
                      MultiKueueControllerName ProvisioningRequestControllerName)
               c ops)) as [Hagrees' Hterminating].
  { assert (statusInvariant TopologyAwareScheduling c c) as Hinv by (by split).
    revert Hinv. generalize c at 2 4 as c1.
    induction ops as [|op ops IH]; intros c1 Hinv; simpl; [done|].
    by apply IH, applyStatusOp_statusInvariant. }
  intros Hpending.
  assert (recordedCause TopologyAwareScheduling
            (foldl (applyStatusOp TopologyAwareScheduling AdmissionCheckValidationRules
                      MultiKueueControllerName ProvisioningRequestControllerName)
               c ops)) as Hcause.
  { unfold statusAgrees in Hagrees'.
    destruct (decide (Status c = terminating)) as [Hterm|Hterm].
    - apply Hterminating in Hterm. congruence.
    - apply dec_stable. intros Hno.
      assert (Status (foldl (applyStatusOp TopologyAwareScheduling
                               AdmissionCheckValidationRules MultiKueueControllerName
                               ProvisioningRequestControllerName) c ops) = active)
        as Hactive by (apply Hagrees'; tauto).
      congruence. }
  split; [exact Hcause|].
  rewrite (inactiveReason_pending _ _ _ _ Hperm) by done. unfold pendingReason.
  destruct (first_applicable_cause TopologyAwareScheduling _
              (proj1 (recordedCause_applicable _ _) Hcause))
    as (cause & causes & ->).
  simpl. apply causeReason_named.
Qed.

(** ** Updates of the queue *)

Lemma causeView_updateLabelKeys (c : clusterQueue)
    (flavors : gmap string ResourceFlavor) :
  let c' := updateLabelKeys c flavors in
  isStopped c' = isStopped c ∧ AdmissionChecks c' = AdmissionChecks c
  ∧ Status c' = Status c.
Proof. cbv zeta. unfold updateLabelKeys. by repeat case_match. Qed.

Lemma UpdateWithFlavors_keeps (TopologyAwareScheduling : bool) (c : clusterQueue)
    (flavors : gmap string ResourceFlavor) :
  let c' := UpdateWithFlavors TopologyAwareScheduling c flavors in
  isStopped c' = isStopped c ∧ AdmissionChecks c' = AdmissionChecks c.
Proof.
  cbv zeta. unfold UpdateWithFlavors.
  destruct (updateQueueStatus_spec TopologyAwareScheduling (updateLabelKeys c flavors))
    as (Hview & _).
  apply causeView_fields in Hview as (-> &_&_&_&_&_&_&_&_&_&_& -> &_).
  destruct (causeView_updateLabelKeys c flavors) as (-> & -> & _). done.
Qed.

Lemma updateWithAdmissionChecks_keeps
    (TopologyAwareScheduling AdmissionCheckValidationRules : bool)
    (MultiKueueControllerName ProvisioningRequestControllerName : string)
    (c : clusterQueue) (checks : gmap string AdmissionCheck) :
  let c' := updateWithAdmissionChecks TopologyAwareScheduling
              AdmissionCheckValidationRules MultiKueueControllerName
              ProvisioningRequestControllerName c checks in
  isStopped c' = isStopped c ∧ AdmissionChecks c' = AdmissionChecks c
  ∧ ResourceGroups c' = ResourceGroups c ∧ missingFlavors c' = missingFlavors c
  ∧ tasFlavors c' = tasFlavors c.
Proof.
  cbv zeta.
  assert (∃ x (update : bool),
            updateWithAdmissionChecks TopologyAwareScheduling
              AdmissionCheckValidationRules MultiKueueControllerName
              ProvisioningRequestControllerName c checks
            = (if update then updateQueueStatus TopologyAwareScheduling x else x)
            ∧ isStopped x = isStopped c ∧ AdmissionChecks x = AdmissionChecks c
            ∧ ResourceGroups x = ResourceGroups c
            ∧ missingFlavors x = missingFlavors c ∧ tasFlavors x = tasFlavors c)
    as (x & update & -> & Hx).
  { unfold updateWithAdmissionChecks.
    set (s := scanAdmissionChecks _ _ c checks).
    destruct AdmissionCheckValidationRules;
      repeat (case_bool_decide; simpl);
      first [ exists c, false; split; [reflexivity|]
            | eexists _, true; split; [reflexivity|] ];
      by split_and!. }
  destruct update; [|done].
  destruct (updateQueueStatus_spec TopologyAwareScheduling x) as (Hview & _).
  apply causeView_fields in Hview as (-> & -> &_&_&_&_&_&_&_& -> &_& -> & ->).
  done.
Qed.

(** What [updateClusterQueue] returns: the error of the update of the cohort
    tree, else the error of the namespace selector, else none. *)
Lemma updateClusterQueue_error
    (TopologyAwareScheduling AdmissionCheckValidationRules : bool)
    (MultiKueueControllerName ProvisioningRequestControllerName : string)
    (c : clusterQueue) (spec : ClusterQueueSpec)
    (resourceFlavors : gmap string ResourceFlavor)
    (admissionChecks : gmap string AdmissionCheck) (edge : CohortEdge) :
  let changed := snd (updateQuotasAndResourceGroups c (specResourceGroups spec)) in
  let treeError :=
    if (changed || parentChanged edge) && hasParent edge
    then treeUpdateError edge else None in
  snd (updateClusterQueue TopologyAwareScheduling AdmissionCheckValidationRules
         MultiKueueControllerName ProvisioningRequestControllerName
         c spec resourceFlavors admissionChecks edge)
  = match treeError with
    | Some err => Some err
    | None => specNamespaceSelector spec
    end.
Proof.
  cbv zeta. unfold updateClusterQueue.
  destruct (updateQuotasAndResourceGroups c (specResourceGroups spec))
    as [c1 changed]. simpl.
  destruct (changed || parentChanged edge); simpl.
  - destruct (hasOldParent edge && parentChanged edge);
      [destruct (oldParentTreeHoldsQueue edge)|];
      (destruct (hasParent edge); [destruct (treeUpdateError edge)|]); simpl; try done;
      by destruct (specNamespaceSelector spec).
  - by destruct (specNamespaceSelector spec).
Qed.

(** X14: [updateClusterQueue] returns the error of the update of the cohort
    tree, which it runs only for a queue with a parent whose quotas, resource
    groups or parent changed, else the error of the namespace selector, else
    none.  When it returns an error the resource groups and the quotas are
    those of the new spec already, while the status, the stop flag, the
    admission checks, the missing and the TAS flavors and the accounts of the
    workloads are as before. *)
Theorem updateClusterQueue_on_error
    (TopologyAwareScheduling AdmissionCheckValidationRules : bool)
    (MultiKueueControllerName ProvisioningRequestControllerName : string)
    (c : clusterQueue) (spec : ClusterQueueSpec)
    (resourceFlavors : gmap string ResourceFlavor)
    (admissionChecks : gmap string AdmissionCheck) (edge : CohortEdge) :
  let r := updateClusterQueue TopologyAwareScheduling AdmissionCheckValidationRules
             MultiKueueControllerName ProvisioningRequestControllerName
             c spec resourceFlavors admissionChecks edge in
  let changed := snd (updateQuotasAndResourceGroups c (specResourceGroups spec)) in
  snd r
  = match (if (changed || parentChanged edge) && hasParent edge
           then treeUpdateError edge else None) with
    | Some err => Some err
    | None => specNamespaceSelector spec
    end
  ∧ (snd r ≠ None →
     ResourceGroups (fst r) = createdResourceGroups (specResourceGroups spec)
     ∧ Quotas (resourceNode (fst r)) = createResourceQuotas (specResourceGroups spec)
     ∧ Status (fst r) = Status c
     ∧ isStopped (fst r) = isStopped c
     ∧ AdmissionChecks (fst r) = AdmissionChecks c
     ∧ missingFlavors (fst r) = missingFlavors c
     ∧ tasFlavors (fst r) = tasFlavors c
     ∧ accountView (fst r) = accountView c).
Proof.
  cbv zeta. split; [apply updateClusterQueue_error|].
  unfold updateClusterQueue, updateQuotasAndResourceGroups.
  match goal with
  | |- context [if ?b then _ else (_, None)] => destruct b
  end.
  - destruct (hasOldParent edge && parentChanged edge);
      [destruct (oldParentTreeHoldsQueue edge)|];
      (destruct (hasParent edge); [destruct (treeUpdateError edge)|]); simpl;
      try (by intros _; split_and!);
      (destruct (specNamespaceSelector spec); simpl;
       [by intros _; split_and!|by intros []]).
  - simpl. destruct (specNamespaceSelector spec); simpl;
      [by intros _; split_and!|by intros []].
Qed.

(** X15: after an [updateClusterQueue] that returns no error, the queue is
    stopped exactly when the spec has a stop policy other than None, and its
    admission checks are those of the spec.  A queue with the stop policy Hold
    or HoldAndDrain is not active; unless it was terminating it is pending,
    and the reason that [inactiveReason] gives is Stopped. *)
Theorem updateClusterQueue_stop_policy
    (TopologyAwareScheduling AdmissionCheckValidationRules : bool)
    (MultiKueueControllerName ProvisioningRequestControllerName : string)
    (TruncateConditionMessage fmtQ : string → string)
    (rangeTASFlavors : gmap string string → list (string * string))
    (c c' : clusterQueue) (spec : ClusterQueueSpec)
    (resourceFlavors : gmap string ResourceFlavor)
    (admissionChecks : gmap string AdmissionCheck) (edge : CohortEdge) :
  (∀ m, rangeTASFlavors m ≡ₚ map_to_list m) →
  updateClusterQueue TopologyAwareScheduling AdmissionCheckValidationRules
    MultiKueueControllerName ProvisioningRequestControllerName
    c spec resourceFlavors admissionChecks edge = (c', None) →
  (isStopped c' = true ↔
   specStopPolicy spec = Some Hold ∨ specStopPolicy spec = Some HoldAndDrain)
  ∧ AdmissionChecks c' = specAdmissionChecks spec
  ∧ (isStopped c' = true →
     Status c' ≠ active
     ∧ (Status c ≠ terminating →
        Status c' = pending
        ∧ fst (inactiveReason TopologyAwareScheduling TruncateConditionMessage fmtQ
                 rangeTASFlavors c') = ClusterQueueActiveReasonStopped)).
Proof.
  intros Hperm Hupdate.
  destruct (updateClusterQueue_status TopologyAwareScheduling
              AdmissionCheckValidationRules MultiKueueControllerName
              ProvisioningRequestControllerName c spec resourceFlavors
              admissionChecks edge) as (Hterminating & Hagrees & _).
  rewrite Hupdate in Hterminating, Hagrees. simpl in Hterminating, Hagrees.
  specialize (Hagrees eq_refl).
  assert (isStopped c'
          = negb (bool_decide (default StopPolicyNone (specStopPolicy spec)
                               = StopPolicyNone))
          ∧ AdmissionChecks c' = specAdmissionChecks spec) as [Hstopped Hchecks].
  { revert Hupdate. unfold updateClusterQueue, updateQuotasAndResourceGroups.
    assert (∀ c2,
              let c3 := updateWithAdmissionChecks TopologyAwareScheduling
                          AdmissionCheckValidationRules MultiKueueControllerName
                          ProvisioningRequestControllerName
                          (UpdateWithFlavors TopologyAwareScheduling
                             (set_AdmissionChecks (specAdmissionChecks spec)
                                (set_isStopped
                                   (negb (bool_decide
                                            (default StopPolicyNone (specStopPolicy spec)
                                             = StopPolicyNone))) c2))
                             resourceFlavors) admissionChecks in
              isStopped c3
              = negb (bool_decide (default StopPolicyNone (specStopPolicy spec)
                                   = StopPolicyNone))
              ∧ AdmissionChecks c3 = specAdmissionChecks spec) as Hrest.
    { intros c2. cbv zeta.
      match goal with
      | |- context [updateWithAdmissionChecks _ _ _ _ (UpdateWithFlavors _ ?x ?f) ?a] =>
          destruct (updateWithAdmissionChecks_keeps TopologyAwareScheduling
                      AdmissionCheckValidationRules MultiKueueControllerName
                      ProvisioningRequestControllerName
                      (UpdateWithFlavors TopologyAwareScheduling x f) a)
            as (-> & -> & _);
          destruct (UpdateWithFlavors_keeps TopologyAwareScheduling x f) as (-> & ->)
      end.
      done. }
    match goal with
    | |- context [if ?b then _ else (_, None)] => destruct b
    end.
    - destruct (hasOldParent edge && parentChanged edge);
      [destruct (oldParentTreeHoldsQueue edge)|];
      (destruct (hasParent edge); [destruct (treeUpdateError edge)|]); simpl;
        try done;
        (destruct (specNamespaceSelector spec); simpl; [done|]);
        intros [= <-]; apply Hrest.
    - simpl. destruct (specNamespaceSelector spec); simpl; [done|].
      intros [= <-]. apply Hrest. }
  split_and!; [|done|].
  - rewrite Hstopped, negb_true_iff, bool_decide_eq_false.
    destruct (specStopPolicy spec) as [[| |]|]; simpl; naive_solver.
  - intros Hstop.
    assert (Status c' ≠ active) as Hnot.
    { intros Hactive. apply Hagrees in Hactive. apply Hactive. left. by left. }
    split; [done|]. intros Hnt.
    assert (Status c' = pending) as Hpending.
    { pose proof (updateClusterQueue_sets_status _ _ _ _ _ _ _ _ _ _ Hupdate)
        as Hset.
      destruct (Status c') eqn:Hs; [done|done| |done].
      exfalso. apply Hnt. by apply Hterminating. }
    split; [done|].
    rewrite (inactiveReason_pending _ _ _ _ Hperm) by done.
    unfold pendingReason, causeOrder. cbn [List.filter].
    change (applicable TopologyAwareScheduling c' CauseStopped) with (isStopped c').
    by rewrite Hstop.
Qed.

(** ** Admission checks on record *)

Lemma updateWithAdmissionChecks_settled
    (TopologyAwareScheduling AdmissionCheckValidationRules : bool)
    (MultiKueueControllerName ProvisioningRequestControllerName : string)
    (c : clusterQueue) (checks : gmap string AdmissionCheck) :
  let s := scanAdmissionChecks MultiKueueControllerName
             ProvisioningRequestControllerName c checks in
  missingAdmissionChecks c = sortStrings (missing s) →
  inactiveAdmissionChecks c = sortStrings (inactive s) →
  multiKueueAdmissionChecks c = setsList (multiKueueSet s) →
  provisioningAdmissionChecks c = setsList (provisioningSet s) →
  perFlavorMultiKueueAdmissionChecks c = sortStrings (perFlavorMultiKueueChecks s) →
  (AdmissionCheckValidationRules = true →
   multipleSingleInstanceControllersChecks c = duplicateSingleInstance s
   ∧ flavorIndependentAdmissionCheckAppliedPerFlavor c
     = sortStrings (flavorIndependentCheckOnFlavors s)) →
  updateWithAdmissionChecks TopologyAwareScheduling AdmissionCheckValidationRules
    MultiKueueControllerName ProvisioningRequestControllerName c checks = c.
Proof.
  cbv zeta. intros H1 H2 H3 H4 H5 H6. unfold updateWithAdmissionChecks.
  rewrite (bool_decide_eq_true_2 _ H1). simpl.
  rewrite (bool_decide_eq_true_2 _ H2). simpl.
  destruct AdmissionCheckValidationRules.
  - destruct (H6 eq_refl) as [H7 H8].
    rewrite (bool_decide_eq_true_2 _ (eq_sym H7)). simpl.
    rewrite (bool_decide_eq_true_2 _ H8). simpl.
    rewrite (bool_decide_eq_true_2 _ H3). simpl.
    rewrite (bool_decide_eq_true_2 _ H4). simpl.
    by rewrite (bool_decide_eq_true_2 _ H5).
  - rewrite (bool_decide_eq_true_2 _ H3). simpl.
    rewrite (bool_decide_eq_true_2 _ H4). simpl.
    by rewrite (bool_decide_eq_true_2 _ H5).
Qed.

(** X16: [updateWithAdmissionChecks] with the admission checks it was last
    run with changes nothing. *)
Theorem updateWithAdmissionChecks_idempotent
    (TopologyAwareScheduling AdmissionCheckValidationRules : bool)
    (MultiKueueControllerName ProvisioningRequestControllerName : string)
    (c : clusterQueue) (checks : gmap string AdmissionCheck) :
  let c' := updateWithAdmissionChecks TopologyAwareScheduling
              AdmissionCheckValidationRules MultiKueueControllerName
              ProvisioningRequestControllerName c checks in
  updateWithAdmissionChecks TopologyAwareScheduling AdmissionCheckValidationRules
    MultiKueueControllerName ProvisioningRequestControllerName c' checks = c'.
Proof.
  cbv zeta.
  destruct (updateWithAdmissionChecks_fields TopologyAwareScheduling
              AdmissionCheckValidationRules MultiKueueControllerName
              ProvisioningRequestControllerName c checks)
    as (H1 & H2 & H3 & H4 & H5 & H6 & H7).
  destruct (updateWithAdmissionChecks_keeps TopologyAwareScheduling
              AdmissionCheckValidationRules MultiKueueControllerName
              ProvisioningRequestControllerName c checks) as (_ & Hchecks & _).
  assert (scanAdmissionChecks MultiKueueControllerName
            ProvisioningRequestControllerName
            (updateWithAdmissionChecks TopologyAwareScheduling
               AdmissionCheckValidationRules MultiKueueControllerName
               ProvisioningRequestControllerName c checks) checks
          = scanAdmissionChecks MultiKueueControllerName
              ProvisioningRequestControllerName c checks) as Hscan.
  { unfold scanAdmissionChecks. by rewrite Hchecks. }
  apply updateWithAdmissionChecks_settled; rewrite Hscan; try done.
  intros ->. done.
Qed.

Lemma sortStrings_sortedSetOf (l : list string) (P : string → Prop) :
  NoDup l → (∀ x, x ∈ l ↔ P x) → sortedSetOf (sortStrings l) P.
Proof.
  intros Hnodup HP. unfold sortedSetOf, sortStrings. split_and!.
  - apply Sorted_merge_sort, _.
  - by rewrite merge_sort_Permutation.
  - intros x. by rewrite merge_sort_Permutation.
Qed.

Lemma setsList_sortedSetOf (X : gset string) (P : string → Prop) :
  (∀ x, x ∈ X ↔ P x) → sortedSetOf (setsList X) P.
Proof.
  intros HP. apply sortStrings_sortedSetOf; [apply NoDup_elements|].
  intros x. by rewrite elem_of_elements.
Qed.

(** The lists that the loop of [updateWithAdmissionChecks] gathers hold no
    admission check twice. *)
Lemma scan_lists_NoDup (MultiKueueControllerName ProvisioningRequestControllerName : string)
    (checks : gmap string AdmissionCheck) (acs : gmap string (gset string)) :
  let s := map_fold (visitAdmissionCheck MultiKueueControllerName
                       ProvisioningRequestControllerName checks) emptyScan acs in
  scanRecords MultiKueueControllerName ProvisioningRequestControllerName checks acs s
  ∧ NoDup (missing s) ∧ NoDup (inactive s)
  ∧ NoDup (flavorIndependentCheckOnFlavors s) ∧ NoDup (perFlavorMultiKueueChecks s).
Proof.
  cbv zeta. induction acs as [|acName flavors acs Hfresh Hfold IH] using gmap_fold_ind.
  - rewrite map_fold_empty. split; [apply scanRecords_empty|].
    split_and!; apply NoDup_nil_2.
  - rewrite Hfold. destruct IH as (Hrec & Hn1 & Hn2 & Hn3 & Hn4).
    split; [by apply scanRecords_visit|].
    destruct Hrec as (Hmiss & Hinact & _ & _ & Hpf & Hfi & _).
    assert (∀ l : list string,
              NoDup l → (∀ a, a ∈ l → is_Some (acs !! a)) → NoDup (l ++ [acName]))
      as Happ.
    { intros l Hl Hin. apply NoDup_app. split_and!; [done| |apply NoDup_singleton].
      intros a Ha%Hin ->%list_elem_of_singleton. rewrite Hfresh in Ha.
      by destruct Ha. }
    unfold visitAdmissionCheck.
    destruct (checks !! acName) as [ac|]; simpl; split_and!; try done.
    + destruct (negb (acActive ac)); [|done]. apply Happ; [done|].
      intros a Ha. apply Hinact in Ha as (? & ? & _). done.
    + destruct (acFlavorIndependent ac && _); [|done]. apply Happ; [done|].
      intros a Ha. apply Hfi in Ha as (? & ? & -> & _). done.
    + destruct (bool_decide _ && _); [|done]. apply Happ; [done|].
      intros a Ha. apply Hpf in Ha as (? & ? & -> & _). done.
    + apply Happ; [done|]. intros a Ha. by apply Hmiss in Ha as [? _].
Qed.

(** X17: after [updateWithAdmissionChecks] the lists of missing, inactive,
    MultiKueue, ProvisioningRequest and per-flavor MultiKueue admission checks
    on record are sorted, hold no check twice, and hold exactly the checks
    that the queue references and that are, in the checks passed in, absent,
    inactive, of the MultiKueue controller, of the ProvisioningRequest
    controller, and of the MultiKueue controller while applied to chosen
    flavors; with AdmissionCheckValidationRules on, the same holds of the
    flavor-independent checks applied to chosen flavors. *)
Theorem updateWithAdmissionChecks_records_sorted_sets
    (TopologyAwareScheduling AdmissionCheckValidationRules : bool)
    (MultiKueueControllerName ProvisioningRequestControllerName : string)
    (c : clusterQueue) (checks : gmap string AdmissionCheck) :
  let c' := updateWithAdmissionChecks TopologyAwareScheduling
              AdmissionCheckValidationRules MultiKueueControllerName
              ProvisioningRequestControllerName c checks in
  sortedSetOf (missingAdmissionChecks c')
    (fun acName => is_Some (AdmissionChecks c !! acName) ∧ checks !! acName = None)
  ∧ sortedSetOf (inactiveAdmissionChecks c')
      (fun acName => ∃ ac, referencesCheck c checks acName ac ∧ acActive ac = false)
  ∧ sortedSetOf (multiKueueAdmissionChecks c')
      (fun acName => ∃ ac, referencesCheck c checks acName ac
                           ∧ acController ac = MultiKueueControllerName)
  ∧ sortedSetOf (provisioningAdmissionChecks c')
      (fun acName => ∃ ac, referencesCheck c checks acName ac
                           ∧ acController ac = ProvisioningRequestControllerName)
  ∧ sortedSetOf (perFlavorMultiKueueAdmissionChecks c')
      (fun acName => ∃ flavors ac,
                       AdmissionChecks c !! acName = Some flavors ∧ flavors ≠ ∅
                       ∧ checks !! acName = Some ac
                       ∧ acController ac = MultiKueueControllerName)
  ∧ (AdmissionCheckValidationRules = true →
     sortedSetOf (flavorIndependentAdmissionCheckAppliedPerFlavor c')
       (fun acName => ∃ flavors ac,
                        AdmissionChecks c !! acName = Some flavors ∧ flavors ≠ ∅
                        ∧ checks !! acName = Some ac
                        ∧ acFlavorIndependent ac = true)).
Proof.
  cbv zeta.
  destruct (updateWithAdmissionChecks_fields TopologyAwareScheduling
              AdmissionCheckValidationRules MultiKueueControllerName
              ProvisioningRequestControllerName c checks)
    as (-> & -> & -> & -> & -> & _ & Hfi).
  destruct (scan_lists_NoDup MultiKueueControllerName ProvisioningRequestControllerName
              checks (AdmissionChecks c))
    as ((Hmiss & Hinact & Hmk & Hprov & Hpf & Hfi' & _) & Hn1 & Hn2 & Hn3 & Hn4).
  fold (scanAdmissionChecks MultiKueueControllerName ProvisioningRequestControllerName
          c checks) in *.
  unfold referencesCheck. split_and!.
  - by apply sortStrings_sortedSetOf.
  - apply sortStrings_sortedSetOf; [done|]. intros a. rewrite Hinact. naive_solver.
  - apply setsList_sortedSetOf. intros a. rewrite Hmk. naive_solver.
  - apply setsList_sortedSetOf. intros a. rewrite Hprov. naive_solver.
  - by apply sortStrings_sortedSetOf.
  - intros ->. rewrite Hfi. by apply sortStrings_sortedSetOf.
Qed.

(** X18: with AdmissionCheckValidationRules on, [updateWithAdmissionChecks]
    puts a controller on record in multipleSingleInstanceControllersChecks
    exactly when the queue references two or more admission checks of the
    controller and one of them wants to be single in a queue; the list on
    record for the controller then holds all the checks of the controller that
    the queue references, sorted and once each. *)
Theorem single_instance_controllers_on_record (TopologyAwareScheduling : bool)
    (MultiKueueControllerName ProvisioningRequestControllerName : string)
    (c : clusterQueue) (checks : gmap string AdmissionCheck) (controller : string) :
  let c' := updateWithAdmissionChecks TopologyAwareScheduling true
              MultiKueueControllerName ProvisioningRequestControllerName c checks in
  let ofController acName :=
    ∃ ac, referencesCheck c checks acName ac ∧ acController ac = controller in
  (∀ acs, multipleSingleInstanceControllersChecks c' !! controller = Some acs →
          sortedSetOf acs ofController)
  ∧ (is_Some (multipleSingleInstanceControllersChecks c' !! controller) ↔
     (∃ acName1 acName2,
        acName1 ≠ acName2 ∧ ofController acName1 ∧ ofController acName2)
     ∧ (∃ acName ac, referencesCheck c checks acName ac
                     ∧ acController ac = controller
                     ∧ acSingleInstanceInClusterQueue ac = true)).
Proof.
  cbv zeta.
  destruct (updateWithAdmissionChecks_fields TopologyAwareScheduling true
              MultiKueueControllerName ProvisioningRequestControllerName c checks)
    as (_ & _ & _ & _ & _ & -> & _).
  destruct (scanAdmissionChecks_records MultiKueueControllerName
              ProvisioningRequestControllerName c checks)
    as (_ & _ & _ & _ & _ & _ & Hcpc & Hnd & Hsingle).
  set (s := scanAdmissionChecks MultiKueueControllerName
              ProvisioningRequestControllerName c checks) in *.
  assert (∀ a, a ∈ default [] (checksPerController s !! controller) ↔
               ∃ ac, referencesCheck c checks a ac ∧ acController ac = controller)
    as Hmembers.
  { intros a. rewrite Hcpc. unfold referencesCheck. naive_solver. }
  unfold duplicateSingleInstance. rewrite lookup_fmap. split.
  - intros acs Hacs. apply fmap_Some in Hacs as (acs0 & Hacs0 & ->).
    apply map_lookup_filter_Some in Hacs0 as [Hacs0 _].
    specialize (Hnd controller). rewrite Hacs0 in Hnd, Hmembers. simpl in *.
    by apply sortStrings_sortedSetOf.
  - rewrite fmap_is_Some. unfold is_Some.
    setoid_rewrite map_lookup_filter_Some. simpl. split.
    + intros (acs & Hacs & Hkeep).
      specialize (Hnd controller). rewrite Hacs in Hnd, Hmembers. simpl in *.
      assert ((1 < length acs)%nat ∧ controller ∈ singleInstanceControllers s)
        as [Hlen Hin].
      { split.
        - destruct (decide (1 < length acs)%nat); [done|]. exfalso. apply Hkeep.
          left. lia.
        - destruct (decide (controller ∈ singleInstanceControllers s)); [done|].
          exfalso. apply Hkeep. by right. }
      split.
      * apply (two_distinct acs Hnd) in Hlen as (a1 & a2 & Hne & H1 & H2).
        exists a1, a2. by rewrite <-!Hmembers.
      * apply Hsingle in Hin as (a & ac & ? & ? & ? & ?).
        exists a, ac. by split_and!.
    + intros [(a1 & a2 & Hne & H1 & H2) (a & ac & [Href Hck] & Hctrl & Hs)].
      apply Hmembers in H1, H2.
      destruct (checksPerController s !! controller) as [acs|] eqn:Hacs;
        [|by apply elem_of_nil in H1].
      specialize (Hnd controller). rewrite Hacs in Hnd. simpl in *.
      exists acs. split; [done|]. intros [Hshort|Hnot].
      * assert (1 < length acs)%nat; [|lia].
        apply (two_distinct acs Hnd). by exists a1, a2.
      * apply Hnot, Hsingle. by exists a, ac.
Qed.

(** ** Local queues and resource groups *)

Lemma set_localQueues_id (c : clusterQueue) : set_localQueues (localQueues c) c = c.
Proof. by destruct c. Qed.

(** X19: registering a local queue under a key that is free succeeds, and
    [deleteLocalQueue] then gives back the queue as it was; [deleteLocalQueue]
    of a key that is not registered changes nothing; after [deleteLocalQueue]
    the key is free, the other local queues are as before, and the local
    queue can be registered again. *)
Theorem local_queue_registration_round_trip (c : clusterQueue) (q : LocalQueue) :
  (localQueues c !! queueKey q = None →
   snd (addLocalQueue c q) = None
   ∧ deleteLocalQueue (fst (addLocalQueue c q)) q = c
   ∧ deleteLocalQueue c q = c)
  ∧ localQueues (deleteLocalQueue c q) !! queueKey q = None
  ∧ (∀ k, k ≠ queueKey q →
          localQueues (deleteLocalQueue c q) !! k = localQueues c !! k)
  ∧ snd (addLocalQueue (deleteLocalQueue c q) q) = None.
Proof.
  split_and!.
  - intros Hfree. unfold addLocalQueue, deleteLocalQueue. rewrite Hfree. simpl.
    split_and!; [done| |].
    + rewrite delete_insert_eq, delete_id by done.
      match goal with
      | |- set_localQueues _ (set_localQueues ?l c) = c =>
          change (set_localQueues (localQueues c) (set_localQueues l c))
            with (set_localQueues (localQueues c) c)
      end.
      apply set_localQueues_id.
    + rewrite delete_id by done. apply set_localQueues_id.
  - unfold deleteLocalQueue. simpl. apply lookup_delete_eq.
  - intros k Hk. unfold deleteLocalQueue. simpl. by apply lookup_delete_ne.
  - unfold addLocalQueue, deleteLocalQueue. simpl. by rewrite lookup_delete_eq.
Qed.

Lemma set_ResourceGroups_Quotas_id (c : clusterQueue) :
  set_Quotas (Quotas (resourceNode c)) (set_ResourceGroups (ResourceGroups c) c) = c.
Proof. by destruct c as [? ? ? ? ? ? ? ? ? ? ? ? ? ? ? ? ? ? ? ? [? ?] ? ?]. Qed.

(** X20: [updateQuotasAndResourceGroups] reports no change exactly when the
    generation is not 0 and the queue it leaves is the queue it found; run
    again with the same resource groups, it leaves the queue as it is and
    reports a change only for the generation 0. *)
Theorem updateQuotasAndResourceGroups_reports_change (c : clusterQueue)
    (kueueRgs : list KResourceGroup) :
  let r := updateQuotasAndResourceGroups c kueueRgs in
  (snd r = false ↔ AllocatableResourceGeneration c ≠ 0 ∧ fst r = c)
  ∧ updateQuotasAndResourceGroups (fst r) kueueRgs
    = (fst r, AllocatableResourceGeneration c =? 0).
Proof.
  cbv zeta. unfold updateQuotasAndResourceGroups. simpl. split.
  - rewrite !orb_false_iff, !negb_false_iff, !bool_decide_eq_true, Z.eqb_neq.
    split.
    + intros [[Hgen Hrgs] Hquotas]. split; [done|].
      rewrite <-Hrgs, <-Hquotas. apply set_ResourceGroups_Quotas_id.
    + intros [Hgen Hsame]. split_and!; [done| |].
      * by rewrite <-Hsame at 1.
      * by rewrite <-Hsame at 1.
  - rewrite !bool_decide_eq_true_2 by done. simpl. by rewrite !orb_false_r.
Qed.

(** The flavors and resources for which the loop of [addLocalQueue] leaves
    an entry: those of the local queue it starts from, and those used by a
    workload of the local queue. *)
Lemma countWorkload_loop_dom (q : LocalQueue) (ws : gmap string Info) (qi0 : queue) :
  let r := map_fold (fun _ wl qImpl => countWorkload q wl qImpl) qi0 ws in
  (∀ fr, fr ∈ dom (totalReserved r) ↔
         fr ∈ dom (totalReserved qi0)
         ∨ ∃ k wi, ws !! k = Some wi ∧ inLocalQueue q wi = true
                   ∧ fr ∈ dom (FlavorResourceUsage wi))
  ∧ (∀ fr, fr ∈ dom (admittedUsage r) ↔
           fr ∈ dom (admittedUsage qi0)
           ∨ ∃ k wi, ws !! k = Some wi ∧ admittedInLocalQueue q wi = true
                     ∧ fr ∈ dom (FlavorResourceUsage wi)).
Proof.
  cbv zeta.
  induction ws as [|k wi ws Hk Hfold IH] using gmap_fold_ind.
  - rewrite map_fold_empty. split; intros fr; split; try tauto.
    + intros [?|(k & wi & Hl & _)]; [done|]. by rewrite lookup_empty in Hl.
    + intros [?|(k & wi & Hl & _)]; [done|]. by rewrite lookup_empty in Hl.
  - rewrite Hfold.
    set (r := map_fold (λ _ wl qImpl, countWorkload q wl qImpl) qi0 ws) in *.
    destruct IH as [IHt IHu]. clearbody r.
    assert (∀ (P : Info → bool) fr,
              (∃ k' wi', <[k:=wi]> ws !! k' = Some wi' ∧ P wi' = true
                         ∧ fr ∈ dom (FlavorResourceUsage wi'))
              ↔ (P wi = true ∧ fr ∈ dom (FlavorResourceUsage wi))
                ∨ ∃ k' wi', ws !! k' = Some wi' ∧ P wi' = true
                            ∧ fr ∈ dom (FlavorResourceUsage wi')) as Hins.
    { intros P fr. split.
      - intros (k' & wi' & Hl & HP & Hfr).
        apply lookup_insert_Some in Hl as [[<- <-]|[Hne Hl]]; [by left|].
        right. by exists k', wi'.
      - intros [[HP Hfr]|(k' & wi' & Hl & HP & Hfr)].
        + exists k, wi. by rewrite lookup_insert_eq.
        + exists k', wi'. split; [|done].
          rewrite lookup_insert_ne; [done|]. intros <-. congruence. }
    assert (Hin : inLocalQueue q wi = workloadBelongsToLocalQueue (Obj wi) q) by done.
    assert (Hai : admittedInLocalQueue q wi
                  = workloadBelongsToLocalQueue (Obj wi) q && IsAdmitted (Obj wi)) by done.
    split; intros fr; rewrite Hins; [rewrite Hin|rewrite Hai]; unfold countWorkload;
      destruct (workloadBelongsToLocalQueue (Obj wi) q) eqn:Hb; simpl;
      try destruct (IsAdmitted (Obj wi)) eqn:Hadm; simpl;
      rewrite ?dom_updateFlavorUsage, ?elem_of_union, ?IHt, ?IHu;
      intuition congruence.
Qed.

(** X21: the local queue that a successful [addLocalQueue] registers bears
    the key of the local queue; its reserved usage has an entry for exactly
    the flavors and resources for which the usage of the cluster queue has
    one or that a workload of the local queue uses, and its admitted usage
    for those for which the admitted usage of the cluster queue has one or
    that an admitted workload of the local queue uses.  The local queues
    under other keys stay as they are. *)
Theorem addLocalQueue_registers_entries (c c' : clusterQueue) (q : LocalQueue) :
  addLocalQueue c q = (c', None) →
  (∃ lq,
     localQueues c' !! queueKey q = Some lq
     ∧ key lq = queueKey q
     ∧ (∀ fr, fr ∈ dom (totalReserved lq) ↔
              fr ∈ dom (Usage (resourceNode c))
              ∨ ∃ k wi, Workloads c !! k = Some wi ∧ inLocalQueue q wi = true
                        ∧ fr ∈ dom (FlavorResourceUsage wi))
     ∧ (∀ fr, fr ∈ dom (admittedUsage lq) ↔
              fr ∈ dom (AdmittedUsage c)
              ∨ ∃ k wi, Workloads c !! k = Some wi
                        ∧ admittedInLocalQueue q wi = true
                        ∧ fr ∈ dom (FlavorResourceUsage wi)))
  ∧ (∀ k, k ≠ queueKey q → localQueues c' !! k = localQueues c !! k).
Proof.
  unfold addLocalQueue. destruct (localQueues c !! queueKey q); [done|].
  intros [= <-]. split.
  - eexists. split; [apply lookup_insert_eq|]. simpl.
    match goal with
    | |- context [map_fold _ ?qi0 _] =>
        destruct (countWorkload_loop_dom q (Workloads c) qi0) as [Ht Hu];
        destruct (countWorkload_loop q (Workloads c) qi0) as (Hkey & _)
    end.
    + done.
    + done.
    + intros fr v. simpl. rewrite lookup_resetUsage.
      destruct (_ !! fr); [|done]. intros [= <-]. rewrite quantity_empty. done.
    + intros fr v. simpl. rewrite lookup_resetUsage.
      destruct (_ !! fr); [|done]. intros [= <-]. rewrite quantity_empty. done.
    + simpl in *. split; [done|]. split; intros fr.
      * rewrite Ht. rewrite !elem_of_dom, lookup_resetUsage.
        destruct (Usage (resourceNode c) !! fr) eqn:Hl; rewrite ?Hl;
          split; (intros [[? ?]|?]; [by eauto|by right]).
      * rewrite Hu. rewrite !elem_of_dom, lookup_resetUsage.
        destruct (AdmittedUsage c !! fr) eqn:Hl; rewrite ?Hl;
          split; (intros [[? ?]|?]; [by eauto|by right]).
  - intros k Hk. simpl. by rewrite lookup_insert_ne.
Qed.

(** ** Running an update twice *)

(** The loop of [updateQueueStatus] over workloads of which none is deferred
    changes nothing. *)
Lemma reAddDeferred_loop_none (TopologyAwareScheduling : bool) (c : clusterQueue)
    (ws : gmap string Info) :
  (∀ k, k ∈ dom ws → k ∉ workloadsNotAccountedForTAS c) →
  map_fold (reAddDeferred TopologyAwareScheduling) c ws = c.
Proof.
  induction ws as [|k wi ws Hk Hfold IH] using gmap_fold_ind; intros Hnone.
  - by rewrite map_fold_empty.
  - rewrite Hfold, IH.
    + unfold reAddDeferred. rewrite bool_decide_eq_false_2; [done|].
      apply Hnone. rewrite dom_insert. set_solver.
    + intros k' Hk'. apply Hnone. rewrite dom_insert. set_solver.
Qed.

(** [updateQueueStatus] changes nothing on a queue whose status it keeps and
    that holds no deferred workload when the TAS caches are there. *)
Lemma updateQueueStatus_settled (TopologyAwareScheduling : bool) (c : clusterQueue) :
  (TopologyAwareScheduling = true → (0 <? size (tasFlavors c))%nat = true →
   isTASSynced c = true →
   ∀ k, k ∈ dom (Workloads c) → k ∉ workloadsNotAccountedForTAS c) →
  Status (updateQueueStatus TopologyAwareScheduling c) = Status c →
  updateQueueStatus TopologyAwareScheduling c = c.
Proof.
  intros Hnone. unfold updateQueueStatus.
  match goal with
  | |- context [if ?b then map_fold _ c (Workloads c) else c] =>
      assert ((if b then map_fold (reAddDeferred TopologyAwareScheduling) c
                            (Workloads c) else c) = c) as ->
  end.
  { destruct TopologyAwareScheduling; simpl; [|done].
    destruct (0 <? size (tasFlavors c))%nat; simpl; [|done].
    destruct (0 <? size (workloadsNotAccountedForTAS c))%nat; simpl; [|done].
    destruct (isTASSynced c); [|done].
    apply reAddDeferred_loop_none. by apply Hnone. }
  case_bool_decide as Hs; [|done].
  intros Hstatus. simpl in Hstatus. by destruct Hs.
Qed.

(** The workloads and the deferred workloads after [updateQueueStatus]. *)
Lemma updateQueueStatus_deferred (TopologyAwareScheduling : bool) (c : clusterQueue) :
  keyedByOwnKey c →
  Workloads (updateQueueStatus TopologyAwareScheduling c) = Workloads c
  ∧ workloadsNotAccountedForTAS (updateQueueStatus TopologyAwareScheduling c)
    = (if TopologyAwareScheduling && (0 <? size (tasFlavors c))%nat
          && isTASSynced c
       then workloadsNotAccountedForTAS c ∖ dom (Workloads c)
       else workloadsNotAccountedForTAS c).
Proof.
  intros Hkeyed. unfold updateQueueStatus.
  match goal with
  | |- context [if ?b then map_fold _ c (Workloads c) else c] =>
      set (c1 := if b then map_fold (reAddDeferred TopologyAwareScheduling) c
                             (Workloads c)
                 else c)
  end.
  assert (Workloads c1 = Workloads c
          ∧ workloadsNotAccountedForTAS c1
            = (if TopologyAwareScheduling && (0 <? size (tasFlavors c))%nat
                  && isTASSynced c
               then workloadsNotAccountedForTAS c ∖ dom (Workloads c)
               else workloadsNotAccountedForTAS c)) as Hc1.
  { subst c1.
    destruct TopologyAwareScheduling; simpl; [|done].
    destruct (0 <? size (tasFlavors c))%nat; simpl; [|done].
    destruct (isTASSynced c) eqn:Hsynced; rewrite ?andb_false_r; simpl; [|done].
    rewrite andb_true_r.
    destruct (0 <? size (workloadsNotAccountedForTAS c))%nat eqn:Hsize.
    - by destruct (reAddDeferred_loop_synced c (Workloads c) Hsynced Hkeyed)
        as (-> & -> & _).
    - split; [done|]. apply Nat.ltb_ge in Hsize.
      assert (workloadsNotAccountedForTAS c = ∅) as ->; [|set_solver].
      apply leibniz_equiv, size_empty_inv. lia. }
  clearbody c1. by case_bool_decide.
Qed.

(** The status that [updateQueueStatus] gives is the status it would give
    again. *)
Lemma updateQueueStatus_status_twice (TopologyAwareScheduling : bool)
    (c : clusterQueue) :
  let c' := updateQueueStatus TopologyAwareScheduling c in
  Status (updateQueueStatus TopologyAwareScheduling c') = Status c'.
Proof.
  cbv zeta.
  destruct (updateQueueStatus_spec TopologyAwareScheduling c) as (Hview & Ha & Ht).
  destruct (updateQueueStatus_spec TopologyAwareScheduling
              (updateQueueStatus TopologyAwareScheduling c)) as (_ & Ha' & Ht').
  assert (recordedCause TopologyAwareScheduling
            (updateQueueStatus TopologyAwareScheduling c)
          ↔ recordedCause TopologyAwareScheduling c) as Hcause
    by (by apply recordedCause_causeView).
  pose proof (updateQueueStatus_sets_status TopologyAwareScheduling c) as Hset.
  pose proof (updateQueueStatus_sets_status TopologyAwareScheduling
                (updateQueueStatus TopologyAwareScheduling c)) as Hset'.
  destruct (Status (updateQueueStatus TopologyAwareScheduling
                      (updateQueueStatus TopologyAwareScheduling c))) eqn:Hs2;
    destruct (Status (updateQueueStatus TopologyAwareScheduling c)) eqn:Hs1;
    try done; exfalso; intuition discriminate.
Qed.

(** X22: on a queue that keeps its workloads under their own keys,
    [updateQueueStatus] run again changes nothing: the status it gave stays,
    and no workload is added again. *)
Theorem updateQueueStatus_idempotent (TopologyAwareScheduling : bool)
    (c : clusterQueue) :
  keyedByOwnKey c →
  let c' := updateQueueStatus TopologyAwareScheduling c in
  updateQueueStatus TopologyAwareScheduling c' = c'.
Proof.
  intros Hkeyed. cbv zeta.
  destruct (updateQueueStatus_deferred TopologyAwareScheduling c Hkeyed)
    as [Hws Hdeferred].
  destruct (updateQueueStatus_spec TopologyAwareScheduling c) as (Hview & _).
  apply updateQueueStatus_settled; [|apply updateQueueStatus_status_twice].
  intros -> Hsize Hsynced k Hk.
  destruct (causeView_fields _ _ Hview)
    as (_ & _ & _ & _ & _ & _ & _ & _ & _ & Htas & Hcache & _).
  unfold isTASSynced in *. rewrite Htas, Hcache in Hsynced. rewrite Htas in Hsize.
  rewrite Hdeferred, Hws in *. simpl. rewrite Hsize, Hsynced. simpl.
  set_solver.
Qed.

(** The label keys that [updateLabelKeys] gathers for a resource group depend
    on its flavors alone. *)
Lemma visitFlavor_fold_keys (flavors : gmap string ResourceFlavor) (l : list string)
    (keys : gset string) (tas tas' : gmap string string) (missing missing' : list string) :
  (foldl (visitFlavor flavors) (keys, tas, missing) l).1.1
  = (foldl (visitFlavor flavors) (keys, tas', missing') l).1.1.
Proof.
  revert keys tas tas' missing missing'.
  induction l as [|fName l IH]; intros keys tas tas' missing missing'; [done|].
  cbn [foldl].
  assert (∀ t m, visitFlavor flavors (keys, t, m) fName
                 = match flavors !! fName with
                   | Some flv =>
                       (keys ∪ dom (NodeLabels flv),
                        match TopologyName flv with
                        | Some topology => <[fName := topology]> t
                        | None => t
                        end, m)
                   | None => (keys, t, m ++ [fName])
                   end) as Hvisit by reflexivity.
  rewrite !Hvisit. destruct (flavors !! fName); apply IH.
Qed.

(** One round of the loop of [updateLabelKeys] over the resource groups, and
    the same round on the resource group it left. *)
Lemma visitResourceGroup_again (flavors : gmap string ResourceFlavor)
    (rg : ResourceGroup) :
  ∃ rg', ∀ rgs tas missing,
    ∃ tas' missing',
      visitResourceGroup flavors (rgs, tas, missing) rg = (rgs ++ [rg'], tas', missing')
      ∧ visitResourceGroup flavors (rgs, tas, missing) rg'
        = (rgs ++ [rg'], tas', missing').
Proof.
  destruct (length (Flavors rg) =? 0)%nat eqn:Hlen.
  - exists {| CoveredResources := CoveredResources rg; Flavors := Flavors rg;
              LabelKeys := ∅ |}.
    intros rgs tas missing. exists tas, missing.
    unfold visitResourceGroup. simpl. by rewrite Hlen.
  - set (keys0 := (foldl (visitFlavor flavors) (∅, ∅, []) (Flavors rg)).1.1).
    exists (if (0 <? size keys0)%nat
            then {| CoveredResources := CoveredResources rg; Flavors := Flavors rg;
                    LabelKeys := keys0 |}
            else rg).
    intros rgs tas missing.
    assert ((foldl (visitFlavor flavors) (∅, tas, missing) (Flavors rg)).1.1 = keys0)
      as Hkeys by apply visitFlavor_fold_keys.
    destruct (foldl (visitFlavor flavors) (∅, tas, missing) (Flavors rg))
      as [[keys tas'] missing'] eqn:Hfold.
    simpl in Hkeys. subst keys. exists tas', missing'.
    unfold visitResourceGroup.
    destruct (0 <? size keys0)%nat eqn:Hsize; simpl; rewrite Hlen, Hfold, Hsize; done.
Qed.

Lemma visitResourceGroup_fold_again (flavors : gmap string ResourceFlavor)
    (l : list ResourceGroup) :
  ∃ l', ∀ rgs tas missing,
    ∃ tas' missing',
      foldl (visitResourceGroup flavors) (rgs, tas, missing) l
      = (rgs ++ l', tas', missing')
      ∧ foldl (visitResourceGroup flavors) (rgs, tas, missing) l'
        = (rgs ++ l', tas', missing').
Proof.
  induction l as [|rg l [l' IH]].
  - exists []. intros rgs tas missing. exists tas, missing.
    by rewrite app_nil_r.
  - destruct (visitResourceGroup_again flavors rg) as [rg' Hrg].
    exists (rg' :: l'). intros rgs tas missing.
    destruct (Hrg rgs tas missing) as (tas1 & missing1 & Hfirst & Hagain).
    destruct (IH (rgs ++ [rg']) tas1 missing1) as (tas' & missing' & Hrest & Hrest').
    exists tas', missing'. cbn [foldl]. rewrite Hfirst, Hagain, Hrest, Hrest'.
    by rewrite <- app_assoc.
Qed.

(** [updateLabelKeys] changes nothing on a queue that has the resource
    groups, the TAS flavors and the missing flavors that it left. *)
Lemma updateLabelKeys_again (c c2 : clusterQueue)
    (flavors : gmap string ResourceFlavor) :
  ResourceGroups c2 = ResourceGroups (updateLabelKeys c flavors) →
  tasFlavors c2 = tasFlavors (updateLabelKeys c flavors) →
  missingFlavors c2 = missingFlavors (updateLabelKeys c flavors) →
  updateLabelKeys c2 flavors = c2.
Proof.
  unfold updateLabelKeys.
  destruct (visitResourceGroup_fold_again flavors (ResourceGroups c)) as [l' Hl'].
  destruct (Hl' [] ∅ []) as (tas' & missing' & Hfold & Hfold').
  rewrite Hfold. simpl. intros Hrgs Htas Hmissing.
  rewrite Hrgs, Hfold'. simpl.
  destruct c2. simpl in *. by subst.
Qed.

(** X23: on a queue that keeps its workloads under their own keys,
    [UpdateWithFlavors] with the flavors it was last run with changes
    nothing. *)
Theorem UpdateWithFlavors_idempotent (TopologyAwareScheduling : bool)
    (c : clusterQueue) (flavors : gmap string ResourceFlavor) :
  keyedByOwnKey c →
  let c' := UpdateWithFlavors TopologyAwareScheduling c flavors in
  UpdateWithFlavors TopologyAwareScheduling c' flavors = c'.
Proof.
  intros Hkeyed. cbv zeta.
  destruct (UpdateWithFlavors_fields TopologyAwareScheduling c flavors)
    as (Hrgs & Htas & Hmissing).
  unfold UpdateWithFlavors at 1.
  rewrite (updateLabelKeys_again c _ flavors Hrgs Htas Hmissing).
  unfold UpdateWithFlavors.
  set (c1 := updateLabelKeys c flavors).
  assert (keyedByOwnKey c1) as Hkeyed1.
  { pose proof (updateLabelKeys_accountView c flavors) as [= Hws _ _ _ _].
    unfold keyedByOwnKey. subst c1. by rewrite Hws. }
  clearbody c1.
  destruct (updateQueueStatus_deferred TopologyAwareScheduling c1 Hkeyed1)
    as [Hws Hdeferred].
  destruct (updateQueueStatus_spec TopologyAwareScheduling c1) as (Hview & _).
  apply updateQueueStatus_settled; [|apply updateQueueStatus_status_twice].
  intros -> Hsize Hsynced k Hk.
  destruct (causeView_fields _ _ Hview)
    as (_ & _ & _ & _ & _ & _ & _ & _ & _ & Htas1 & Hcache & _).
  unfold isTASSynced in *. rewrite Htas1, Hcache in Hsynced. rewrite Htas1 in Hsize.
  rewrite Hdeferred, Hws in *. simpl. rewrite Hsize, Hsynced. simpl.
  set_solver.
Qed.

(** ** Instances on concrete queues *)


(** A pending queue that has no cause on record stays pending through
    [updateWithAdmissionChecks], which finds no record to change. *)
Lemma updateWithAdmissionChecks_keeps_stale_status :
  let c := set_Status pending exampleQueue in
  updateWithAdmissionChecks false true "multikueue" "provisioning" c ∅ = c
  ∧ Status c = pending
  ∧ ¬ recordedCause false c.
Proof.
  intros c. split_and!; [by vm_compute|reflexivity|].
  intros Hcause.
  unfold recordedCause, stopped, recordsMissingFlavor, recordsMissingCheck,
    recordsInactiveCheck, recordsSeveralMultiKueue, recordsMultiKueuePerFlavor,
    recordsSeveralOfSingleInstance, recordsFlavorIndependentPerFlavor,
    tasUnsupportedCheck, tasUnsyncedTopology in Hcause.
  simpl in Hcause.
  repeat (destruct Hcause as [Hcause|Hcause]; [done || lia|]).
  by destruct Hcause.
Qed.


Lemma usage_is_sum_of_workloads_witness :
  usageMatchesWorkloads exampleQueue
  ∧ usageMatchesWorkloads
      (foldl (applyWorkloadOp false) exampleQueue
         [OpAddWorkload (exampleWorkload "w1" true 2);
          OpAddOrUpdateWorkload (exampleWorkload "w1" false 3);
          OpAddWorkload (exampleWorkload "w2" true 5);
          OpDeleteWorkload (exampleWorkload "w1" false 3)]).
Proof.
  assert (usageMatchesWorkloads exampleQueue) as Hmatches.
  { intros fr. split; reflexivity. }
  split; [exact Hmatches|].
  exact (usage_is_sum_of_workloads false _ exampleQueue Hmatches).
Defined.

Lemma inactiveReason_first_cause_all_messages_witness :
  let c := set_Status pending (set_isStopped true exampleQueue) in
  (∀ m : gmap string string, map_to_list m ≡ₚ map_to_list m)
  ∧ Status c = pending
  ∧ inactiveReason false id id map_to_list c
    = pendingReason false id id map_to_list c.
Proof.
  intros c.
  assert (∀ m : gmap string string, map_to_list m ≡ₚ map_to_list m) as Hperm
    by reflexivity.
  split_and!; [exact Hperm|reflexivity|].
  apply (inactiveReason_first_cause_all_messages false id id map_to_list Hperm c).
  reflexivity.
Defined.

(** Usage maps of the queues used below hold int64 values. *)
Lemma int64_map_singleton fr (q : Z) : is_int64 q → int64_map {[ fr := q ]}.
Proof. intros Hq fr' q' [_ <-]%lookup_singleton_Some. exact Hq. Qed.

Lemma add_then_delete_restores_usage_witness :
  let c := fst (addLocalQueue exampleQueue exampleLocalQueue) in
  let w := exampleWorkload "w1" true 2 in
  let c' := deleteWorkload false (addOrUpdateWorkload false c w) w in
  Workloads c !! Key w = None
  ∧ int64_usage c
  ∧ sameQuantities (Usage (resourceNode c')) (Usage (resourceNode c))
  ∧ sameQuantities (AdmittedUsage c') (AdmittedUsage c)
  ∧ sameLocalQueueUsage (localQueues c') (localQueues c).
Proof.
  intros c w c'.
  assert (Workloads c !! Key w = None) as Habsent by reflexivity.
  assert (int64_usage c) as Hint.
  { split_and!; [apply int64_map_empty..|].
    assert (localQueues c
            = {[ "ns/lq" := {| key := "ns/lq"; reservingWorkloads := 0;
                               admittedWorkloads := 0; totalReserved := ∅;
                               admittedUsage := ∅ |} ]}) as -> by reflexivity.
    intros k lq [_ <-]%lookup_singleton_Some.
    split; apply int64_map_empty. }
  destruct (add_then_delete_restores_usage false c w Habsent Hint)
    as (Husage & Hadmitted & Hlocal).
  split_and!; [exact Habsent|exact Hint|exact Husage|exact Hadmitted|exact Hlocal].
Defined.

(** An [updateClusterQueue] that brings new quotas to a queue whose parent
    is in a tree that cannot be updated installs the quotas and leaves
    AllocatableResourceGeneration as it was; so does
    [updateQuotasAndResourceGroups] on its own. *)
Lemma failed_tree_update_keeps_generation :
  let spec := {| specResourceGroups :=
                   [ {| rgCoveredResources := ["cpu"];
                        rgFlavors :=
                          [ {| fqName := "default";
                               fqResources :=
                                 [ {| rqName := "cpu"; rqNominalQuota := 4;
                                      rqBorrowingLimit := None;
                                      rqLendingLimit := None |} ] |} ] |} ];
                 specNamespaceSelector := None; specStopPolicy := None;
                 specAdmissionChecks := ∅ |} in
  let edge := {| hasParent := true; parentChanged := false;
                 treeUpdateError := Some (errExternal "cohort has a cycle");
                 hasOldParent := false; oldParentTreeHoldsQueue := false |} in
  let r := updateClusterQueue false false "multikueue" "provisioning"
             exampleQueue spec ∅ ∅ edge in
  Quotas (resourceNode exampleQueue) = ∅
  ∧ Quotas (resourceNode (fst r))
    = {[ ("default", "cpu") := {| Nominal := 4; BorrowingLimit := None;
                                  LendingLimit := None |} ]}
  ∧ snd r = Some (errExternal "cohort has a cycle")
  ∧ AllocatableResourceGeneration exampleQueue = 1
  ∧ AllocatableResourceGeneration (fst r) = 1
  ∧ ¬ (AllocatableResourceGeneration exampleQueue
       < AllocatableResourceGeneration (fst r))
  ∧ Quotas (resourceNode
              (applyQueueOp false false "multikueue" "provisioning" exampleQueue
                 (DoUpdateQuotasAndResourceGroups (specResourceGroups spec))))
    = {[ ("default", "cpu") := {| Nominal := 4; BorrowingLimit := None;
                                  LendingLimit := None |} ]}
  ∧ AllocatableResourceGeneration
      (applyQueueOp false false "multikueue" "provisioning" exampleQueue
         (DoUpdateQuotasAndResourceGroups (specResourceGroups spec))) = 1.
Proof.
  intros spec edge r.
  assert (AllocatableResourceGeneration (fst r) = 1) as Hsame by reflexivity.
  split_and!;
    [reflexivity|by vm_compute|reflexivity|reflexivity|exact Hsame|
     |by vm_compute|reflexivity].
  rewrite Hsame. change (AllocatableResourceGeneration exampleQueue) with 1. lia.
Qed.

Lemma generation_never_decreases_witness :
  let spec := {| specResourceGroups :=
                   [ {| rgCoveredResources := ["cpu"];
                        rgFlavors :=
                          [ {| fqName := "default";
                               fqResources :=
                                 [ {| rqName := "cpu"; rqNominalQuota := 4;
                                      rqBorrowingLimit := None;
                                      rqLendingLimit := None |} ] |} ] |} ];
                 specNamespaceSelector := None; specStopPolicy := None;
                 specAdmissionChecks := ∅ |} in
  let w := exampleWorkload "w1" true 2 in
  let c := addOrUpdateWorkload false exampleQueue w in
  let c' := fst (updateClusterQueue false false "multikueue" "provisioning"
                   c spec ∅ ∅ exampleEdge) in
  is_int64 (AllocatableResourceGeneration c)
  ∧ AllocatableResourceGeneration c + 3 * Z.of_nat (size (Workloads c)) + 2
      ≤ max_int64
  ∧ AllocatableResourceGeneration c
      < AllocatableResourceGeneration (deleteWorkload false c w)
  ∧ quotaChange c spec
  ∧ Quotas (resourceNode c') = createResourceQuotas (specResourceGroups spec)
  ∧ AllocatableResourceGeneration c < AllocatableResourceGeneration c'.
Proof.
  intros spec w c c'.
  assert (is_int64 (AllocatableResourceGeneration c)) as Hint by (by vm_compute).
  assert (AllocatableResourceGeneration c + 3 * Z.of_nat (size (Workloads c)) + 2
            ≤ max_int64) as Hroom by (by vm_compute).
  assert (quotaChange c spec) as Hchange.
  { left. change (Quotas (resourceNode c)) with (∅ : gmap FlavorResource ResourceQuota).
    intros Hq. apply (f_equal (fun m => m !! ("default", "cpu"))) in Hq.
    vm_compute in Hq. discriminate. }
  destruct (generation_never_decreases false false "multikueue" "provisioning"
              c (DoDeleteWorkload w) Hint Hroom) as (_ & Hstrict & _).
  destruct (generation_never_decreases false false "multikueue" "provisioning"
              c (DoUpdateClusterQueue spec ∅ ∅ exampleEdge) Hint Hroom)
    as (_ & _ & Hupdate & _).
  destruct (Hupdate spec ∅ ∅ exampleEdge eq_refl Hchange) as (Hquotas & Hraised & _).
  split_and!; [exact Hint|exact Hroom| |exact Hchange|exact Hquotas|].
  - apply (Hstrict w); [by left|by eexists].
  - apply Hraised. reflexivity.
Defined.

(** A workload that the queue holds under its own key, and under no other,
    is refused by [addWorkload]. *)
Lemma addWorkload_refuses_same_key :
  let w := exampleWorkload "w1" true 2 in
  let c := addOrUpdateWorkload false exampleQueue w in
  ¬ presentUnderDifferentKey c w
  ∧ addWorkload false c w
    = (c, Some (errorsNew "workload already exists in ClusterQueue"))
  ∧ ¬ addWorkload_fails_on_different_key false c w.
Proof.
  intros w c.
  assert (¬ presentUnderDifferentKey c w) as Hnot.
  { assert (Workloads c = {[ "ns/w1" := NewInfo w ]}) as Hheld by reflexivity.
    intros (k & Hk & Hlookup). rewrite Hheld in Hlookup.
    apply lookup_singleton_Some in Hlookup as [<- _]. by apply Hk. }
  assert (addWorkload false c w
          = (c, Some (errorsNew "workload already exists in ClusterQueue")))
    as Hrefused by reflexivity.
  split_and!; [exact Hnot|exact Hrefused|].
  intros [_ Hupsert]. destruct (Hupsert Hnot) as [Herr _].
  rewrite Hrefused in Herr. cbn [snd] in Herr. discriminate Herr.
Qed.

Lemma addWorkload_same_key_or_counted_once_witness :
  let w := exampleWorkload "w1" true 2 in
  let c := addOrUpdateWorkload false exampleQueue w in
  int64_map (Usage (resourceNode c))
  ∧ int64_map (AdmittedUsage c)
  ∧ addWorkload false c w
    = (c, Some (errorsNew "workload already exists in ClusterQueue"))
  ∧ quantity (Usage (resourceNode (addOrUpdateWorkload false c
                                     (exampleWorkload "w1" true 7))))
             ("default", "cpu") = 7.
Proof.
  intros w c.
  assert (int64_map (Usage (resourceNode c))) as Husage.
  { assert (Usage (resourceNode c) = {[ ("default", "cpu") := 2 ]}) as ->
      by (vm_compute; reflexivity).
    apply int64_map_singleton. by vm_compute. }
  assert (int64_map (AdmittedUsage c)) as Hadmitted.
  { assert (AdmittedUsage c = {[ ("default", "cpu") := 2 ]}) as ->
      by (vm_compute; reflexivity).
    apply int64_map_singleton. by vm_compute. }
  split_and!; [exact Husage|exact Hadmitted|..].
  - by eapply (addWorkload_same_key_or_counted_once false c w Husage Hadmitted).
  - destruct (addWorkload_same_key_or_counted_once false c
                (exampleWorkload "w1" true 7) Husage Hadmitted)
      as (_ & _ & _ & Hquantity).
    destruct (Hquantity ("default", "cpu")) as [-> _]. reflexivity.
Defined.

(** [deleteWorkload] of a workload that the queue does not hold leaves the
    generation as it is; of a workload that it holds, it takes out the usage
    stored with the key, whatever usage the workload passed in has. *)
Lemma deleteWorkload_absent_keeps_generation :
  let w := exampleWorkload "w1" true 2 in
  let w' := exampleWorkload "w1" true 9 in
  let c := addOrUpdateWorkload false exampleQueue w in
  deleteWorkload false exampleQueue w = exampleQueue
  ∧ ¬ deleteWorkload_acts_on_every_workload false exampleQueue w
  ∧ quantity (Usage (resourceNode (deleteWorkload false c w'))) ("default", "cpu") = 0
  ∧ ¬ deleteWorkload_acts_on_every_workload false c w'.
Proof.
  intros w w' c. split_and!.
  - reflexivity.
  - intros (_ & Hgeneration & _). discriminate Hgeneration.
  - by vm_compute.
  - intros (Hquantity & _). specialize (Hquantity ("default", "cpu")).
    vm_compute in Hquantity. discriminate Hquantity.
Qed.

Lemma deleteWorkload_removes_stored_workload_witness :
  let w := exampleWorkload "w1" true 2 in
  let c := addOrUpdateWorkload false exampleQueue w in
  let c' := deleteWorkload false c (exampleWorkload "w1" false 9) in
  int64_map (Usage (resourceNode c))
  ∧ int64_map (AdmittedUsage c)
  ∧ Workloads c !! Key w = Some (NewInfo w)
  ∧ quantity (Usage (resourceNode c')) ("default", "cpu") = 0
  ∧ AllocatableResourceGeneration c' = 2
  ∧ Workloads c' = ∅.
Proof.
  intros w c c'.
  assert (int64_map (Usage (resourceNode c))) as Husage.
  { assert (Usage (resourceNode c) = {[ ("default", "cpu") := 2 ]}) as ->
      by (vm_compute; reflexivity).
    apply int64_map_singleton. by vm_compute. }
  assert (int64_map (AdmittedUsage c)) as Hadmitted.
  { assert (AdmittedUsage c = {[ ("default", "cpu") := 2 ]}) as ->
      by (vm_compute; reflexivity).
    apply int64_map_singleton. by vm_compute. }
  assert (Workloads c !! Key (exampleWorkload "w1" false 9) = Some (NewInfo w))
    as Hheld by reflexivity.
  destruct (deleteWorkload_removes_stored_workload false c
              (exampleWorkload "w1" false 9) Husage Hadmitted)
    as [_ Hpresent].
  destruct (Hpresent _ Hheld) as (Hquantity & Hgeneration & Hworkloads).
  split_and!; [exact Husage|exact Hadmitted|exact Hheld|..].
  - destruct (Hquantity ("default", "cpu")) as [Hcpu _].
    etrans; [exact Hcpu|]. by vm_compute.
  - etrans; [exact Hgeneration|]. by vm_compute.
  - etrans; [exact Hworkloads|]. by vm_compute.
Defined.

Lemma addLocalQueue_backfills_counters_witness :
  let elsewhere := {| wlNamespace := "other"; wlName := "w3"; wlQueueName := "lq";
                      wlAdmitted := true; wlPodsReady := false; wlUsingTAS := false;
                      wlFlavorResourceUsage := {[ ("default", "cpu") := 7 ]} |} in
  let c := addOrUpdateWorkload false
             (addOrUpdateWorkload false
                (addOrUpdateWorkload false exampleQueue (exampleWorkload "w1" true 2))
                (exampleWorkload "w2" false 3))
             elsewhere in
  let c' := fst (addLocalQueue c exampleLocalQueue) in
  addLocalQueue c exampleLocalQueue = (c', None)
  ∧ size (Workloads c) = 3%nat
  ∧ ∃ lq, localQueues c' !! queueKey exampleLocalQueue = Some lq
          ∧ reservingWorkloads lq = 2
          ∧ quantity (totalReserved lq) ("default", "cpu") = 5
          ∧ admittedWorkloads lq = 1
          ∧ quantity (admittedUsage lq) ("default", "cpu") = 2.
Proof.
  intros elsewhere c c'.
  assert (addLocalQueue c exampleLocalQueue = (c', None)) as Hadded by reflexivity.
  assert (size (Workloads c) = 3%nat) as Hsize by (vm_compute; reflexivity).
  split_and!; [exact Hadded|exact Hsize|].
  destruct (addLocalQueue_backfills_counters c c' exampleLocalQueue Hadded)
    as (_ & lq & Hlq & Hreserving & Hreserved & Hadmitted & Husage).
  exists lq. split_and!; [exact Hlq| | | |].
  - etrans; [exact Hreserving|]. vm_compute. reflexivity.
  - etrans; [exact (Hreserved ("default", "cpu"))|]. vm_compute. reflexivity.
  - etrans; [exact Hadmitted|]. vm_compute. reflexivity.
  - etrans; [exact (Husage ("default", "cpu"))|]. vm_compute. reflexivity.
Defined.

Lemma terminating_is_final_witness :
  let c := set_Status terminating exampleQueue in
  Status c = terminating
  ∧ Status (applyStatusOp false true "multikueue" "provisioning" c
              (CallUpdateWithAdmissionChecks exampleChecks)) = terminating.
Proof.
  intros c.
  assert (Status c = terminating) as Hterminating by reflexivity.
  split; [exact Hterminating|].
  apply (terminating_is_final false true "multikueue" "provisioning" id id
           map_to_list c (CallUpdateWithAdmissionChecks exampleChecks)
           Hterminating).
Defined.

Lemma addLocalQueue_already_exists_witness :
  let c := fst (addLocalQueue exampleQueue exampleLocalQueue) in
  localQueues c !! queueKey exampleLocalQueue
    = Some {| key := "ns/lq"; reservingWorkloads := 0; admittedWorkloads := 0;
              totalReserved := ∅; admittedUsage := ∅ |}
  ∧ addLocalQueue c exampleLocalQueue = (c, Some errQueueAlreadyExists).
Proof.
  split; [reflexivity|].
  eapply addLocalQueue_already_exists. reflexivity.
Defined.

(** ** Instances of the further properties *)

Lemma workloads_stay_keyed_by_own_key_witness :
  keyedByOwnKey exampleQueue
  ∧ keyedByOwnKey
      (foldl (applyQueueOp false true "multikueue" "provisioning") exampleQueue
         [DoAddWorkload (exampleWorkload "w1" true 2);
          DoUpdateQueueStatus;
          DoAddOrUpdateWorkload (exampleWorkload "w1" false 3);
          DoForgetWorkload (exampleWorkload "w1" false 3)]).
Proof.
  assert (keyedByOwnKey exampleQueue) as Hkeyed.
  { intros k wi Hk. change (Workloads exampleQueue) with (∅ : gmap string Info) in Hk.
    by rewrite lookup_empty in Hk. }
  split; [exact Hkeyed|].
  exact (workloads_stay_keyed_by_own_key false true "multikueue" "provisioning" _
           exampleQueue Hkeyed).
Defined.


Lemma admitted_count_follows_workloads_witness :
  admittedCountMatches exampleQueue
  ∧ admittedCountMatches
      (foldl (applyQueueOp false true "multikueue" "provisioning") exampleQueue
         [DoAddWorkload (exampleWorkload "w1" true 2);
          DoAddWorkload (exampleWorkload "w2" false 5);
          DoUpdateWithFlavors ∅;
          DoDeleteWorkload (exampleWorkload "w1" true 2)]).
Proof.
  assert (admittedCountMatches exampleQueue) as Hcount by reflexivity.
  split; [exact Hcount|].
  exact (admitted_count_follows_workloads false true "multikueue" "provisioning" _
           exampleQueue Hcount).
Defined.


Lemma usage_follows_workloads_under_every_operation_witness :
  usageMatchesWorkloads exampleQueue
  ∧ usageMatchesWorkloads
      (foldl (applyQueueOp true true "multikueue" "provisioning") exampleQueue
         [DoAddWorkload (exampleWorkload "w1" true 2);
          DoAddLocalQueue exampleLocalQueue;
          DoUpdateClusterQueue exampleSpec ∅ exampleChecks exampleEdge;
          DoAddOrUpdateWorkload (exampleWorkload "w1" true 7)]).
Proof.
  assert (usageMatchesWorkloads exampleQueue) as Hmatches.
  { intros fr. split; reflexivity. }
  split; [exact Hmatches|].
  exact (usage_follows_workloads_under_every_operation true true "multikueue"
           "provisioning" _ exampleQueue Hmatches).
Defined.


Lemma local_queue_counters_follow_workloads_witness :
  let ops := [DoAddLocalQueue exampleLocalQueue;
              DoAddWorkload (exampleWorkload "w1" true 2);
              DoAddOrUpdateWorkload (exampleWorkload "w2" false 3);
              DoDeleteWorkload (exampleWorkload "w1" true 2)] in
  Forall wellNamedOp ops
  ∧ namespacesWithoutSlash exampleQueue
  ∧ localQueuesMatchWorkloads exampleQueue
  ∧ localQueuesMatchWorkloads
      (foldl (applyQueueOp false true "multikueue" "provisioning") exampleQueue ops).
Proof.
  intros ops.
  assert (Forall wellNamedOp ops) as Hops.
  { repeat constructor. }
  assert (namespacesWithoutSlash exampleQueue) as Hnames.
  { intros k wi Hk. change (Workloads exampleQueue) with (∅ : gmap string Info) in Hk.
    by rewrite lookup_empty in Hk. }
  assert (localQueuesMatchWorkloads exampleQueue) as Hmatches.
  { intros k lq Hk.
    change (localQueues exampleQueue) with (∅ : gmap string queue) in Hk.
    by rewrite lookup_empty in Hk. }
  split_and!; [exact Hops|exact Hnames|exact Hmatches|].
  exact (local_queue_counters_follow_workloads false true "multikueue" "provisioning"
           ops exampleQueue Hops Hnames Hmatches).
Defined.


Lemma updateQueueStatus_accounts_deferred_workloads_witness :
  keyedByOwnKey exampleTASQueue
  ∧ usageMatchesWorkloads exampleTASQueue
  ∧ Workloads (updateQueueStatus true exampleTASQueue) = Workloads exampleTASQueue
  ∧ workloadsNotAccountedForTAS (updateQueueStatus true exampleTASQueue) = ∅.
Proof.
  assert (Workloads exampleTASQueue
          = {[ "ns/w1" := NewInfo (exampleWorkload "w1" true 2) ]}) as Hws
    by reflexivity.
  assert (keyedByOwnKey exampleTASQueue) as Hkeyed.
  { intros k wi Hk. rewrite Hws in Hk.
    apply lookup_singleton_Some in Hk as [<- <-]. reflexivity. }
  assert (usageMatchesWorkloads exampleTASQueue) as Hmatches.
  { intros fr. rewrite Hws, <- insert_empty.
    rewrite !usageSum_insert, !usageSum_empty by apply lookup_empty.
    change (Usage (resourceNode exampleTASQueue))
      with ({[ ("default", "cpu") := 2 ]} : gmap (string * string) Z).
    change (AdmittedUsage exampleTASQueue)
      with ({[ ("default", "cpu") := 2 ]} : gmap (string * string) Z).
    change (admittedWorkload (NewInfo (exampleWorkload "w1" true 2))) with true.
    change (anyWorkload (NewInfo (exampleWorkload "w1" true 2))) with true.
    change (FlavorResourceUsage (NewInfo (exampleWorkload "w1" true 2)))
      with ({[ ("default", "cpu") := 2 ]} : gmap (string * string) Z).
    unfold quantity.
    destruct (decide (fr = ("default", "cpu"))) as [->|Hfr].
    - rewrite lookup_singleton_eq. split; reflexivity.
    - rewrite lookup_singleton_ne by done. split; reflexivity. }
  destruct (updateQueueStatus_accounts_deferred_workloads true exampleTASQueue
              Hkeyed Hmatches) as (Hsame & _ & _ & Hdeferred).
  split_and!; [exact Hkeyed|exact Hmatches|exact Hsame|].
  etrans; [exact Hdeferred|]. by vm_compute.
Defined.

Lemma inactiveReason_ready_unless_pending_or_terminating_witness :
  let c := set_Status noStatus exampleQueue in
  (∀ m : gmap string string, map_to_list m ≡ₚ map_to_list m)
  ∧ Status c = noStatus
  ∧ fst (inactiveReason false id id map_to_list c) = ClusterQueueActiveReasonReady
  ∧ Active c = false
  ∧ Active (updateQueueStatus false c) = true.
Proof.
  intros c.
  assert (∀ m : gmap string string, map_to_list m ≡ₚ map_to_list m) as Hperm
    by reflexivity.
  assert (Status c = noStatus) as Hnone by reflexivity.
  destruct (inactiveReason_ready_unless_pending_or_terminating false id id
              map_to_list c Hperm) as (_ & Hzero & _).
  destruct (Hzero Hnone) as [Hready Hinactive].
  split_and!; [exact Hperm|exact Hnone|exact Hready|exact Hinactive|reflexivity].
Defined.


(** The status of the example queue agrees with its causes. *)
Lemma exampleQueue_statusAgrees : statusAgrees false exampleQueue exampleQueue.
Proof.
  split; [|reflexivity]. intros _ [Hcause|Hterm]; [|discriminate].
  unfold recordedCause, stopped, recordsMissingFlavor, recordsMissingCheck,
    recordsInactiveCheck, recordsSeveralMultiKueue, recordsMultiKueuePerFlavor,
    recordsSeveralOfSingleInstance, recordsFlavorIndependentPerFlavor,
    tasUnsupportedCheck, tasUnsyncedTopology in Hcause.
  simpl in Hcause.
  repeat (destruct Hcause as [Hcause|Hcause]; [done || lia|]).
  by destruct Hcause.
Qed.

Lemma pending_reason_is_never_unknown_witness :
  let c' := foldl (applyStatusOp false true "multikueue" "provisioning") exampleQueue
              [CallUpdateClusterQueue exampleSpec ∅ ∅ exampleEdge;
               CallUpdateWithFlavors ∅] in
  (∀ m : gmap string string, map_to_list m ≡ₚ map_to_list m)
  ∧ statusAgrees false exampleQueue exampleQueue
  ∧ Status c' = pending
  ∧ fst (inactiveReason false id id map_to_list c') ≠ ClusterQueueActiveReasonUnknown.
Proof.
  intros c'.
  assert (∀ m : gmap string string, map_to_list m ≡ₚ map_to_list m) as Hperm
    by reflexivity.
  assert (statusAgrees false exampleQueue exampleQueue) as Hagrees.
  { exact exampleQueue_statusAgrees. }
  assert (Status c' = pending) as Hpending by (vm_compute; reflexivity).
  split_and!; [exact Hperm|exact Hagrees|exact Hpending|].
  destruct (pending_reason_is_never_unknown false true "multikueue" "provisioning"
              id id map_to_list
              [CallUpdateClusterQueue exampleSpec ∅ ∅ exampleEdge;
               CallUpdateWithFlavors ∅] exampleQueue Hperm Hagrees Hpending)
    as [_ Hreason].
  exact Hreason.
Defined.

Lemma updateClusterQueue_stop_policy_witness :
  let spec := {| specResourceGroups := []; specNamespaceSelector := None;
                 specStopPolicy := Some Hold; specAdmissionChecks := ∅ |} in
  let r := updateClusterQueue false true "multikueue" "provisioning"
             exampleQueue spec ∅ ∅ exampleEdge in
  (∀ m : gmap string string, map_to_list m ≡ₚ map_to_list m)
  ∧ r = (fst r, None)
  ∧ isStopped (fst r) = true
  ∧ Status (fst r) = pending
  ∧ fst (inactiveReason false id id map_to_list (fst r))
    = ClusterQueueActiveReasonStopped.
Proof.
  intros spec r.
  assert (∀ m : gmap string string, map_to_list m ≡ₚ map_to_list m) as Hperm
    by reflexivity.
  assert (r = (fst r, None)) as Hupdate by (vm_compute; reflexivity).
  destruct (updateClusterQueue_stop_policy false true "multikueue" "provisioning"
              id id map_to_list exampleQueue (fst r) spec ∅ ∅ exampleEdge
              Hperm Hupdate) as (Hstopped & _ & Hstatus).
  assert (isStopped (fst r) = true) as His.
  { apply Hstopped. left. reflexivity. }
  destruct (Hstatus His) as [_ Hpending].
  assert (Status exampleQueue ≠ terminating) as Hnt by discriminate.
  destruct (Hpending Hnt) as [Hp Hreason].
  split_and!; [exact Hperm|exact Hupdate|exact His|exact Hp|exact Hreason].
Defined.

Lemma addLocalQueue_registers_entries_witness :
  let r := addLocalQueue exampleTASQueue exampleLocalQueue in
  r = (fst r, None)
  ∧ ∃ lq, localQueues (fst r) !! queueKey exampleLocalQueue = Some lq
          ∧ key lq = queueKey exampleLocalQueue
          ∧ ("default", "cpu") ∈ dom (totalReserved lq).
Proof.
  intros r.
  assert (r = (fst r, None)) as Hadd by (vm_compute; reflexivity).
  destruct (addLocalQueue_registers_entries exampleTASQueue (fst r)
              exampleLocalQueue Hadd) as [(lq & Hlq & Hkey & Hreserved & _) _].
  split; [exact Hadd|]. exists lq. split_and!; [exact Hlq|exact Hkey|].
  apply Hreserved. left.
  change (Usage (resourceNode exampleTASQueue))
    with ({[ ("default", "cpu") := 2 ]} : gmap (string * string) Z).
  rewrite dom_singleton. by apply elem_of_singleton.
Defined.

(** The example queue with a TAS flavor keeps its workload under its key. *)
Lemma exampleTASQueue_keyed : keyedByOwnKey exampleTASQueue.
Proof.
  intros k wi Hk.
  change (Workloads exampleTASQueue)
    with ({[ "ns/w1" := NewInfo (exampleWorkload "w1" true 2) ]} : gmap string Info)
    in Hk.
  apply lookup_singleton_Some in Hk as [<- <-]. reflexivity.
Qed.

Lemma updateQueueStatus_idempotent_witness :
  keyedByOwnKey exampleTASQueue
  ∧ workloadsNotAccountedForTAS (updateQueueStatus true exampleTASQueue) = ∅
  ∧ updateQueueStatus true (updateQueueStatus true exampleTASQueue)
    = updateQueueStatus true exampleTASQueue.
Proof.
  split_and!; [exact exampleTASQueue_keyed|by vm_compute|].
  exact (updateQueueStatus_idempotent true exampleTASQueue exampleTASQueue_keyed).
Defined.

Lemma UpdateWithFlavors_idempotent_witness :
  let flavors : gmap string ResourceFlavor :=
    {[ "tas-flavor" := {| NodeLabels := {[ "zone" := "a" ]};
                          TopologyName := Some "topology" |} ]} in
  keyedByOwnKey exampleTASQueue
  ∧ UpdateWithFlavors true (UpdateWithFlavors true exampleTASQueue flavors) flavors
    = UpdateWithFlavors true exampleTASQueue flavors.
Proof.
  intros flavors. split; [exact exampleTASQueue_keyed|].
  exact (UpdateWithFlavors_idempotent true exampleTASQueue flavors
           exampleTASQueue_keyed).
Defined.

